(** * Cinema ticketing server: a shallow embedding of [Cinema-Server-Side.py]

    The server keeps two SQLite tables ([movies] and [sales]) and answers
    one JSON request per TCP connection.  This development embeds

    - the Python values a decoded request is made of, with the builtins
      the handlers call on them ([int], [float], subscripting, [dict.get],
      truthiness);
    - the two tables, the way SQLite stores what the handlers bind
      (64-bit integers, column affinity, [NOT NULL], [AUTOINCREMENT]);
    - the five handlers, the dispatcher and the connection handler,
      as functions from a store to a response and a store;
    - [sell_tickets] also as the two steps it takes on the database,
      its SELECT and its transaction, with a scheduler that runs the
      steps of several connections in any order.

    Builtins whose text processing belongs to the Python run time and to
    SQLite rather than to this program ([int] and [float] of a string,
    SQLite's rendering of a real as text, [json.loads]) are fields of the
    class [Runtime]; everything proved holds for every instance. *)

From Stdlib Require Import ZArith List String Ascii Bool Lia Sorted.
From Stdlib Require Import SpecFloat DecimalString DecimalPos DecimalZ.
Import ListNotations.
Open Scope string_scope.
Open Scope Z_scope.
Set Warnings "-register-all".

(** ** Python values *)

Module Py.

(** Python's [float] is IEEE-754 binary64. *)
Definition float := spec_float.
Definition prec : Z := 53.
Definition emax : Z := 1024.

Definition float_mul (x y : float) : float := SFmul prec emax x y.

Definition is_nan (f : float) : bool :=
  match f with S754_nan => true | _ => false end.

Definition is_zero (f : float) : bool :=
  match f with S754_zero _ => true | _ => false end.

(** What [json.loads] can produce. A [dict] is kept as an association
    list read from the front. *)
Inductive pyval : Type :=
| PNone
| PBool (b : bool)
| PInt (z : Z)
| PFloat (f : float)
| PStr (s : string)
| PList (l : list pyval)
| PDict (d : list (string * pyval)).

(** The exceptions the handlers can meet. *)
Inductive exn : Type :=
| KeyError (key : string)
| TypeError
| ValueError
| OverflowError
| AttributeError
| IntegrityError      (* sqlite3: a constraint failed *)
| ProgrammingError    (* sqlite3: a parameter of an unsupported type *)
| OperationalError    (* sqlite3: the engine could not carry out a statement *)
| OSError.            (* the receipt file could not be written *)

Inductive result (A : Type) : Type :=
| Ok (a : A)
| Raise (e : exn).
Arguments Ok {A} a.
Arguments Raise {A} e.

Definition bind {A B} (r : result A) (k : A -> result B) : result B :=
  match r with
  | Ok a => k a
  | Raise e => Raise e
  end.

Declare Scope py_scope.
Delimit Scope py_scope with py.
Notation "x <- c ;; k" := (bind c (fun x => k))
  (at level 61, c at next level, right associativity) : py_scope.

(** [str(n)] for an [int]. *)
Definition str_of_int (z : Z) : string := NilZero.string_of_int (Z.to_int z).

Fixpoint assoc (k : string) (d : list (string * pyval)) : option pyval :=
  match d with
  | [] => None
  | (k', v) :: d' => if String.eqb k k' then Some v else assoc k d'
  end.

(** [obj[key]] with a string key. *)
Definition subscript (obj : pyval) (key : string) : result pyval :=
  match obj with
  | PDict d =>
      match assoc key d with
      | Some v => Ok v
      | None => Raise (KeyError key)
      end
  | _ => Raise TypeError
  end.

(** [obj.get(key, default)]; only a [dict] has the method. *)
Definition get (obj : pyval) (key : string) (default : pyval) : result pyval :=
  match obj with
  | PDict d =>
      match assoc key d with
      | Some v => Ok v
      | None => Ok default
      end
  | _ => Raise AttributeError
  end.

(** [bool(v)], as [if not req] evaluates it. *)
Definition truthy (v : pyval) : bool :=
  match v with
  | PNone => false
  | PBool b => b
  | PInt z => negb (z =? 0)
  | PFloat f => negb (is_zero f)
  | PStr s => negb (String.eqb s "")
  | PList l => match l with [] => false | _ => true end
  | PDict d => match d with [] => false | _ => true end
  end.

(** [v == "text"] for a string literal. *)
Definition eq_str (v : pyval) (text : string) : bool :=
  match v with
  | PStr s => String.eqb s text
  | _ => false
  end.

(** [int(f)] for a float: truncation towards zero. *)
Definition trunc (f : float) : result Z :=
  match f with
  | S754_zero _ => Ok 0
  | S754_infinity _ => Raise OverflowError
  | S754_nan => Raise ValueError
  | S754_finite s m e =>
      let mag := if 0 <=? e then Z.shiftl (Zpos m) e
                 else Z.shiftr (Zpos m) (- e) in
      Ok (if s then - mag else mag)
  end.

(** [float(n)] for an [int]: the nearest double, ties to even. *)
Definition float_of_int (z : Z) : result float :=
  match binary_normalize prec emax z 0 false with
  | S754_infinity _ => Raise OverflowError
  | f => Ok f
  end.

(** The text-processing builtins of the run time. *)
Class Runtime : Type := {
  (** [int(s)] for a [str]; [None] is [ValueError]. *)
  int_of_str : string -> option Z;
  (** [float(s)] for a [str]; [None] is [ValueError]. *)
  float_of_str : string -> option float;
  (** SQLite's conversion of a real to text, under TEXT affinity. *)
  text_of_real : float -> string;
  (** [json.loads] of the decoded line; [None] is any exception. *)
  json_loads : string -> option pyval
}.

Section Builtins.
Context `{Runtime}.

Definition int (v : pyval) : result Z :=
  match v with
  | PNone => Raise TypeError
  | PBool b => Ok (if b then 1 else 0)
  | PInt z => Ok z
  | PFloat f => trunc f
  | PStr s =>
      match int_of_str s with
      | Some z => Ok z
      | None => Raise ValueError
      end
  | PList _ => Raise TypeError
  | PDict _ => Raise TypeError
  end.

Definition to_float (v : pyval) : result float :=
  match v with
  | PNone => Raise TypeError
  | PBool b => float_of_int (if b then 1 else 0)
  | PInt z => float_of_int z
  | PFloat f => Ok f
  | PStr s =>
      match float_of_str s with
      | Some f => Ok f
      | None => Raise ValueError
      end
  | PList _ => Raise TypeError
  | PDict _ => Raise TypeError
  end.

End Builtins.

End Py.

(** ** The SQLite tables *)

Module Sqlite.
Import Py.

Definition int64_min : Z := -9223372036854775808.
Definition int64_max : Z := 9223372036854775807.

Definition in_int64 (z : Z) : bool := (int64_min <=? z) && (z <=? int64_max).

(** A value as SQLite stores it. *)
Inductive sqlval : Type :=
| SNull
| SInteger (z : Z)
| SReal (f : float)
| SText (s : string).

(** How the [sqlite3] module binds a Python value to a [?]: an [int]
    must fit 64 bits, a NaN is stored as NULL, a [bool] is an [int], and
    a [list] or a [dict] cannot be bound. *)
Definition bind_param (v : pyval) : result sqlval :=
  match v with
  | PNone => Ok SNull
  | PBool b => Ok (SInteger (if b then 1 else 0))
  | PInt z => if in_int64 z then Ok (SInteger z) else Raise OverflowError
  | PFloat f => Ok (if is_nan f then SNull else SReal f)
  | PStr s => Ok (SText s)
  | PList _ => Raise ProgrammingError
  | PDict _ => Raise ProgrammingError
  end.

(** The binding of an [int] the handlers converted themselves. *)
Definition bind_int (z : Z) : result Z :=
  if in_int64 z then Ok z else Raise OverflowError.

(** A [float] bound to a REAL column, as a later SELECT returns it. A
    NaN is stored as NULL. A real whose value is an integer is written
    as that integer and converted back when it is read, which gives the
    same double except for the negative zero, read back as 0.0. *)
Definition bind_float (f : float) : option float :=
  if is_nan f then None
  else if is_zero f then Some (S754_zero false)
  else Some f.

(** A row of [movies]. [title] is TEXT NOT NULL; [release_date] and
    [end_date] are TEXT and may be NULL; [ticket_price] is REAL and is
    NULL when a NaN was bound. *)
Record movie : Type := {
  id : Z;
  title : string;
  cinema_room : Z;
  release_date : option string;
  end_date : option string;
  tickets_available : Z;
  ticket_price : option float
}.

(** A row of [sales]. *)
Record sale : Type := {
  sale_id : Z;
  movie_id : Z;
  customer_name : option string;
  number_of_tickets : Z;
  total : option float;
  sale_time : string
}.

(** The committed database. Each table is kept in rowid order, which is
    the order a scan without ORDER BY visits it in; the [_seq] fields
    are the AUTOINCREMENT counters of [sqlite_sequence]. The rowid space
    is taken as unbounded (its exhaustion after 2^63-1 inserts is left
    out). *)
Record store : Type := {
  movies : list movie;
  movies_seq : Z;
  sales : list sale;
  sales_seq : Z
}.

Definition empty_store : store :=
  {| movies := []; movies_seq := 0; sales := []; sales_seq := 0 |}.

Section Engine.
Context `{Runtime}.

(** TEXT affinity: a number is stored as its text. *)
Definition text_column (v : sqlval) : option string :=
  match v with
  | SNull => None
  | SInteger z => Some (str_of_int z)
  | SReal f => Some (text_of_real f)
  | SText s => Some s
  end.

(** The parameters of the INSERT and of the UPDATE of [movies]. *)
Record movie_params : Type := {
  p_title : sqlval;
  p_cinema_room : Z;
  p_release_date : sqlval;
  p_end_date : sqlval;
  p_tickets_available : Z;
  p_ticket_price : option float
}.

Definition max_rowid {A} (rowid : A -> Z) (rows : list A) : Z :=
  fold_right (fun r acc => Z.max (rowid r) acc) 0 rows.

(** AUTOINCREMENT: one more than the largest rowid the table ever held. *)
Definition next_rowid {A} (rowid : A -> Z) (rows : list A) (seq : Z) : Z :=
  Z.max seq (max_rowid rowid rows) + 1.

Definition movie_of_params (i : Z) (text : string) (p : movie_params) : movie :=
  {| id := i;
     title := text;
     cinema_room := p_cinema_room p;
     release_date := text_column (p_release_date p);
     end_date := text_column (p_end_date p);
     tickets_available := p_tickets_available p;
     ticket_price := p_ticket_price p |}.

(** INSERT INTO movies (title, ..., ticket_price) VALUES (?, ?, ?, ?, ?, ?) *)
Definition insert_movie (p : movie_params) (st : store) : result store :=
  match text_column (p_title p) with
  | None => Raise IntegrityError
  | Some text =>
      let i := next_rowid id (movies st) (movies_seq st) in
      Ok {| movies := movies st ++ [movie_of_params i text p];
            movies_seq := i;
            sales := sales st;
            sales_seq := sales_seq st |}
  end.

Definition rowcount (i : Z) (rows : list movie) : nat :=
  List.length (filter (fun r => id r =? i) rows).

(** UPDATE movies SET title=?, ..., ticket_price=? WHERE id=?
    The NOT NULL constraint is checked on the rows the statement
    changes, so a NULL title passes when no row has the id. *)
Definition update_movie_rows (p : movie_params) (i : Z) (st : store)
  : result (store * nat) :=
  match rowcount i (movies st) with
  | O => Ok (st, O)
  | changed =>
      match text_column (p_title p) with
      | None => Raise IntegrityError
      | Some text =>
          Ok ({| movies := map (fun r => if id r =? i
                                         then movie_of_params i text p
                                         else r) (movies st);
                 movies_seq := movies_seq st;
                 sales := sales st;
                 sales_seq := sales_seq st |}, changed)
      end
  end.

(** DELETE FROM movies WHERE id=? *)
Definition delete_movie_rows (i : Z) (st : store) : store * nat :=
  ({| movies := filter (fun r => negb (id r =? i)) (movies st);
      movies_seq := movies_seq st;
      sales := sales st;
      sales_seq := sales_seq st |}, rowcount i (movies st)).

(** SELECT tickets_available, ticket_price, title FROM movies WHERE id=?
    followed by [fetchone]. *)
Definition select_movie (i : Z) (st : store) : option (Z * option float * string) :=
  match find (fun r => id r =? i) (movies st) with
  | Some r => Some (tickets_available r, ticket_price r, title r)
  | None => None
  end.

(** INSERT INTO sales (movie_id, customer_name, number_of_tickets, total,
    sale_time) VALUES (?, ?, ?, ?, ?) *)
Definition insert_sale (mid : Z) (name : sqlval) (n : Z) (tot : option float)
    (time : string) (st : store) : store :=
  let i := next_rowid sale_id (sales st) (sales_seq st) in
  {| movies := movies st;
     movies_seq := movies_seq st;
     sales := sales st ++ [ {| sale_id := i;
                               movie_id := mid;
                               customer_name := text_column name;
                               number_of_tickets := n;
                               total := tot;
                               sale_time := time |} ];
     sales_seq := i |}.

(** UPDATE movies SET tickets_available = tickets_available - ? WHERE id=? *)
Definition decrement_tickets (n : Z) (i : Z) (st : store) : store :=
  {| movies := map (fun r => if id r =? i
                             then {| id := id r;
                                     title := title r;
                                     cinema_room := cinema_room r;
                                     release_date := release_date r;
                                     end_date := end_date r;
                                     tickets_available := tickets_available r - n;
                                     ticket_price := ticket_price r |}
                             else r) (movies st);
     movies_seq := movies_seq st;
     sales := sales st;
     sales_seq := sales_seq st |}.

End Engine.

End Sqlite.

(** ** The handlers *)

Module Server.
Import Py Sqlite.
Open Scope py_scope.

(** The [message] of a response: a literal of the program, or [str(e)]
    of the exception a handler caught. *)
Inductive message : Type :=
| Text (s : string)
| Str (e : exn).

(** The response dictionaries the handlers build. *)
Inductive response : Type :=
| Movies (movies : list pyval)
    (* {"status": "ok", "movies": movies} *)
| Done (msg : string)
    (* {"status": "ok", "message": msg} *)
| Sold (msg : string) (sale_summary : pyval) (receipt : string)
    (* {"status": "ok", "message": msg, "sale": ..., "receipt": ...} *)
| Failed (msg : message).
    (* {"status": "error", "message": msg} *)

Definition status (r : response) : string :=
  match r with
  | Failed _ => "error"
  | _ => "ok"
  end.

(** What a handler cannot decide: the two readings of the clock that
    reach the database and the response, and, for [sell_tickets], the
    step after the inventory check that is made to fail, if any. *)
Inductive step : Type :=
| AtInsertSale
| AtDecrement
| AtCommit
| AtReceipt.

Record env : Type := {
  sale_clock : string;      (* datetime.now().isoformat() *)
  receipt_clock : string;   (* datetime.now().strftime('%Y%m%d%H%M%S') *)
  fault : option step
}.

Definition fails (e : env) (s : step) : bool :=
  match fault e, s with
  | Some AtInsertSale, AtInsertSale => true
  | Some AtDecrement, AtDecrement => true
  | Some AtCommit, AtCommit => true
  | Some AtReceipt, AtReceipt => true
  | _, _ => false
  end.

Definition run_step (e : env) (s : step) : result unit :=
  if fails e s
  then Raise (match s with AtReceipt => OSError | _ => OperationalError end)
  else Ok tt.

(** The double a literal such as [120.00] denotes. *)
Definition float_lit (z : Z) : float := binary_normalize prec emax z 0 false.

Definition RECEIPT_DIR : string := "server_receipts".

Section Handlers.
Context `{Runtime}.

Definition sample_row (name : string) (room price : Z) : movie_params :=
  {| p_title := SText name;
     p_cinema_room := room;
     p_release_date := SText "2025-06-01";
     p_end_date := SText "2025-06-30";
     p_tickets_available := 100;
     p_ticket_price := Some (float_lit price) |}.

Definition sample : list movie_params :=
  [ sample_row "The Matrix" 1 120;
    sample_row "The One" 2 120;
    sample_row "Mabiba" 3 180;
    sample_row "Phoenix" 4 220;
    sample_row "The Pump" 5 110 ].

Definition init_db (st : store) : result store :=
  if Nat.eqb (List.length (movies st)) 0
  then fold_left (fun acc p => st' <- acc;; insert_movie p st') sample (Ok st)
  else Ok st.

Definition of_text (t : option string) : pyval :=
  match t with
  | Some s => PStr s
  | None => PNone
  end.

Definition of_real (x : option float) : pyval :=
  match x with
  | Some f => PFloat f
  | None => PNone
  end.

Definition movie_record (r : movie) : pyval :=
  PDict [ ("id", PInt (id r));
          ("title", PStr (title r));
          ("cinema_room", PInt (cinema_room r));
          ("release_date", of_text (release_date r));
          ("end_date", of_text (end_date r));
          ("tickets_available", PInt (tickets_available r));
          ("ticket_price", of_real (ticket_price r)) ].

Definition list_movies (st : store) : response * store :=
  let rows := movies st in
  (Movies (map movie_record rows), st).

(** [int(payload[key])] and [float(payload[key])]. *)
Definition int_at (payload : pyval) (key : string) : result Z :=
  v <- subscript payload key;; int v.

Definition float_at (payload : pyval) (key : string) : result float :=
  v <- subscript payload key;; to_float v.

(** The tuple both [add_movie] and [update_movie] build, evaluated left
    to right. *)
Definition movie_fields (payload : pyval)
  : result (pyval * Z * pyval * pyval * Z * float) :=
  t <- subscript payload "title";;
  room <- int_at payload "cinema_room";;
  rd <- get payload "release_date" (PStr "");;
  ed <- get payload "end_date" (PStr "");;
  avail <- int_at payload "tickets_available";;
  price <- float_at payload "ticket_price";;
  Ok (t, room, rd, ed, avail, price).

(** Its binding to the statement, parameter by parameter. *)
Definition bind_movie_fields (f : pyval * Z * pyval * pyval * Z * float)
  : result movie_params :=
  let '(t, room, rd, ed, avail, price) := f in
  t' <- bind_param t;;
  room' <- bind_int room;;
  rd' <- bind_param rd;;
  ed' <- bind_param ed;;
  avail' <- bind_int avail;;
  Ok {| p_title := t';
        p_cinema_room := room';
        p_release_date := rd';
        p_end_date := ed';
        p_tickets_available := avail';
        p_ticket_price := bind_float price |}.

Definition add_movie (payload : pyval) (st : store) : response * store :=
  match (f <- movie_fields payload;;
         p <- bind_movie_fields f;;
         insert_movie p st) with
  | Ok st' => (Done "Movie added", st')
  | Raise e => (Failed (Str e), st)
  end.

Definition update_movie (payload : pyval) (st : store) : response * store :=
  match (f <- movie_fields payload;;
         i <- int_at payload "id";;
         p <- bind_movie_fields f;;
         i' <- bind_int i;;
         update_movie_rows p i' st) with
  | Ok (st', changed) =>
      if Nat.eqb changed 0
      then (Failed (Text "Movie id not found"), st')
      else (Done "Movie updated", st')
  | Raise e => (Failed (Str e), st)
  end.

Definition delete_movie (payload : pyval) (st : store) : response * store :=
  match (i <- int_at payload "id";;
         i' <- bind_int i;;
         Ok (delete_movie_rows i' st)) with
  | Ok (st', changed) =>
      if Nat.eqb changed 0
      then (Failed (Text "Movie id not found"), st')
      else (Done "Movie deleted", st')
  | Raise e => (Failed (Str e), st)
  end.

(** [requested * price], where [price] is what the SELECT returned. *)
Definition times (requested : Z) (price : option float) : result float :=
  match price with
  | None => Raise TypeError
  | Some p => r <- float_of_int requested;; Ok (float_mul r p)
  end.

Definition sale_record (mid : Z) (t : string) (name : pyval) (requested : Z)
    (tot : float) : pyval :=
  PDict [ ("movie_id", PInt mid);
          ("title", PStr t);
          ("customer", name);
          ("tickets", PInt requested);
          ("total", PFloat tot) ].

Definition receipt_name (e : env) (mid : Z) : string :=
  RECEIPT_DIR ++ "/receipt_" ++ receipt_clock e ++ "_" ++ str_of_int mid ++ ".txt".

Definition not_enough (available : Z) : string :=
  "Not enough tickets (available " ++ str_of_int available ++ ")".

(** The local variables of [sell_tickets] once line 168 has run:
    [movie_id], [title], [name], [requested] and [total]. *)
Definition ticket : Type := Z * string * pyval * Z * float.

(** [sell_tickets] up to line 168: the conversions, the validation of
    the count, the SELECT and the availability check, on the database as
    it is when the SELECT runs. The SELECT is a statement of its own, not
    part of the transaction that writes: an early [return] (left), or
    what the rest of the function works with (right). *)
Definition sell_check (payload : pyval) (st : store)
  : result (response + ticket) :=
  mid <- int_at payload "movie_id";;
  name <- subscript payload "customer_name";;
  requested <- int_at payload "number_of_tickets";;
  if requested <=? 0
  then Ok (inl (Failed (Text "Requested tickets must be > 0")))
  else
    mid' <- bind_int mid;;
    match select_movie mid' st with
    | None => Ok (inl (Failed (Text "Movie not found")))
    | Some (available, price, t) =>
        if requested >? available
        then Ok (inl (Failed (Text (not_enough available))))
        else
          tot <- times requested price;;
          Ok (inr (mid, t, name, requested, tot))
    end.

(** Lines 170 to 176: the INSERT into [sales], the UPDATE that takes
    [requested] off whatever count the row has by then, and the commit,
    as one transaction on the database as it is when the INSERT runs.
    An exception leaves the transaction behind uncommitted. *)
Definition sell_write (e : env) (sale : ticket) (st : store) : result store :=
  let '(mid, t, name, requested, tot) := sale in
  mid' <- bind_int mid;;
  name' <- bind_param name;;
  requested' <- bind_int requested;;
  _ <- run_step e AtInsertSale;;
  let tx := insert_sale mid' name' requested' (bind_float tot)
              (sale_clock e) st in
  _ <- run_step e AtDecrement;;
  let tx := decrement_tickets requested' mid' tx in
  _ <- run_step e AtCommit;;
  Ok tx.

(** [sell_tickets] up to and including [conn.commit()], when no other
    connection writes between its SELECT and its INSERT: both run on
    [st]. *)
Definition sell_transaction (e : env) (payload : pyval) (st : store)
  : result (response + store * ticket) :=
  checked <- sell_check payload st;;
  match checked with
  | inl resp => Ok (inl resp)
  | inr sale => st' <- sell_write e sale st;; Ok (inr (st', sale))
  end.

(** From line 179 on, with the [except] clause of line 190: [st] is the
    database the call found, which an exception before the commit leaves
    in place. *)
Definition sell_finish (e : env) (outcome : result (response + store * ticket))
    (st : store) : response * store :=
  match outcome with
  | Raise ex => (Failed (Str ex), st)
  | Ok (inl resp) => (resp, st)
  | Ok (inr (st', (mid, t, name, requested, tot))) =>
      match run_step e AtReceipt with
      | Raise ex => (Failed (Str ex), st')
      | Ok _ =>
          (Sold "Tickets sold" (sale_record mid t name requested tot)
             (receipt_name e mid), st')
      end
  end.

(** A call of [sell_tickets] that finds the database as [st] and that
    no other connection writes to before it has committed. *)
Definition sell_tickets (e : env) (payload : pyval) (st : store)
  : response * store :=
  sell_finish e (sell_transaction e payload st) st.

(** *** Sales served by several connections at once

    [start_server] hands every connection to a thread of its own, and
    every call of a handler opens a connection of its own to the
    database. SQLite runs the write transactions of different
    connections one at a time, so that a sale takes two steps on the
    shared database, between which the other connections may run: its
    SELECT, and later its transaction. *)
Inductive selling : Type :=
| Arrived (e : env) (payload : pyval)   (* [sell_tickets] called *)
| Checked (e : env) (sale : ticket)     (* line 168 done, line 170 not yet *)
| Answered (resp : response).

Definition advance (t : selling) (st : store) : selling * store :=
  match t with
  | Arrived e payload =>
      match sell_check payload st with
      | Raise ex => (Answered (Failed (Str ex)), st)
      | Ok (inl resp) => (Answered resp, st)
      | Ok (inr sale) => (Checked e sale, st)
      end
  | Checked e sale =>
      let out := sell_finish e (st' <- sell_write e sale st;;
                                Ok (inr (st', sale))) st in
      (Answered (fst out), snd out)
  | Answered resp => (Answered resp, st)
  end.

Fixpoint set_nth {A} (k : nat) (x : A) (l : list A) : list A :=
  match l, k with
  | [], _ => []
  | _ :: rest, O => x :: rest
  | y :: rest, S k' => y :: set_nth k' x rest
  end.

(** The connections and the database after the scheduler has run the
    connections named by [schedule], one step each time. *)
Fixpoint interleave (schedule : list nat) (conns : list selling) (st : store)
  : list selling * store :=
  match schedule with
  | [] => (conns, st)
  | k :: rest =>
      match nth_error conns k with
      | None => interleave rest conns st
      | Some t =>
          let out := advance t st in
          interleave rest (set_nth k (fst out) conns) (snd out)
      end
  end.

(** *** The dispatcher *)

Definition handle_request (e : env) (obj : pyval) (st : store)
  : result (response * store) :=
  action <- get obj "action" PNone;;
  if eq_str action "list_movies" then Ok (list_movies st)
  else if eq_str action "add_movie" then Ok (add_movie obj st)
  else if eq_str action "update_movie" then Ok (update_movie obj st)
  else if eq_str action "delete_movie" then Ok (delete_movie obj st)
  else if eq_str action "sell" then Ok (sell_tickets e obj st)
  else Ok (Failed (Text "Unknown action"), st).

(** *** One connection *)

(** [line, rest = buffer.split(b"\n", 1)]: the part before the first
    newline, when there is one. *)
Fixpoint first_line (buffer : string) : option string :=
  match buffer with
  | EmptyString => None
  | String c rest =>
      if Ascii.eqb c "010"%char then Some EmptyString
      else match first_line rest with
           | Some line => Some (String c line)
           | None => None
           end
  end.

(** [json.loads(...)] under [try] ... [except: return None]. *)
Definition loads_or_none (text : string) : pyval :=
  match json_loads text with
  | Some v => v
  | None => PNone
  end.

(** [recv_json]: [chunks] is what the successive [conn.recv(4096)]
    return; once they are used up the peer has closed and [recv]
    returns [b""]. *)
Fixpoint recv_json (chunks : list string) (buffer : string) : pyval :=
  match chunks with
  | [] => if String.eqb buffer "" then PNone else loads_or_none buffer
  | chunk :: later =>
      if String.eqb chunk ""
      then (if String.eqb buffer "" then PNone else loads_or_none buffer)
      else
        let buffer := buffer ++ chunk in
        match first_line buffer with
        | Some line => loads_or_none line
        | None => recv_json later buffer
        end
  end.

(** What a connection does, in order: the call of the dispatcher and the
    response written by [send_json]. *)
Inductive event : Type :=
| Dispatch (req : pyval)
| Send (resp : response).

Definition client_thread (e : env) (chunks : list string) (st : store)
  : list event * store :=
  let req := recv_json chunks "" in
  if negb (truthy req)
  then ([Send (Failed (Text "Invalid or empty request"))], st)
  else
    match handle_request e req st with
    | Ok (resp, st') => ([Dispatch req; Send resp], st')
    | Raise ex => ([Dispatch req; Send (Failed (Str ex))], st)
    end.

End Handlers.

End Server.

(** ** The requests the client sends *)

Module Client.
Import Py.

(** What the admin panel reads from its widgets. *)
Record movie_form : Type := {
  f_title : string;
  f_cinema_room : Z;
  f_release_date : string;
  f_end_date : string;
  f_tickets_available : Z;
  f_ticket_price : float
}.

(** [buy_tickets] *)
Definition sell_payload (movie_id : Z) (name : string) (count : Z) : pyval :=
  PDict [ ("action", PStr "sell");
          ("movie_id", PInt movie_id);
          ("customer_name", PStr name);
          ("number_of_tickets", PInt count) ].

(** [admin_add] *)
Definition add_payload (m : movie_form) : pyval :=
  PDict [ ("action", PStr "add_movie");
          ("title", PStr (f_title m));
          ("cinema_room", PInt (f_cinema_room m));
          ("release_date", PStr (f_release_date m));
          ("end_date", PStr (f_end_date m));
          ("tickets_available", PInt (f_tickets_available m));
          ("ticket_price", PFloat (f_ticket_price m)) ].

(** [admin_update] *)
Definition update_payload (i : Z) (m : movie_form) : pyval :=
  PDict [ ("action", PStr "update_movie");
          ("id", PInt i);
          ("title", PStr (f_title m));
          ("cinema_room", PInt (f_cinema_room m));
          ("release_date", PStr (f_release_date m));
          ("end_date", PStr (f_end_date m));
          ("tickets_available", PInt (f_tickets_available m));
          ("ticket_price", PFloat (f_ticket_price m)) ].

(** [admin_delete] *)
Definition delete_payload (i : Z) : pyval :=
  PDict [ ("action", PStr "delete_movie"); ("id", PInt i) ].

End Client.

(** ** A small run time for closed examples

    It reads decimal integers, reads no floats, and decodes the six JSON
    documents that Python takes for false. *)

Module Tiny.
Import Py.

Definition read_int (s : string) : option Z :=
  match NilZero.int_of_string s with
  | Some d => Some (Z.of_int d)
  | None => None
  end.

Definition read_json (s : string) : option pyval :=
  if String.eqb s "{}" then Some (PDict [])
  else if String.eqb s "[]" then Some (PList [])
  else if String.eqb s "0" then Some (PInt 0)
  else if String.eqb s "false" then Some (PBool false)
  else if String.eqb s "null" then Some PNone
  else if String.eqb s (String "034"%char (String "034"%char EmptyString))
       then Some (PStr EmptyString)
  else None.

#[export] Instance runtime : Runtime := {
  int_of_str := read_int;
  float_of_str := fun _ => None;
  text_of_real := fun _ => "";
  json_loads := read_json
}.

End Tiny.

(** ** Invariants, runs and reference behaviour *)

Import Py Sqlite Server Client.

Section Statements.
Context `{Runtime}.

(** No movie has a negative number of tickets left. *)
Definition nonneg (st : store) : Prop :=
  Forall (fun r => 0 <= tickets_available r) (movies st).

(** [id] is the INTEGER PRIMARY KEY of [movies]: the table holds its rows
    in strictly ascending [id] order. *)
Definition keyed (st : store) : Prop :=
  StronglySorted Z.lt (map id (movies st)).

(** The stores the server can be in: it starts on an empty database,
    runs [init_db], and then serves requests one after the other. Sales
    whose steps overlap are scheduled by [interleave]. *)
Inductive reachable : store -> Prop :=
| reach_empty : reachable empty_store
| reach_init st st' :
    reachable st -> init_db st = Ok st' -> reachable st'
| reach_request st e obj resp st' :
    reachable st -> handle_request e obj st = Ok (resp, st') -> reachable st'.

Definition present (i : Z) (st : store) : Prop := In i (map id (movies st)).

(** The tickets left for movie [m], when the table has it. *)
Definition available (m : Z) (st : store) : option Z :=
  match select_movie m st with
  | Some (a, _, _) => Some a
  | None => None
  end.

(** A row with [n] tickets taken off. *)
Definition take (n : Z) (r : movie) : movie :=
  {| id := id r;
     title := title r;
     cinema_room := cinema_room r;
     release_date := release_date r;
     end_date := end_date r;
     tickets_available := tickets_available r - n;
     ticket_price := ticket_price r |}.


(** A sequence of [sell_tickets] calls: each response with the store it
    leaves. *)
Fixpoint sell_all (reqs : list (env * pyval)) (st : store)
  : list (response * store) :=
  match reqs with
  | [] => []
  | (e, payload) :: later =>
      let out := sell_tickets e payload st in
      out :: sell_all later (snd out)
  end.

(** The tickets of movie [m] a response reports as sold. *)
Definition sold (m : Z) (resp : response) : Z :=
  match resp with
  | Sold _ summary _ =>
      match subscript summary "movie_id", subscript summary "tickets" with
      | Ok (PInt m'), Ok (PInt n) => if m' =? m then n else 0
      | _, _ => 0
      end
  | _ => 0
  end.

Definition total_sold (m : Z) (outs : list (response * store)) : Z :=
  fold_right (fun out acc => sold m (fst out) + acc) 0 outs.

(** What the specification asks of sale requests served one after the
    other against a movie [m] with [n] tickets left, title [t] and price
    [price]: a count that is not positive is refused by the validation,
    a request is accepted when the tickets left cover it, and is
    otherwise refused with the count of tickets left. *)
Fixpoint serial (m : Z) (t : string) (price : float) (n : Z)
    (reqs : list (env * string * Z)) : list response :=
  match reqs with
  | [] => []
  | (e, name, k) :: later =>
      if k <=? 0
      then Failed (Text "Requested tickets must be > 0")
           :: serial m t price n later
      else if k <=? n
      then Sold "Tickets sold"
             (sale_record m t (PStr name) k (float_mul (float_lit k) price))
             (receipt_name e m)
           :: serial m t price (n - k) later
      else Failed (Text ("Not enough tickets (available "
                         ++ str_of_int n ++ ")"))
           :: serial m t price n later
  end.

Definition wire (m : Z) (req : env * string * Z) : env * pyval :=
  let '(e, name, k) := req in (e, sell_payload m name k).

(** [part] occurs in [whole]. *)
Definition contains (part whole : string) : Prop :=
  exists before after, whole = (before ++ part ++ after)%string.

(** The keys of a dictionary, in order. *)
Definition keys (v : pyval) : list string :=
  match v with
  | PDict d => map fst d
  | _ => []
  end.

(** What a later SELECT returns for a price written to the REAL column
    [ticket_price]: NULL for a NaN, 0.0 for either zero, and the price
    itself otherwise. *)
Definition read_back (price : float) : option float :=
  match price with
  | S754_nan => None
  | S754_zero _ => Some (S754_zero false)
  | _ => Some price
  end.

(** The movie a form describes once it is stored under [i]. *)
Definition stored (i : Z) (m : movie_form) : movie :=
  {| id := i;
     title := f_title m;
     cinema_room := f_cinema_room m;
     release_date := Some (f_release_date m);
     end_date := Some (f_end_date m);
     tickets_available := f_tickets_available m;
     ticket_price := read_back (f_ticket_price m) |}.

(** A request carries the form [m]: its title and its dates are the
    strings of the form, and [int] and [float] convert its room, its
    count and its price to those of the form. *)
Definition carries (payload : pyval) (m : movie_form) : Prop :=
  subscript payload "title" = Ok (PStr (f_title m)) /\
  int_at payload "cinema_room" = Ok (f_cinema_room m) /\
  get payload "release_date" (PStr "") = Ok (PStr (f_release_date m)) /\
  get payload "end_date" (PStr "") = Ok (PStr (f_end_date m)) /\
  int_at payload "tickets_available" = Ok (f_tickets_available m) /\
  float_at payload "ticket_price" = Ok (f_ticket_price m).

(** A record of a listing shows the row [r]: it has the seven keys, in
    the order of the columns, each with the value of the row's column,
    [None] standing for NULL. *)
Definition displays (r : movie) (rec : pyval) : Prop :=
  keys rec = [ "id"; "title"; "cinema_room"; "release_date"; "end_date";
               "tickets_available"; "ticket_price" ] /\
  subscript rec "id" = Ok (PInt (id r)) /\
  subscript rec "title" = Ok (PStr (title r)) /\
  subscript rec "cinema_room" = Ok (PInt (cinema_room r)) /\
  subscript rec "release_date"
  = Ok (match release_date r with Some d => PStr d | None => PNone end) /\
  subscript rec "end_date"
  = Ok (match end_date r with Some d => PStr d | None => PNone end) /\
  subscript rec "tickets_available" = Ok (PInt (tickets_available r)) /\
  subscript rec "ticket_price"
  = Ok (match ticket_price r with Some p => PFloat p | None => PNone end).

(** The ids of the records a listing shows, in the order it shows them. *)
Definition listed_ids (resp : response) : list Z :=
  match resp with
  | Movies records =>
      flat_map (fun rec => match subscript rec "id" with
                           | Ok (PInt i) => [i]
                           | _ => []
                           end) records
  | _ => []
  end.

(** The store after a movie was inserted under the next id. *)
Definition with_movie (r : movie) (st : store) : store :=
  {| movies := movies st ++ [r];
     movies_seq := id r;
     sales := sales st;
     sales_seq := sales_seq st |}.

(** The store with another [movies] table. *)
Definition with_movies (rows : list movie) (st : store) : store :=
  {| movies := rows;
     movies_seq := movies_seq st;
     sales := sales st;
     sales_seq := sales_seq st |}.

(** The line terminator of the protocol. *)
Definition newline : string := String "010"%char EmptyString.

(** Six JSON values Python takes for false. *)
Definition falsy_documents : list pyval :=
  [ PDict []; PInt 0; PBool false; PNone; PStr ""; PList [] ].

Definition invalid_request : response :=
  Failed (Text "Invalid or empty request").

(** The record with exactly the fields of a form, under [i]. *)
Definition sent (i : Z) (m : movie_form) : pyval :=
  PDict [ ("id", PInt i);
          ("title", PStr (f_title m));
          ("cinema_room", PInt (f_cinema_room m));
          ("release_date", PStr (f_release_date m));
          ("end_date", PStr (f_end_date m));
          ("tickets_available", PInt (f_tickets_available m));
          ("ticket_price", PFloat (f_ticket_price m)) ].

(** The record a listing shows for a form stored under [i]: the fields
    of the form, the price as the column gives it back. *)
Definition shown (i : Z) (m : movie_form) : pyval :=
  PDict [ ("id", PInt i);
          ("title", PStr (f_title m));
          ("cinema_room", PInt (f_cinema_room m));
          ("release_date", PStr (f_release_date m));
          ("end_date", PStr (f_end_date m));
          ("tickets_available", PInt (f_tickets_available m));
          ("ticket_price", match read_back (f_ticket_price m) with
                           | Some p => PFloat p
                           | None => PNone
                           end) ].

(** What [list_movies] answers on a store. *)
Definition listing (st : store) : response := fst (list_movies st).

(** A form whose integers the database takes: they fit 64 bits. *)
Definition storable (m : movie_form) : Prop :=
  in_int64 (f_cinema_room m) = true /\
  in_int64 (f_tickets_available m) = true.

(** The responses of the connections that have answered. *)
Definition answers (conns : list selling) : list response :=
  flat_map (fun t => match t with Answered resp => [resp] | _ => [] end) conns.

End Statements.

(** ** Concrete stores and requests for the closed examples *)

Module Demo.
Import Tiny.

(** The database [init_db] leaves on first start. *)
Definition db : store :=
  match init_db empty_store with
  | Ok st => st
  | Raise _ => empty_store
  end.

Definition quiet : env :=
  {| sale_clock := "2025-06-01T10:00:00";
     receipt_clock := "20250601100000";
     fault := None |}.

(** The same, with the UPDATE of the sale made to fail. *)
Definition crash : env :=
  {| sale_clock := "2025-06-01T10:00:00";
     receipt_clock := "20250601100000";
     fault := Some AtDecrement |}.

(** Three sale requests for 60, 50 and 40 tickets. *)
Definition rush : list (env * string * Z) :=
  [ (quiet, "Ada", 60); (quiet, "Bob", 50); (quiet, "Cy", 40) ].

Definition premiere : movie_form :=
  {| f_title := "Premiere";
     f_cinema_room := 6;
     f_release_date := "2025-07-01";
     f_end_date := "2025-07-31";
     f_tickets_available := 80;
     f_ticket_price := float_lit 150 |}.

Definition rerun : movie_form :=
  {| f_title := "Rerun";
     f_cinema_room := 2;
     f_release_date := "2025-08-01";
     f_end_date := "";
     f_tickets_available := 40;
     f_ticket_price := float_lit 90 |}.

(** A form with a negative count and a negative price. *)
Definition owing : movie_form :=
  {| f_title := "Owing";
     f_cinema_room := 1;
     f_release_date := "";
     f_end_date := "";
     f_tickets_available := -5;
     f_ticket_price := float_lit (-5) |}.

(** A form whose price is the negative zero. *)
Definition free_entry : movie_form :=
  {| f_title := "Free entry";
     f_cinema_room := 3;
     f_release_date := "2025-09-01";
     f_end_date := "";
     f_tickets_available := 20;
     f_ticket_price := S754_zero true |}.

(** The database of the first start once [owing] was added: movie 6 has
    -5 tickets. *)
Definition overdrawn : store := snd (add_movie (add_payload owing) db).

(** The database of the first start once Ada bought 60 tickets of
    movie 1. *)
Definition after_ada : store :=
  snd (sell_tickets quiet (sell_payload 1 "Ada" 60) db).

(** Two connections that each ask for 60 of the 100 tickets of movie 1. *)
Definition two_buyers : list selling :=
  [ Arrived quiet (sell_payload 1 "Ada" 60);
    Arrived quiet (sell_payload 1 "Bob" 60) ].

(** 3.5 as a double. *)
Definition three_and_a_half : float :=
  S754_finite false 7881299347898368 (-51).

(** A request whose [cinema_room] is not an integer. *)
Definition between_rooms : pyval :=
  PDict [ ("action", PStr "add_movie");
          ("title", PStr "Between");
          ("cinema_room", PFloat three_and_a_half);
          ("tickets_available", PInt 10);
          ("ticket_price", PInt 100) ].

(** A request whose [cinema_room] is not a number. *)
Definition no_room : pyval :=
  PDict [ ("action", PStr "add_movie");
          ("title", PStr "Nowhere");
          ("cinema_room", PStr "six");
          ("tickets_available", PInt 10);
          ("ticket_price", PInt 100) ].

End Demo.

(** ** Connections in sequence, the ledger and the client's selection *)

Section Service.
Context `{Runtime}.

(** The bytes a peer sent before it closed, or before [recv] first
    returned [b""]. *)
Fixpoint received (chunks : list string) : string :=
  match chunks with
  | [] => EmptyString
  | chunk :: later =>
      if String.eqb chunk "" then EmptyString
      else (chunk ++ received later)%string
  end.

(** What [recv_json] returns once the buffer holds [buffer]. *)
Definition framed (data : string) : pyval :=
  match first_line data with
  | Some line => loads_or_none line
  | None => if String.eqb data "" then PNone else loads_or_none data
  end.

(** The store after the server handled the connections one after the
    other, each given as what the handler cannot decide and what the
    peer sends. *)
Fixpoint serve (conns : list (env * list string)) (st : store) : store :=
  match conns with
  | [] => st
  | (e, chunks) :: later => serve later (snd (client_thread e chunks st))
  end.

(** The store after a sequence of [sell_tickets] calls. *)
Fixpoint sell_through (reqs : list (env * pyval)) (st : store) : store :=
  match reqs with
  | [] => st
  | (e, payload) :: later => sell_through later (snd (sell_tickets e payload st))
  end.

(** The connections of a sequence of sale requests, none of them
    started. *)
Definition arrivals (reqs : list (env * pyval)) : list selling :=
  map (fun req => Arrived (fst req) (snd req)) reqs.

(** The schedule that serves [n] connections in turn: both steps of one
    before the first step of the next. *)
Definition in_turn (first n : nat) : list nat :=
  flat_map (fun k => [k; k]) (seq first n).

(** The stores the server can be in when sales overlap as well: a
    [reachable] store, followed by sale connections whose steps are
    scheduled in any order. *)
Definition in_service (st : store) : Prop :=
  exists st0 schedule reqs,
    reachable st0 /\ st = snd (interleave schedule (arrivals reqs) st0).

(** The tickets the ledger records for movie [m]. *)
Definition ledger_total (m : Z) (rows : list sale) : Z :=
  fold_right (fun s acc => (if movie_id s =? m then number_of_tickets s else 0) + acc)
    0 rows.

(** The action of a request, when it is a string. *)
Definition action_of (obj : pyval) : option string :=
  match get obj "action" PNone with
  | Ok (PStr a) => Some a
  | _ => None
  end.

(** The handler behind an answer of the dispatcher. *)
Inductive handled (e : env) (obj : pyval) (st : store)
  : string -> response * store -> Prop :=
| handled_list : handled e obj st "list_movies" (list_movies st)
| handled_add : handled e obj st "add_movie" (add_movie obj st)
| handled_update : handled e obj st "update_movie" (update_movie obj st)
| handled_delete : handled e obj st "delete_movie" (delete_movie obj st)
| handled_sell : handled e obj st "sell" (sell_tickets e obj st).

(** Every id of the table was handed out by the counter. *)
Definition counted (st : store) : Prop :=
  0 <= movies_seq st /\
  Forall (fun r => 0 < id r <= movies_seq st) (movies st).

(** The counter never goes back, and an id of the later table is an id
    of the earlier one or is above the earlier counter. *)
Definition later (st st' : store) : Prop :=
  movies_seq st <= movies_seq st' /\
  (forall i, In i (map id (movies st')) ->
             In i (map id (movies st)) \/ movies_seq st < i).

(** The actions whose handlers write to the database. *)
Definition writing_actions : list string :=
  [ "add_movie"; "update_movie"; "delete_movie"; "sell" ].

(** The keys [add_movie] subscripts; [update_movie] subscripts ["id"] as
    well. *)
Definition required_fields : list string :=
  [ "title"; "cinema_room"; "tickets_available"; "ticket_price" ].

End Service.

(** ** The client's movie selector *)

Module Gui.

(** Text processing the selector leaves to Python: [str(v)] of a float,
    a list or a dict, and [s.strip()]. *)
Class Display : Type := {
  str_other : pyval -> string;
  strip : string -> string
}.

Section Selector.
Context `{Runtime} `{Display}.

(** [str(v)], as an f-string formats a field. *)
Definition str (v : pyval) : string :=
  match v with
  | PNone => "None"
  | PBool true => "True"
  | PBool false => "False"
  | PInt z => str_of_int z
  | PStr s => s
  | _ => str_other v
  end.

(** An entry of [combo_items] in [refresh_movies]:
    [f'{m["id"]}: {m["title"]} (avail {m["tickets_available"]})']. *)
Definition combo_item (m : pyval) : result string :=
  (i <- subscript m "id";;
   t <- subscript m "title";;
   a <- subscript m "tickets_available";;
   Ok (str i ++ ": " ++ str t ++ " (avail " ++ str a ++ ")")%string)%py.

(** [sel.split(":")[0]]. *)
Fixpoint before_colon (sel : string) : string :=
  match sel with
  | EmptyString => EmptyString
  | String c rest =>
      if Ascii.eqb c ":"%char then EmptyString
      else String c (before_colon rest)
  end.

(** [int(sel.split(":")[0])], as [buy_tickets], [admin_update],
    [admin_delete] and [combo_changed] read the selected movie. *)
Definition selected_id (sel : string) : result Z :=
  int (PStr (before_colon sel)).

(** [buy_tickets], from the values of its three widgets to the request
    it sends; [None] when it returns without sending. *)
Definition buy_tickets (sel customer_name ticket_count : string) : option pyval :=
  if String.eqb sel "" then None
  else match (movie_id <- selected_id sel;;
              count <- int (PStr ticket_count);;
              Ok (sell_payload movie_id (strip customer_name) count))%py with
       | Ok payload => Some payload
       | Raise _ => None
       end.

End Selector.

End Gui.


(** ** Requests on the wire for the closed examples *)

Module Scenes.
Import Demo.

Definition quoted (s : string) : string :=
  (String "034"%char s ++ String "034"%char EmptyString)%string.

(** The line [buy_tickets] sends for two tickets of movie 1. *)
Definition sell_line : string :=
  ("{" ++ quoted "action" ++ ": " ++ quoted "sell" ++ ", "
   ++ quoted "movie_id" ++ ": 1, "
   ++ quoted "customer_name" ++ ": " ++ quoted "Ada" ++ ", "
   ++ quoted "number_of_tickets" ++ ": 2}")%string.

(** The line [admin_add] sends for [premiere]. *)
Definition add_line : string :=
  ("{" ++ quoted "action" ++ ": " ++ quoted "add_movie" ++ ", "
   ++ quoted "title" ++ ": " ++ quoted "Premiere" ++ ", "
   ++ quoted "cinema_room" ++ ": 6, "
   ++ quoted "release_date" ++ ": " ++ quoted "2025-07-01" ++ ", "
   ++ quoted "end_date" ++ ": " ++ quoted "2025-07-31" ++ ", "
   ++ quoted "tickets_available" ++ ": 80, "
   ++ quoted "ticket_price" ++ ": 150.0}")%string.

(** A run time that also decodes these two lines and the array [[1]]. *)
Definition read_json (s : string) : option pyval :=
  if String.eqb s sell_line then Some (sell_payload 1 "Ada" 2)
  else if String.eqb s add_line then Some (add_payload premiere)
  else if String.eqb s "[1]" then Some (PList [PInt 1])
  else Tiny.read_json s.

#[export] Instance runtime : Runtime := {
  int_of_str := Tiny.read_int;
  float_of_str := fun _ => None;
  text_of_real := fun _ => EmptyString;
  json_loads := read_json
}.

#[export] Instance display : Gui.Display := {
  Gui.str_other := fun _ => EmptyString;
  Gui.strip := fun s => s
}.

(** The database of the first start without its last movie. *)
Definition db_without_5 : store :=
  snd (delete_movie (delete_payload 5) Demo.db).

(** A form whose price is not a number. *)
Definition unpriced : movie_form :=
  {| f_title := "Unpriced";
     f_cinema_room := 1;
     f_release_date := "";
     f_end_date := "";
     f_tickets_available := 10;
     f_ticket_price := S754_nan |}.

(** A movie whose title has a colon. *)
Definition sequel : movie :=
  {| id := 7;
     title := "Alien: Covenant";
     cinema_room := 2;
     release_date := Some "2025-09-01";
     end_date := None;
     tickets_available := 30;
     ticket_price := Some (float_lit 140) |}.

(** The empty object cut into three chunks, with bytes after the line. *)
Definition cut_sale : list string :=
  [ "{"; "}"; (newline ++ "more")%string ].

End Scenes.

(** ** Proofs *)

(** *** Conversion of a 64-bit integer to a float never overflows *)

Lemma digits2_pos_succ p :
  Zpos (digits2_pos (Pos.succ p)) <= Zpos (digits2_pos p) + 1.
Proof.
  induction p as [p IH | p IH | ]; simpl; lia.
Qed.

Lemma Zdigits2_succ m : 0 <= m -> Zdigits2 (m + 1) <= Zdigits2 m + 1.
Proof.
  destruct m as [ | p | p ]; intros Hm; try lia.
  - simpl. lia.
  - replace (Zpos p + 1) with (Zpos (Pos.succ p)) by lia.
    simpl. apply digits2_pos_succ.
Qed.

Lemma digits2_pos_bound p : forall k, Zpos p < 2 ^ k -> Zpos (digits2_pos p) <= k.
Proof.
  induction p as [p IH | p IH | ]; intros k Hk.
  - assert (0 < k) by (destruct k; simpl in *; try lia).
    specialize (IH (k - 1)). replace k with (Z.succ (k - 1)) in Hk by lia.
    rewrite Z.pow_succ_r in Hk by lia. simpl. lia.
  - assert (0 < k) by (destruct k; simpl in *; try lia).
    specialize (IH (k - 1)). replace k with (Z.succ (k - 1)) in Hk by lia.
    rewrite Z.pow_succ_r in Hk by lia. simpl. lia.
  - destruct k; simpl in *; try lia.
Qed.

Lemma digits2_pos_iter_xO p d :
  Zpos (digits2_pos (Pos.iter xO p d)) = Zpos (digits2_pos p) + Zpos d.
Proof.
  induction d as [ | d IH ] using Pos.peano_ind.
  - simpl. lia.
  - rewrite Pos.iter_succ. simpl. lia.
Qed.

Lemma shr_1_digits mrs :
  0 <= shr_m mrs ->
  0 <= shr_m (shr_1 mrs) /\
  Zdigits2 (shr_m (shr_1 mrs)) <= Z.max 0 (Zdigits2 (shr_m mrs) - 1).
Proof.
  destruct mrs as [m r s]. cbn [shr_m]. intros Hm.
  destruct m as [ | [p | p | ] | p ];
    cbn [shr_1 shr_m Zdigits2 digits2_pos]; rewrite ?Pos2Z.inj_succ; lia.
Qed.

Lemma iter_shr_1_digits n : forall mrs,
  0 <= shr_m mrs ->
  0 <= shr_m (iter_pos shr_1 n mrs) /\
  Zdigits2 (shr_m (iter_pos shr_1 n mrs)) <= Z.max 0 (Zdigits2 (shr_m mrs) - Zpos n).
Proof.
  induction n as [n IH | n IH | ]; intros mrs Hm; simpl.
  - destruct (shr_1_digits mrs Hm) as [H1 H2].
    destruct (IH _ H1) as [H3 H4]. destruct (IH _ H3) as [H5 H6].
    split; [assumption | lia].
  - destruct (IH _ Hm) as [H3 H4]. destruct (IH _ H3) as [H5 H6].
    split; [assumption | lia].
  - apply shr_1_digits; assumption.
Qed.

Lemma shr_record_of_loc_m m l : shr_m (shr_record_of_loc m l) = m.
Proof. destruct l as [ | [ | | ] ]; reflexivity. Qed.

(** The exponent and the size of what [shr_fexp] returns. *)
Lemma shr_fexp_bound m e l mrs' e' :
  0 <= m ->
  shr_fexp prec emax m e l = (mrs', e') ->
  0 <= shr_m mrs' /\
  e' <= Z.max e (fexp prec emax (Zdigits2 m + e)) /\
  Zdigits2 (shr_m mrs') + e' <= Z.max (Zdigits2 m + e) e'.
Proof.
  intros Hm. unfold shr_fexp, shr.
  pose proof (shr_record_of_loc_m m l) as Hrec.
  destruct (fexp prec emax (Zdigits2 m + e) - e) as [ | n | n ] eqn:Hn;
    intros Heq; inversion Heq; subst; clear Heq.
  - rewrite Hrec. repeat split; lia.
  - assert (Hm' : 0 <= shr_m (shr_record_of_loc m l)) by (rewrite Hrec; exact Hm).
    destruct (iter_shr_1_digits n _ Hm') as [H1 H2]. rewrite Hrec in H2.
    repeat split; try assumption; lia.
  - rewrite Hrec. repeat split; lia.
Qed.

Lemma round_nearest_even_bound m l :
  0 <= m -> 0 <= round_nearest_even m l /\
  Zdigits2 (round_nearest_even m l) <= Zdigits2 m + 1.
Proof.
  intros Hm. pose proof (Zdigits2_succ m Hm).
  unfold round_nearest_even.
  destruct l as [ | [ | | ] ]; try destruct (Z.even m); split; lia.
Qed.

Lemma binary_round_aux_finite s m e l :
  0 <= m -> e <= 0 -> Zdigits2 m + e <= 64 ->
  forall s', binary_round_aux prec emax s m e l <> S754_infinity s'.
Proof.
  intros Hm He Hd s'. unfold binary_round_aux.
  destruct (shr_fexp prec emax m e l) as [mrs' e'] eqn:H1.
  destruct (shr_fexp_bound _ _ _ _ _ Hm H1) as (Hm' & He' & Hd').
  destruct (round_nearest_even_bound (shr_m mrs') (loc_of_shr_record mrs') Hm')
    as (Hr & Hrd).
  destruct (shr_fexp prec emax _ e' loc_Exact) as [mrs'' e''] eqn:H2.
  destruct (shr_fexp_bound _ _ _ _ _ Hr H2) as (Hm'' & He'' & Hd'').
  unfold fexp, emin, prec, emax in *.
  destruct (shr_m mrs''); try discriminate.
  destruct (e'' <=? 1024 - 53) eqn:Hle; try discriminate.
  apply Z.leb_gt in Hle. lia.
Qed.

Lemma binary_round_finite s p :
  Zpos p <= 2 ^ 63 ->
  forall s', binary_round prec emax s p 0 <> S754_infinity s'.
Proof.
  intros Hp s'. unfold binary_round.
  assert (Hdig : Zpos (digits2_pos p) <= 64).
  { apply digits2_pos_bound. change (2 ^ 64) with (2 * 2 ^ 63). lia. }
  destruct (shl_align p 0 _) as [mz ez] eqn:Hsh.
  unfold shl_align in Hsh.
  destruct (fexp prec emax (Zpos (digits2_pos p) + 0) - 0) as [ | d | d ] eqn:Hd;
    inversion Hsh; subst; clear Hsh;
    apply binary_round_aux_finite; cbn [Zdigits2]; try lia.
  all: rewrite ?digits2_pos_iter_xO; unfold fexp, emin, prec, emax in *; try lia.
Qed.

Lemma float_of_int_int64 z :
  in_int64 z = true -> float_of_int z = Ok (float_lit z).
Proof.
  unfold in_int64, int64_min, int64_max. intros Hz.
  apply andb_true_iff in Hz. destruct Hz as [Hlo Hhi].
  apply Z.leb_le in Hlo. apply Z.leb_le in Hhi.
  unfold float_of_int, float_lit.
  destruct z as [ | p | p ]; try reflexivity; unfold binary_normalize.
  - pose proof (binary_round_finite false p) as Hfin.
    destruct (binary_round prec emax false p 0); try reflexivity.
    exfalso. eapply Hfin; [ | reflexivity ]. change (2 ^ 63) with 9223372036854775808. lia.
  - pose proof (binary_round_finite true p) as Hfin.
    destruct (binary_round prec emax true p 0); try reflexivity.
    exfalso. eapply Hfin; [ | reflexivity ]. change (2 ^ 63) with 9223372036854775808. lia.
Qed.

(** *** The error monad *)

Lemma bind_ok {A B} (r : result A) (k : A -> result B) b :
  bind r k = Ok b -> exists a, r = Ok a /\ k a = Ok b.
Proof.
  destruct r as [a | e]; simpl; intros Hb; [ | discriminate ].
  exists a. split; [reflexivity | assumption].
Qed.

Lemma bind_int_ok z z' : bind_int z = Ok z' -> z' = z /\ in_int64 z = true.
Proof.
  unfold bind_int. destruct (in_int64 z); intros Hz; inversion Hz; auto.
Qed.

Lemma bind_int_in z : in_int64 z = true -> bind_int z = Ok z.
Proof. unfold bind_int. intros ->. reflexivity. Qed.

Ltac inv_bind H :=
  let a := fresh "a" in
  let Ha := fresh "Ha" in
  apply bind_ok in H; destruct H as (a & Ha & H).

(** *** Rows and lookups *)

Section Rows.
Context `{Runtime}.

Lemma find_map_keep (f : movie -> movie) i rows :
  (forall r, id (f r) = id r) ->
  find (fun r => id r =? i) (map f rows)
  = option_map f (find (fun r => id r =? i) rows).
Proof.
  intros Hf. induction rows as [ | r rows IH ]; simpl; [reflexivity | ].
  rewrite Hf. destruct (id r =? i); [reflexivity | exact IH].
Qed.

Lemma find_none_absent i rows :
  find (fun r => id r =? i) rows = None <-> ~ In i (map id rows).
Proof.
  induction rows as [ | r rows IH ]; simpl.
  - split; auto.
  - destruct (id r =? i) eqn:Hi.
    + apply Z.eqb_eq in Hi. split; [discriminate | ]. intros Hn. exfalso. auto.
    + apply Z.eqb_neq in Hi. rewrite IH. split; intros Hn; [ | tauto ].
      intros [Hr | Hr]; [congruence | tauto].
Qed.

Lemma rowcount_absent i rows :
  rowcount i rows = O <-> ~ In i (map id rows).
Proof.
  unfold rowcount. induction rows as [ | r rows IH ]; simpl.
  - split; auto.
  - destruct (id r =? i) eqn:Hi; simpl.
    + apply Z.eqb_eq in Hi. split; [discriminate | ]. intros Hn. exfalso. auto.
    + apply Z.eqb_neq in Hi. rewrite IH. split; intros Hn; [ | tauto ].
      intros [Hr | Hr]; [congruence | tauto].
Qed.

Lemma filter_absent i rows :
  ~ In i (map id rows) -> filter (fun r => negb (id r =? i)) rows = rows.
Proof.
  induction rows as [ | r rows IH ]; simpl; intros Hn; [reflexivity | ].
  destruct (id r =? i) eqn:Hi; simpl.
  - apply Z.eqb_eq in Hi. exfalso. auto.
  - f_equal. apply IH. tauto.
Qed.

Lemma map_absent (f : movie -> movie) i rows :
  ~ In i (map id rows) ->
  map (fun r => if id r =? i then f r else r) rows = rows.
Proof.
  induction rows as [ | r rows IH ]; simpl; intros Hn; [reflexivity | ].
  destruct (id r =? i) eqn:Hi.
  - apply Z.eqb_eq in Hi. exfalso. auto.
  - f_equal. apply IH. tauto.
Qed.

Lemma max_rowid_bound {A} (rowid : A -> Z) rows :
  0 <= max_rowid rowid rows /\
  Forall (fun r => rowid r <= max_rowid rowid rows) rows.
Proof.
  induction rows as [ | r rows [IH0 IH] ]; simpl.
  - split; [lia | constructor].
  - split; [lia | ]. constructor; [lia | ].
    eapply Forall_impl; [ | exact IH ]. simpl. intros; lia.
Qed.

Lemma next_rowid_fresh {A} (rowid : A -> Z) rows seq :
  seq < next_rowid rowid rows seq /\
  Forall (fun r => rowid r < next_rowid rowid rows seq) rows.
Proof.
  unfold next_rowid. destruct (max_rowid_bound rowid rows) as [H0 Hall].
  split; [lia | ]. eapply Forall_impl; [ | exact Hall ]. simpl. intros; lia.
Qed.

End Rows.

(** *** The sale transaction *)

Section Sale.
Context `{Runtime}.

Lemma keyed_unique rows r r' :
  StronglySorted Z.lt (map id rows) ->
  In r rows -> In r' rows -> id r = id r' -> r = r'.
Proof.
  induction rows as [ | x rows IH ]; simpl; intros Hs Hr Hr' Hid; [tauto | ].
  inversion Hs as [ | ? ? Hs' Hall ]; subst.
  rewrite Forall_forall in Hall.
  destruct Hr as [-> | Hr], Hr' as [-> | Hr']; auto.
  - assert (id r < id r') by (apply Hall, in_map, Hr'). lia.
  - assert (id r' < id r) by (apply Hall, in_map, Hr). lia.
Qed.

Lemma movies_after_sale n m name k tot time st :
  movies (decrement_tickets n m (insert_sale m name k tot time st))
  = map (fun r => if id r =? m then take n r else r) (movies st).
Proof. reflexivity. Qed.

Lemma ids_after_sale n m name k tot time st :
  map id (movies (decrement_tickets n m (insert_sale m name k tot time st)))
  = map id (movies st).
Proof.
  rewrite movies_after_sale, map_map. apply map_ext.
  intros r. destruct (id r =? m); reflexivity.
Qed.

Lemma select_after_sale m' n m name k tot time st :
  select_movie m' (decrement_tickets n m (insert_sale m name k tot time st))
  = match select_movie m' st with
    | Some (a, p, t) => Some (if m' =? m then a - n else a, p, t)
    | None => None
    end.
Proof.
  unfold select_movie. rewrite movies_after_sale.
  rewrite find_map_keep by (intros r; destruct (id r =? m); reflexivity).
  destruct (find _ (movies st)) as [r | ] eqn:Hf; simpl; [ | reflexivity ].
  apply find_some in Hf. destruct Hf as [_ Hid]. apply Z.eqb_eq in Hid.
  rewrite Hid. destruct (m' =? m); reflexivity.
Qed.

Lemma available_after_sale m' n m name k tot time st :
  available m' (decrement_tickets n m (insert_sale m name k tot time st))
  = match available m' st with
    | Some a => Some (if m' =? m then a - n else a)
    | None => None
    end.
Proof.
  unfold available. rewrite select_after_sale.
  destruct (select_movie m' st) as [[[a p] t] | ]; reflexivity.
Qed.

Lemma select_movie_in m st a p t :
  select_movie m st = Some (a, p, t) ->
  exists r, In r (movies st) /\ id r = m /\ tickets_available r = a.
Proof.
  unfold select_movie. destruct (find _ (movies st)) as [r | ] eqn:Hf;
    [ | discriminate ].
  intros Heq. inversion Heq; subst. apply find_some in Hf.
  destruct Hf as [Hin Hid]. apply Z.eqb_eq in Hid. eauto.
Qed.

Lemma nonneg_after_sale n m name k tot time st a p t :
  keyed st -> nonneg st ->
  select_movie m st = Some (a, p, t) -> n <= a ->
  nonneg (decrement_tickets n m (insert_sale m name k tot time st)).
Proof.
  unfold keyed, nonneg. intros Hk Hn Hsel Hle.
  destruct (select_movie_in _ _ _ _ _ Hsel) as (r0 & Hin0 & Hid0 & Ha).
  rewrite movies_after_sale. rewrite Forall_forall in *.
  intros r' Hr'. apply in_map_iff in Hr'. destruct Hr' as (r & <- & Hr).
  destruct (id r =? m) eqn:Hid; [ | auto ].
  apply Z.eqb_eq in Hid.
  assert (r = r0) by (apply (keyed_unique (movies st)); auto; congruence).
  subst r. simpl. lia.
Qed.

Lemma keyed_after_sale n m name k tot time st :
  keyed st -> keyed (decrement_tickets n m (insert_sale m name k tot time st)).
Proof. unfold keyed. rewrite ids_after_sale. auto. Qed.

(** The steps of a call that runs without interruption, in order. *)
Lemma sell_transaction_steps e payload st :
  sell_transaction e payload st =
  (mid <- int_at payload "movie_id";;
   name <- subscript payload "customer_name";;
   requested <- int_at payload "number_of_tickets";;
   if requested <=? 0
   then Ok (inl (Failed (Text "Requested tickets must be > 0")))
   else
     mid' <- bind_int mid;;
     match select_movie mid' st with
     | None => Ok (inl (Failed (Text "Movie not found")))
     | Some (available, price, t) =>
         if requested >? available
         then Ok (inl (Failed (Text (not_enough available))))
         else
           tot <- times requested price;;
           name' <- bind_param name;;
           requested' <- bind_int requested;;
           _ <- run_step e AtInsertSale;;
           let tx := insert_sale mid' name' requested' (bind_float tot)
                       (sale_clock e) st in
           _ <- run_step e AtDecrement;;
           let tx := decrement_tickets requested' mid' tx in
           _ <- run_step e AtCommit;;
           Ok (inr (tx, (mid, t, name, requested, tot)))
     end)%py.
Proof.
  unfold sell_transaction, sell_check, sell_write.
  destruct (int_at payload "movie_id") as [mid | ex]; cbn [bind]; [ | reflexivity ].
  destruct (subscript payload "customer_name") as [name | ex]; cbn [bind];
    [ | reflexivity ].
  destruct (int_at payload "number_of_tickets") as [requested | ex]; cbn [bind];
    [ | reflexivity ].
  destruct (requested <=? 0); [reflexivity | ].
  destruct (bind_int mid) as [mid' | ex] eqn:Hmid; cbn [bind]; [ | reflexivity ].
  destruct (select_movie mid' st) as [[[a price] t] | ]; [ | reflexivity ].
  destruct (requested >? a); [reflexivity | ].
  destruct (times requested price) as [tot | ex]; cbn [bind]; [ | reflexivity ].
  rewrite Hmid. cbn [bind].
  destruct (bind_param name) as [name' | ex]; cbn [bind]; [ | reflexivity ].
  destruct (bind_int requested) as [requested' | ex]; cbn [bind]; [ | reflexivity ].
  destruct (run_step e AtInsertSale); cbn [bind]; [ | reflexivity ].
  destruct (run_step e AtDecrement); cbn [bind]; [ | reflexivity ].
  destruct (run_step e AtCommit); cbn [bind]; reflexivity.
Qed.

(** What a committed transaction went through. *)
Lemma sell_transaction_commit e payload st st' mid t name n tot :
  sell_transaction e payload st = Ok (inr (st', (mid, t, name, n, tot))) ->
  int_at payload "movie_id" = Ok mid /\
  subscript payload "customer_name" = Ok name /\
  int_at payload "number_of_tickets" = Ok n /\
  0 < n /\
  exists a price name',
    select_movie mid st = Some (a, price, t) /\ n <= a /\
    times n price = Ok tot /\ bind_param name = Ok name' /\
    fault e <> Some AtInsertSale /\ fault e <> Some AtDecrement /\
    fault e <> Some AtCommit /\
    st' = decrement_tickets n mid
            (insert_sale mid name' n (bind_float tot) (sale_clock e) st).
Proof.
  rewrite sell_transaction_steps. intros Hs.
  inv_bind Hs. inv_bind Hs. inv_bind Hs.
  destruct (a1 <=? 0) eqn:Hpos; [discriminate | ]. apply Z.leb_gt in Hpos.
  inv_bind Hs. apply bind_int_ok in Ha2. destruct Ha2 as [-> _].
  destruct (select_movie a st) as [[[av price] t'] | ] eqn:Hsel; [ | discriminate ].
  destruct (a1 >? av) eqn:Hgt; [discriminate | ].
  rewrite Z.gtb_ltb in Hgt. apply Z.ltb_ge in Hgt.
  inv_bind Hs. inv_bind Hs. inv_bind Hs.
  apply bind_int_ok in Ha4. destruct Ha4 as [-> _].
  inv_bind Hs. inv_bind Hs. inv_bind Hs.
  inversion Hs; subst; clear Hs.
  unfold run_step, fails in *.
  repeat split; auto.
  exists av, price, a3. repeat split; auto.
  - destruct (fault e) as [[ | | | ] | ]; congruence.
  - destruct (fault e) as [[ | | | ] | ]; congruence.
  - destruct (fault e) as [[ | | | ] | ]; congruence.
Qed.

(** What an early return says. *)
Lemma sell_transaction_refusal e payload st resp :
  sell_transaction e payload st = Ok (inl resp) ->
  exists text, resp = Failed (Text text).
Proof.
  rewrite sell_transaction_steps. intros Hs.
  inv_bind Hs. inv_bind Hs. inv_bind Hs.
  destruct (a1 <=? 0); [inversion Hs; eauto | ].
  inv_bind Hs.
  destruct (select_movie a2 st) as [[[av price] t'] | ]; [ | inversion Hs; eauto ].
  destruct (a1 >? av); [inversion Hs; eauto | ].
  inv_bind Hs. inv_bind Hs. inv_bind Hs. inv_bind Hs. inv_bind Hs. inv_bind Hs.
  discriminate.
Qed.

(** The two ways [sell_tickets] can end: nothing committed and an error
    response, or the transaction committed; after the commit only the
    receipt can still fail. *)
Lemma sell_tickets_cases e payload st :
  (snd (sell_tickets e payload st) = st /\
   exists msg, fst (sell_tickets e payload st) = Failed msg) \/
  (exists st' mid t name n tot,
     sell_transaction e payload st = Ok (inr (st', (mid, t, name, n, tot))) /\
     snd (sell_tickets e payload st) = st' /\
     ((fault e <> Some AtReceipt /\
       fst (sell_tickets e payload st)
       = Sold "Tickets sold" (sale_record mid t name n tot) (receipt_name e mid))
      \/ (fault e = Some AtReceipt /\
          fst (sell_tickets e payload st) = Failed (Str OSError)))).
Proof.
  unfold sell_tickets, sell_finish.
  destruct (sell_transaction e payload st) as [[resp | [st' [[[[mid t] name] n] tot]]] | ex]
    eqn:Hs.
  - left. simpl. split; [reflexivity | ].
    destruct (sell_transaction_refusal _ _ _ _ Hs) as [text ->]. eauto.
  - right. exists st', mid, t, name, n, tot. split; [reflexivity | ].
    unfold run_step, fails.
    destruct (fault e) as [[ | | | ] | ]; simpl;
      (split; [reflexivity | ]);
      solve [ left; split; [discriminate | reflexivity]
            | right; split; reflexivity ].
  - left. simpl. eauto.
Qed.

Lemma sell_tickets_keyed e payload st :
  keyed st -> keyed (snd (sell_tickets e payload st)).
Proof.
  intros Hk. destruct (sell_tickets_cases e payload st)
    as [[-> _] | (st' & mid & t & name & n & tot & Hs & -> & _)]; [exact Hk | ].
  apply sell_transaction_commit in Hs.
  destruct Hs as (_ & _ & _ & _ & a & price & name' & _ & _ & _ & _ & _ & _ & _ & ->).
  apply keyed_after_sale, Hk.
Qed.

Lemma sell_tickets_nonneg e payload st :
  keyed st -> nonneg st -> nonneg (snd (sell_tickets e payload st)).
Proof.
  intros Hk Hn. destruct (sell_tickets_cases e payload st)
    as [[-> _] | (st' & mid & t & name & n & tot & Hs & -> & _)]; [exact Hn | ].
  apply sell_transaction_commit in Hs.
  destruct Hs as (_ & _ & _ & _ & a & price & name' & Hsel & Hle & _ & _ & _ & _ & _ & ->).
  eapply nonneg_after_sale; eauto.
Qed.

(** A well-formed request, step by step. *)
Lemma sell_tickets_fields e payload st mid name n :
  int_at payload "movie_id" = Ok mid ->
  subscript payload "customer_name" = Ok name ->
  int_at payload "number_of_tickets" = Ok n ->
  sell_transaction e payload st =
    if n <=? 0
    then Ok (inl (Failed (Text "Requested tickets must be > 0")))
    else
      (mid' <- bind_int mid;;
       match select_movie mid' st with
       | None => Ok (inl (Failed (Text "Movie not found")))
       | Some (available, price, t) =>
           if n >? available
           then Ok (inl (Failed (Text (not_enough available))))
           else
             tot <- times n price;;
             name' <- bind_param name;;
             n' <- bind_int n;;
             _ <- run_step e AtInsertSale;;
             _ <- run_step e AtDecrement;;
             _ <- run_step e AtCommit;;
             Ok (inr (decrement_tickets n' mid'
                        (insert_sale mid' name' n' (bind_float tot)
                           (sale_clock e) st),
                      (mid, t, name, n, tot)))
       end)%py.
Proof.
  intros Hm Hname Hn. rewrite sell_transaction_steps, Hm, Hname, Hn. reflexivity.
Qed.

(** What the check established when it lets a sale through. *)
Lemma sell_check_passed payload st mid t name n tot :
  sell_check payload st = Ok (inr (mid, t, name, n, tot)) ->
  int_at payload "movie_id" = Ok mid /\
  subscript payload "customer_name" = Ok name /\
  int_at payload "number_of_tickets" = Ok n /\
  0 < n /\ in_int64 mid = true /\
  exists a price,
    select_movie mid st = Some (a, price, t) /\ n <= a /\
    times n price = Ok tot.
Proof.
  unfold sell_check. intros Hs.
  inv_bind Hs. inv_bind Hs. inv_bind Hs.
  destruct (a1 <=? 0) eqn:Hpos; [discriminate | ]. apply Z.leb_gt in Hpos.
  inv_bind Hs. apply bind_int_ok in Ha2. destruct Ha2 as [-> Hmid].
  destruct (select_movie a st) as [[[av price] t'] | ] eqn:Hsel; [ | discriminate ].
  destruct (a1 >? av) eqn:Hgt; [discriminate | ].
  rewrite Z.gtb_ltb in Hgt. apply Z.ltb_ge in Hgt.
  inv_bind Hs. inversion Hs; subst; clear Hs.
  repeat split; auto. exists av, price. auto.
Qed.

(** What a committed transaction wrote. *)
Lemma sell_write_done e mid t name n tot st st' :
  sell_write e (mid, t, name, n, tot) st = Ok st' ->
  in_int64 mid = true /\ in_int64 n = true /\
  exists name',
    bind_param name = Ok name' /\
    st' = decrement_tickets n mid
            (insert_sale mid name' n (bind_float tot) (sale_clock e) st).
Proof.
  unfold sell_write. intros Hs.
  destruct (bind_int mid) as [mid' | ] eqn:Hmid; [ | discriminate ].
  apply bind_int_ok in Hmid. destruct Hmid as [-> Hmid]. cbn [bind] in Hs.
  destruct (bind_param name) as [name' | ] eqn:Hname; [ | discriminate ].
  cbn [bind] in Hs.
  destruct (bind_int n) as [n' | ] eqn:Hn; [ | discriminate ].
  apply bind_int_ok in Hn. destruct Hn as [-> Hn]. cbn [bind] in Hs.
  inv_bind Hs. inv_bind Hs. inv_bind Hs.
  inversion Hs; subst; clear Hs. eauto.
Qed.

(** The transaction keeps the counts non-negative when the row it
    decrements still covers the request, and when the row is gone. *)
Lemma nonneg_after_write n m name k tot time st :
  keyed st -> nonneg st ->
  (forall a, available m st = Some a -> n <= a) ->
  nonneg (decrement_tickets n m (insert_sale m name k tot time st)).
Proof.
  intros Hk Hn Hcover.
  destruct (select_movie m st) as [[[a p] t] | ] eqn:Hsel.
  - apply (nonneg_after_sale n m name k tot time st a p t Hk Hn Hsel).
    apply Hcover. unfold available. rewrite Hsel. reflexivity.
  - unfold nonneg. rewrite movies_after_sale.
    rewrite map_absent; [exact Hn | ].
    apply find_none_absent. unfold select_movie in Hsel.
    destruct (find (fun r => id r =? m) (movies st)); [discriminate | reflexivity].
Qed.

(** A count that is not positive is refused before the database is
    looked at. *)
Lemma sell_tickets_invalid e payload st mid name n :
  int_at payload "movie_id" = Ok mid ->
  subscript payload "customer_name" = Ok name ->
  int_at payload "number_of_tickets" = Ok n -> n <= 0 ->
  sell_tickets e payload st
  = (Failed (Text "Requested tickets must be > 0"), st).
Proof.
  intros Hm Hname Hn Hle. unfold sell_tickets, sell_finish.
  rewrite (sell_tickets_fields e _ st _ _ _ Hm Hname Hn).
  replace (n <=? 0) with true by (symmetry; apply Z.leb_le; exact Hle).
  reflexivity.
Qed.

End Sale.

(** *** Sales in sequence *)

Section Sequences.
Context `{Runtime}.

Lemma sell_all_nonneg reqs : forall st,
  keyed st -> nonneg st ->
  Forall (fun out => nonneg (snd out)) (sell_all reqs st).
Proof.
  induction reqs as [ | [e payload] later IH ]; intros st Hk Hn; simpl.
  - constructor.
  - constructor.
    + apply sell_tickets_nonneg; assumption.
    + apply IH; [apply sell_tickets_keyed | apply sell_tickets_nonneg]; assumption.
Qed.

Lemma sold_failed m msg : sold m (Failed msg) = 0.
Proof. reflexivity. Qed.

Lemma sold_record m mid t name n tot msg receipt :
  sold m (Sold msg (sale_record mid t name n tot) receipt)
  = if mid =? m then n else 0.
Proof. reflexivity. Qed.

Lemma sell_accepted e payload st :
  status (fst (sell_tickets e payload st)) = "ok" ->
  exists m n a,
    int_at payload "movie_id" = Ok m /\
    int_at payload "number_of_tickets" = Ok n /\
    available m st = Some a /\ 0 < n /\ n <= a /\
    available m (snd (sell_tickets e payload st)) = Some (a - n).
Proof.
  intros Hok. destruct (sell_tickets_cases e payload st)
    as [[_ [msg Hmsg]] | (st' & mid & t & name & n & tot & Hs & Hst & Hresp)].
  - rewrite Hmsg in Hok. discriminate.
  - apply sell_transaction_commit in Hs.
    destruct Hs as (Hm & _ & Hn & Hpos & a & price & name' & Hsel & Hle & _ & _ & _ & _ & _ & ->).
    exists mid, n, a. rewrite Hst, available_after_sale. unfold available.
    rewrite Hsel, Z.eqb_refl. auto 10.
Qed.

Lemma total_sold_bound m reqs : forall st a,
  available m st = Some a -> 0 <= a ->
  total_sold m (sell_all reqs st) <= a.
Proof.
  induction reqs as [ | [e payload] later IH ]; intros st a Ha Hpos; simpl.
  - exact Hpos.
  - destruct (sell_tickets_cases e payload st)
      as [[Hst [msg Hmsg]] | (st' & mid & t & name & n & tot & Hs & Hst & Hresp)].
    + rewrite Hst, Hmsg, sold_failed. specialize (IH st a Ha Hpos). lia.
    + apply sell_transaction_commit in Hs.
      destruct Hs as (_ & _ & _ & Hn & a' & price & name' & Hsel & Hle & _ & _ & _ & _ & _ & Hst').
      rewrite Hst. clear Hst. subst st'.
      pose proof (available_after_sale m n mid name' n (bind_float tot) (sale_clock e) st)
        as Hav.
      rewrite Ha in Hav.
      destruct (m =? mid) eqn:Hmid.
      * apply Z.eqb_eq in Hmid. subst mid.
        assert (a' = a).
        { unfold available in Ha. rewrite Hsel in Ha. congruence. }
        subst a'. assert (Hrest : 0 <= a - n) by lia.
        specialize (IH _ _ Hav Hrest).
        destruct Hresp as [[_ ->] | [_ ->]];
          rewrite ?sold_record, ?sold_failed, ?Z.eqb_refl; lia.
      * specialize (IH _ _ Hav Hpos).
        destruct Hresp as [[_ ->] | [_ ->]]; rewrite ?sold_record, ?sold_failed.
        -- rewrite Z.eqb_sym, Hmid. lia.
        -- lia.
Qed.

Lemma in_int64_between a k :
  in_int64 a = true -> 0 < k -> k <= a ->
  in_int64 k = true /\ in_int64 (a - k) = true.
Proof.
  unfold in_int64, int64_min, int64_max. intros Ha Hk Hle.
  apply andb_true_iff in Ha. destruct Ha as [Hlo Hhi].
  apply Z.leb_le in Hlo. apply Z.leb_le in Hhi.
  split; apply andb_true_iff; split; apply Z.leb_le; lia.
Qed.

Lemma run_step_quiet e s : fault e = None -> run_step e s = Ok tt.
Proof. unfold run_step, fails. intros ->. reflexivity. Qed.

Lemma int_at_sell_payload m name k :
  int_at (sell_payload m name k) "movie_id" = Ok m /\
  subscript (sell_payload m name k) "customer_name" = Ok (PStr name) /\
  int_at (sell_payload m name k) "number_of_tickets" = Ok k.
Proof. repeat split. Qed.

(** One of the client's sale requests in normal operation. *)
Lemma sell_tickets_normal e m name k st a price t :
  select_movie m st = Some (a, Some price, t) ->
  in_int64 m = true -> in_int64 a = true ->
  fault e = None -> 0 < k ->
  sell_tickets e (sell_payload m name k) st =
    if k <=? a
    then (Sold "Tickets sold"
            (sale_record m t (PStr name) k (float_mul (float_lit k) price))
            (receipt_name e m),
          decrement_tickets k m
            (insert_sale m (SText name) k
               (bind_float (float_mul (float_lit k) price)) (sale_clock e) st))
    else (Failed (Text (not_enough a)), st).
Proof.
  intros Hsel Hm Ha Hq Hk.
  destruct (int_at_sell_payload m name k) as (F1 & F2 & F3).
  unfold sell_tickets, sell_finish.
  rewrite (sell_tickets_fields e _ st _ _ _ F1 F2 F3).
  destruct (k <=? 0) eqn:Hk0; [apply Z.leb_le in Hk0; lia | ].
  rewrite (bind_int_in m Hm). cbn [bind]. rewrite Hsel.
  rewrite Z.gtb_ltb. destruct (k <=? a) eqn:Hka.
  - apply Z.leb_le in Hka.
    destruct (in_int64_between a k Ha Hk Hka) as [Hk64 Hrest].
    replace (a <? k) with false by (symmetry; apply Z.ltb_ge; lia).
    unfold times. rewrite (float_of_int_int64 k Hk64). cbn [bind bind_param].
    rewrite (bind_int_in k Hk64). cbn [bind].
    rewrite !run_step_quiet by assumption. reflexivity.
  - apply Z.leb_gt in Hka.
    replace (a <? k) with true by (symmetry; apply Z.ltb_lt; lia).
    reflexivity.
Qed.

(** Normal operation on the client's sale requests follows [serial]. *)
Lemma sell_all_serial m t price reqs : forall st a,
  select_movie m st = Some (a, Some price, t) ->
  in_int64 m = true -> in_int64 a = true ->
  Forall (fun req => fault (fst (fst req)) = None) reqs ->
  map fst (sell_all (map (wire m) reqs) st) = serial m t price a reqs.
Proof.
  induction reqs as [ | [[e name] k] later IH ]; intros st a Hsel Hm Ha Hall;
    [reflexivity | ].
  inversion Hall as [ | ? ? Hq Hall' ]; subst. simpl in Hq.
  cbn [map wire sell_all serial].
  destruct (int_at_sell_payload m name k) as (F1 & F2 & F3).
  destruct (k <=? 0) eqn:Hk0.
  - apply Z.leb_le in Hk0.
    rewrite (sell_tickets_invalid e _ st _ _ _ F1 F2 F3 Hk0).
    cbn [fst snd]. f_equal. apply IH; assumption.
  - apply Z.leb_gt in Hk0.
    rewrite (sell_tickets_normal e m name k st a price t Hsel Hm Ha Hq Hk0).
    destruct (k <=? a) eqn:Hka; cbn [fst snd]; f_equal.
    + apply Z.leb_le in Hka.
      destruct (in_int64_between a k Ha Hk0 Hka) as [Hk64 Hrest].
      apply IH; try assumption.
      rewrite select_after_sale, Hsel, Z.eqb_refl. reflexivity.
    + apply IH; assumption.
Qed.

(** Both steps of a connection, run on the same database, are one call
    of [sell_tickets]. *)
Lemma advance_in_turn e payload st :
  snd (advance (Arrived e payload) st) = st /\
  advance (fst (advance (Arrived e payload) st)) st
  = (Answered (fst (sell_tickets e payload st)),
     snd (sell_tickets e payload st)).
Proof.
  unfold sell_tickets, sell_transaction. cbn [advance].
  destruct (sell_check payload st) as [[resp | sale] | ex];
    cbn [bind fst snd advance sell_finish]; split; reflexivity.
Qed.

Lemma nth_error_middle {A} (before : list A) x rest :
  nth_error (before ++ x :: rest) (List.length before) = Some x.
Proof. induction before as [ | y before IH ]; simpl; [reflexivity | exact IH]. Qed.

Lemma set_nth_middle {A} (before : list A) x y rest :
  set_nth (List.length before) y (before ++ x :: rest) = (before ++ y :: rest)%list.
Proof.
  induction before as [ | z before IH ]; simpl; [reflexivity | ].
  rewrite IH. reflexivity.
Qed.

(** Connections served in turn are calls of [sell_tickets] in
    sequence. *)
Lemma interleave_in_turn reqs : forall before st,
  interleave (in_turn (List.length before) (List.length reqs))
    (before ++ arrivals reqs) st
  = ((before ++ map (fun out => Answered (fst out)) (sell_all reqs st))%list,
     sell_through reqs st).
Proof.
  induction reqs as [ | [e payload] later IH ]; intros before st; [reflexivity | ].
  destruct (advance_in_turn e payload st) as [Hst Hnext].
  specialize (IH (before ++ [Answered (fst (sell_tickets e payload st))])%list
                (snd (sell_tickets e payload st))).
  rewrite length_app, Nat.add_1_r, <- app_assoc in IH. cbn [app] in IH.
  cbn [List.length arrivals map fst snd sell_all sell_through].
  unfold in_turn. cbn [seq flat_map app].
  fold (in_turn (S (List.length before)) (List.length later)).
  fold (arrivals later).
  cbn [interleave]. rewrite nth_error_middle, set_nth_middle, Hst.
  rewrite nth_error_middle, Hnext, set_nth_middle. cbn [fst snd].
  rewrite IH, <- app_assoc. reflexivity.
Qed.

(** X13. Sales served one after the other never drive
    [tickets_available] below zero. When each call of [sell_tickets] runs its SELECT and its
    transaction before the next call starts: (1) from a store of
    non-negative counts every store the calls go through has
    non-negative counts; (2) a sale is accepted only when the requested
    count is positive and at most the tickets left, and it takes exactly
    that count off; (3) the tickets of the accepted sales of a movie add
    up to at most what was available at the start; (4) of the client's
    sale requests, served in normal operation, a count that is not
    positive is refused with "Requested tickets must be > 0", exactly
    the others that the tickets left cover are accepted, and every other
    one is refused with "Not enough tickets (available N)", N being the
    tickets left; (5) the scheduler that gives every connection both its
    steps before it starts the next one serves the requests as such a
    sequence of calls. *)
Theorem sales_in_turn_never_oversell :
  (forall reqs st,
     keyed st -> nonneg st ->
     Forall (fun out => nonneg (snd out)) (sell_all reqs st)) /\
  (forall e payload st,
     status (fst (sell_tickets e payload st)) = "ok" ->
     exists m n a,
       int_at payload "movie_id" = Ok m /\
       int_at payload "number_of_tickets" = Ok n /\
       available m st = Some a /\ 0 < n /\ n <= a /\
       available m (snd (sell_tickets e payload st)) = Some (a - n)) /\
  (forall m a reqs st,
     available m st = Some a -> 0 <= a ->
     total_sold m (sell_all reqs st) <= a) /\
  (forall m t price a reqs st,
     select_movie m st = Some (a, Some price, t) ->
     in_int64 m = true -> in_int64 a = true ->
     Forall (fun req => fault (fst (fst req)) = None) reqs ->
     map fst (sell_all (map (wire m) reqs) st) = serial m t price a reqs) /\
  (forall reqs st,
     interleave (in_turn 0 (List.length reqs)) (arrivals reqs) st
     = (map (fun out => Answered (fst out)) (sell_all reqs st),
        sell_through reqs st)).
Proof.
  split; [ | split; [ | split; [ | split ] ] ].
  - intros reqs st. apply sell_all_nonneg.
  - intros e payload st. apply sell_accepted.
  - intros m a reqs st. apply total_sold_bound.
  - intros m t price a reqs st. apply sell_all_serial.
  - intros reqs st. apply (interleave_in_turn reqs [] st).
Qed.

End Sequences.

(** *** One sale *)

Section OneSale.
Context `{Runtime}.




(** C6. A sale request whose [number_of_tickets] is zero or negative is
    refused with an error and the store (movies and sales) is left as it
    was; when the request also carries a movie id and a customer name the
    message is the validation message "Requested tickets must be > 0". *)
Theorem sell_rejects_nonpositive e payload st n :
  int_at payload "number_of_tickets" = Ok n -> n <= 0 ->
  status (fst (sell_tickets e payload st)) = "error" /\
  snd (sell_tickets e payload st) = st /\
  (forall m name,
     int_at payload "movie_id" = Ok m ->
     subscript payload "customer_name" = Ok name ->
     sell_tickets e payload st
     = (Failed (Text "Requested tickets must be > 0"), st)).
Proof.
  intros Hn Hle.
  assert (Hgen : forall m name,
     int_at payload "movie_id" = Ok m ->
     subscript payload "customer_name" = Ok name ->
     sell_tickets e payload st
     = (Failed (Text "Requested tickets must be > 0"), st)).
  { intros m name Hm Hname. unfold sell_tickets, sell_finish.
    rewrite (sell_tickets_fields e _ st _ _ _ Hm Hname Hn).
    replace (n <=? 0) with true by (symmetry; apply Z.leb_le; exact Hle).
    reflexivity. }
  destruct (int_at payload "movie_id") as [m | ex] eqn:Hm.
  - destruct (subscript payload "customer_name") as [name | ex] eqn:Hname.
    + rewrite (Hgen m name eq_refl eq_refl). auto.
    + unfold sell_tickets, sell_finish. rewrite sell_transaction_steps, Hm, Hname. simpl.
      repeat split; auto. intros; discriminate.
  - unfold sell_tickets, sell_finish. rewrite sell_transaction_steps, Hm. simpl.
    repeat split; auto. intros; discriminate.
Qed.

(** C7, as the code has it. A sale request for a movie the table has,
    asking for more tickets than are left, leaves the store as it was
    and is answered with an error. When the requested count is positive
    the message is "Not enough tickets (available N)", N being the
    tickets left. When it is zero or negative, which is more than the
    tickets left only for a movie whose count is negative, the
    validation of line 153 answers first, with "Requested tickets must
    be > 0", before the movie is looked up. A request without a customer
    name stops on the missing key before either. *)
Theorem sell_reports_availability e payload st m n a price t :
  int_at payload "movie_id" = Ok m ->
  int_at payload "number_of_tickets" = Ok n ->
  in_int64 m = true ->
  select_movie m st = Some (a, price, t) ->
  a < n ->
  (forall name,
     subscript payload "customer_name" = Ok name ->
     (0 < n ->
      sell_tickets e payload st
      = (Failed (Text ("Not enough tickets (available " ++ str_of_int a ++ ")")),
         st) /\
      contains (str_of_int a)
        ("Not enough tickets (available " ++ str_of_int a ++ ")")) /\
     (n <= 0 ->
      a < 0 /\
      sell_tickets e payload st
      = (Failed (Text "Requested tickets must be > 0"), st))) /\
  (forall ex,
     subscript payload "customer_name" = Raise ex ->
     ex = KeyError "customer_name" /\
     sell_tickets e payload st = (Failed (Str ex), st)).
Proof.
  intros Hm Hn Hm64 Hsel Hlt. split.
  - intros name Hname. split.
    + intros Hpos. split.
      * unfold sell_tickets, sell_finish.
        rewrite (sell_tickets_fields e _ st _ _ _ Hm Hname Hn).
        replace (n <=? 0) with false by (symmetry; apply Z.leb_gt; exact Hpos).
        rewrite (bind_int_in m Hm64). cbn [bind]. rewrite Hsel.
        rewrite Z.gtb_ltb.
        replace (a <? n) with true by (symmetry; apply Z.ltb_lt; exact Hlt).
        reflexivity.
      * exists "Not enough tickets (available ", ")". reflexivity.
    + intros Hle. split; [lia | ].
      apply (sell_tickets_invalid e payload st m name n Hm Hname Hn Hle).
  - intros ex Hname. split.
    + revert Hname. unfold subscript. destruct payload; try discriminate.
      destruct (assoc "customer_name" d); [discriminate | ].
      intros Heq. inversion Heq. reflexivity.
    + unfold sell_tickets, sell_finish.
      rewrite sell_transaction_steps, Hm, Hname. reflexivity.
Qed.

End OneSale.

(** *** The catalog *)

Section Catalog.
Context `{Runtime}.

Lemma with_movies_same st : with_movies (movies st) st = st.
Proof. destruct st; reflexivity. Qed.

(** How [add_movie] ends. *)
Lemma add_movie_cases payload st :
  (exists f p text,
     movie_fields payload = Ok f /\ bind_movie_fields f = Ok p /\
     text_column (p_title p) = Some text /\
     add_movie payload st
     = (Done "Movie added",
        with_movie (movie_of_params (next_rowid id (movies st) (movies_seq st))
                      text p) st)) \/
  (exists ex, add_movie payload st = (Failed (Str ex), st)).
Proof.
  unfold add_movie.
  destruct (movie_fields payload) as [f | ex] eqn:Hf; cbn [bind]; [ | right; eauto ].
  destruct (bind_movie_fields f) as [p | ex] eqn:Hp; cbn [bind]; [ | right; eauto ].
  unfold insert_movie.
  destruct (text_column (p_title p)) as [text | ] eqn:Ht; [ | right; eauto ].
  left. exists f, p, text. repeat split; auto.
Qed.

(** How [update_movie] ends. *)
Lemma update_movie_cases payload st :
  (exists ex, update_movie payload st = (Failed (Str ex), st)) \/
  (exists f p i,
     movie_fields payload = Ok f /\ bind_movie_fields f = Ok p /\
     int_at payload "id" = Ok i /\ in_int64 i = true /\
     ((~ present i st /\
       update_movie payload st = (Failed (Text "Movie id not found"), st)) \/
      (exists text,
         present i st /\ text_column (p_title p) = Some text /\
         update_movie payload st
         = (Done "Movie updated",
            with_movies (map (fun r => if id r =? i
                                       then movie_of_params i text p
                                       else r) (movies st)) st)))).
Proof.
  unfold update_movie.
  destruct (movie_fields payload) as [f | ex] eqn:Hf; cbn [bind]; [ | left; eauto ].
  destruct (int_at payload "id") as [i | ex] eqn:Hid; cbn [bind]; [ | left; eauto ].
  destruct (bind_movie_fields f) as [p | ex] eqn:Hp; cbn [bind]; [ | left; eauto ].
  destruct (bind_int i) as [i' | ex] eqn:Hi; cbn [bind]; [ | left; eauto ].
  apply bind_int_ok in Hi. destruct Hi as [-> Hi].
  unfold update_movie_rows.
  destruct (rowcount i (movies st)) as [ | c ] eqn:Hc.
  - right. exists f, p, i. repeat split; auto. left.
    split; [apply rowcount_absent; exact Hc | reflexivity].
  - assert (Hin : present i st).
    { unfold present. destruct (in_dec Z.eq_dec i (map id (movies st))) as [Hin | Hout];
        [exact Hin | ].
      apply rowcount_absent in Hout. congruence. }
    destruct (text_column (p_title p)) as [text | ] eqn:Ht; [ | left; eauto ].
    right. exists f, p, i. repeat split; auto. right. exists text. repeat split; auto.
Qed.

(** How [delete_movie] ends. *)
Lemma delete_movie_cases payload st :
  (exists ex, delete_movie payload st = (Failed (Str ex), st)) \/
  (exists i,
     int_at payload "id" = Ok i /\ in_int64 i = true /\
     ((~ present i st /\
       delete_movie payload st = (Failed (Text "Movie id not found"), st)) \/
      (present i st /\
       delete_movie payload st
       = (Done "Movie deleted",
          with_movies (filter (fun r => negb (id r =? i)) (movies st)) st)))).
Proof.
  unfold delete_movie.
  destruct (int_at payload "id") as [i | ex] eqn:Hid; cbn [bind]; [ | left; eauto ].
  destruct (bind_int i) as [i' | ex] eqn:Hi; cbn [bind]; [ | left; eauto ].
  apply bind_int_ok in Hi. destruct Hi as [-> Hi].
  unfold delete_movie_rows.
  destruct (rowcount i (movies st)) as [ | c ] eqn:Hc; cbn [Nat.eqb].
  - right. exists i. repeat split; auto. left.
    apply rowcount_absent in Hc. split; [exact Hc | ].
    rewrite (filter_absent i _ Hc). fold (with_movies (movies st) st).
    rewrite with_movies_same. reflexivity.
  - right. exists i. repeat split; auto. right. split; [ | reflexivity ].
    unfold present. destruct (in_dec Z.eq_dec i (map id (movies st))) as [Hin | Hout];
      [exact Hin | ].
    apply rowcount_absent in Hout. congruence.
Qed.

(** The fields of the client's forms. *)
Lemma movie_fields_add_payload m :
  movie_fields (add_payload m)
  = Ok (PStr (f_title m), f_cinema_room m, PStr (f_release_date m),
        PStr (f_end_date m), f_tickets_available m, f_ticket_price m).
Proof. reflexivity. Qed.

Lemma add_payload_carries m : carries (add_payload m) m.
Proof. repeat split. Qed.

Lemma update_payload_carries i m :
  carries (update_payload i m) m /\ int_at (update_payload i m) "id" = Ok i.
Proof. repeat split. Qed.

Lemma movie_fields_carried payload m :
  carries payload m ->
  movie_fields payload
  = Ok (PStr (f_title m), f_cinema_room m, PStr (f_release_date m),
        PStr (f_end_date m), f_tickets_available m, f_ticket_price m).
Proof.
  intros (Ht & Hroom & Hrd & Hed & Havail & Hprice). unfold movie_fields.
  rewrite Ht, Hroom, Hrd, Hed, Havail, Hprice. reflexivity.
Qed.

(** What the REAL column gives back for a bound price. *)
Lemma bind_float_read_back price : bind_float price = read_back price.
Proof. destruct price; reflexivity. Qed.

Lemma bind_form_fields m :
  storable m ->
  bind_movie_fields
    (PStr (f_title m), f_cinema_room m, PStr (f_release_date m),
     PStr (f_end_date m), f_tickets_available m, f_ticket_price m)
  = Ok {| p_title := SText (f_title m);
          p_cinema_room := f_cinema_room m;
          p_release_date := SText (f_release_date m);
          p_end_date := SText (f_end_date m);
          p_tickets_available := f_tickets_available m;
          p_ticket_price := read_back (f_ticket_price m) |}.
Proof.
  intros (Hroom & Havail). unfold bind_movie_fields. cbn [bind_param bind].
  rewrite (bind_int_in _ Hroom). cbn [bind].
  rewrite (bind_int_in _ Havail). cbn [bind].
  rewrite bind_float_read_back. reflexivity.
Qed.

(** The integers of a form that is not [storable] are refused when they
    are bound. *)
Lemma bind_form_fields_overflow m :
  ~ storable m ->
  bind_movie_fields
    (PStr (f_title m), f_cinema_room m, PStr (f_release_date m),
     PStr (f_end_date m), f_tickets_available m, f_ticket_price m)
  = Raise OverflowError.
Proof.
  unfold storable, bind_movie_fields, bind_int. intros Hno. cbn [bind_param bind].
  destruct (in_int64 (f_cinema_room m)); cbn [bind]; [ | reflexivity ].
  destruct (in_int64 (f_tickets_available m)); cbn [bind]; [ | reflexivity ].
  exfalso. apply Hno. split; reflexivity.
Qed.

Lemma add_movie_form payload m st :
  carries payload m -> storable m ->
  add_movie payload st
  = (Done "Movie added",
     with_movie (stored (next_rowid id (movies st) (movies_seq st)) m) st).
Proof.
  intros Hc Hm. unfold add_movie.
  rewrite (movie_fields_carried payload m Hc). cbn [bind].
  rewrite (bind_form_fields m Hm). reflexivity.
Qed.

Lemma add_movie_overflow payload m st :
  carries payload m -> ~ storable m ->
  add_movie payload st = (Failed (Str OverflowError), st).
Proof.
  intros Hc Hm. unfold add_movie.
  rewrite (movie_fields_carried payload m Hc). cbn [bind].
  rewrite (bind_form_fields_overflow m Hm). reflexivity.
Qed.

Lemma update_movie_form payload i m st :
  carries payload m -> int_at payload "id" = Ok i ->
  storable m -> in_int64 i = true -> present i st ->
  update_movie payload st
  = (Done "Movie updated",
     with_movies (map (fun r => if id r =? i then stored i m else r) (movies st)) st).
Proof.
  intros Hc Hid Hm Hi Hin. unfold update_movie.
  rewrite (movie_fields_carried payload m Hc), Hid. cbn [bind].
  rewrite (bind_form_fields m Hm). cbn [bind].
  rewrite (bind_int_in i Hi). cbn [bind].
  unfold update_movie_rows.
  destruct (rowcount i (movies st)) as [ | c ] eqn:Hrows.
  - apply rowcount_absent in Hrows. contradiction.
  - reflexivity.
Qed.

End Catalog.

(** *** The key order is an invariant *)

Section Invariants.
Context `{Runtime}.

Lemma sorted_snoc l x :
  StronglySorted Z.lt l -> Forall (fun y => y < x) l ->
  StronglySorted Z.lt (l ++ [x]).
Proof.
  induction l as [ | y l IH ]; simpl; intros Hs Hall.
  - repeat constructor.
  - inversion Hs as [ | ? ? Hs' Hy ]; subst.
    inversion Hall as [ | ? ? Hyx Hall' ]; subst.
    constructor; [apply IH; assumption | ].
    apply Forall_app. split; [assumption | repeat constructor; assumption].
Qed.

Lemma sorted_filter (f : movie -> bool) rows :
  StronglySorted Z.lt (map id rows) ->
  StronglySorted Z.lt (map id (filter f rows)).
Proof.
  induction rows as [ | r rows IH ]; simpl; intros Hs; [constructor | ].
  inversion Hs as [ | ? ? Hs' Hr ]; subst.
  destruct (f r); simpl; [ | apply IH; assumption ].
  constructor; [apply IH; assumption | ].
  rewrite Forall_forall in *. intros i Hi. apply Hr.
  apply in_map_iff in Hi. destruct Hi as (r' & <- & Hr').
  apply filter_In in Hr'. apply in_map. tauto.
Qed.

Lemma keyed_with_movie r st :
  keyed st -> Forall (fun r' => id r' < id r) (movies st) ->
  keyed (with_movie r st).
Proof.
  unfold keyed, with_movie. cbn [movies]. intros Hk Hall.
  rewrite map_app. apply sorted_snoc; [exact Hk | ].
  rewrite Forall_forall in *. intros i Hi.
  apply in_map_iff in Hi. destruct Hi as (r' & <- & Hr'). auto.
Qed.

Lemma insert_movie_keyed p st st' :
  insert_movie p st = Ok st' -> keyed st -> keyed st'.
Proof.
  unfold insert_movie. destruct (text_column (p_title p)) as [text | ];
    [ | discriminate ].
  intros Heq Hk. inversion Heq; subst; clear Heq.
  apply (keyed_with_movie
           (movie_of_params (next_rowid id (movies st) (movies_seq st)) text p) st Hk).
  apply next_rowid_fresh.
Qed.

Lemma insert_all_keyed ps : forall st st',
  fold_left (fun acc p => (s <- acc;; insert_movie p s)%py) ps (Ok st) = Ok st' ->
  keyed st -> keyed st'.
Proof.
  induction ps as [ | p ps IH ]; simpl; intros st st' Hf Hk.
  - inversion Hf; subst. exact Hk.
  - destruct (insert_movie p st) as [s | ex] eqn:Hi.
    + eapply IH; [exact Hf | ]. eapply insert_movie_keyed; eauto.
    + exfalso. clear - Hf. induction ps as [ | q ps IHq ]; simpl in Hf;
        [discriminate | auto].
Qed.

Lemma init_db_keyed st st' : init_db st = Ok st' -> keyed st -> keyed st'.
Proof.
  unfold init_db. destruct (Nat.eqb _ 0).
  - apply insert_all_keyed.
  - intros Heq. inversion Heq; subst. auto.
Qed.

Lemma add_movie_keyed payload st : keyed st -> keyed (snd (add_movie payload st)).
Proof.
  intros Hk. destruct (add_movie_cases payload st)
    as [(f & p & text & _ & _ & _ & ->) | (ex & ->)]; [ | exact Hk ].
  apply keyed_with_movie; [exact Hk | apply next_rowid_fresh].
Qed.

Lemma update_movie_keyed payload st :
  keyed st -> keyed (snd (update_movie payload st)).
Proof.
  intros Hk. destruct (update_movie_cases payload st)
    as [(ex & ->) | (f & p & i & _ & _ & _ & _ & [[_ ->] | (text & _ & _ & ->)])];
    try exact Hk.
  unfold keyed, with_movies. cbn [snd movies].
  rewrite map_map. erewrite map_ext; [exact Hk | ].
  intros r. cbn beta. destruct (id r =? i) eqn:Hi; [ | reflexivity ].
  apply Z.eqb_eq in Hi. symmetry. exact Hi.
Qed.

Lemma delete_movie_keyed payload st :
  keyed st -> keyed (snd (delete_movie payload st)).
Proof.
  intros Hk. destruct (delete_movie_cases payload st)
    as [(ex & ->) | (i & _ & _ & [[_ ->] | [_ ->]])]; try exact Hk.
  apply sorted_filter. exact Hk.
Qed.

Lemma handle_request_keyed e obj st resp st' :
  handle_request e obj st = Ok (resp, st') -> keyed st -> keyed st'.
Proof.
  unfold handle_request. intros Hh Hk. inv_bind Hh.
  repeat match type of Hh with
         | (if ?c then _ else _) = _ => destruct c
         end; inversion Hh as [Hout]; subst; clear Hh;
    try exact Hk;
    change st' with (snd (resp, st')); rewrite <- Hout.
  - apply add_movie_keyed, Hk.
  - apply update_movie_keyed, Hk.
  - apply delete_movie_keyed, Hk.
  - apply sell_tickets_keyed, Hk.
Qed.

(** A step of a connection leaves the database as it is, or commits
    the transaction of a sale on it. *)
Lemma advance_store t st :
  snd (advance t st) = st \/
  exists e mid title name n tot name',
    t = Checked e (mid, title, name, n, tot) /\
    snd (advance t st)
    = decrement_tickets n mid
        (insert_sale mid name' n (bind_float tot) (sale_clock e) st).
Proof.
  destruct t as [e payload | e [[[[mid title] name] n] tot] | resp]; cbn [advance].
  - left. destruct (sell_check payload st) as [[resp | sale] | ex]; reflexivity.
  - cbn [snd].
    destruct (sell_write e (mid, title, name, n, tot) st) as [st' | ex] eqn:Hw;
      cbn [bind sell_finish]; [ | left; reflexivity ].
    apply sell_write_done in Hw. destruct Hw as (_ & _ & name' & _ & ->).
    right. exists e, mid, title, name, n, tot, name'.
    split; [reflexivity | ]. destruct (run_step e AtReceipt); reflexivity.
  - left. reflexivity.
Qed.

Lemma interleave_keyed schedule : forall conns st,
  keyed st -> keyed (snd (interleave schedule conns st)).
Proof.
  induction schedule as [ | k rest IH ]; intros conns st Hk; cbn [interleave];
    [exact Hk | ].
  destruct (nth_error conns k) as [t | ]; [ | apply IH; exact Hk ].
  destruct (advance_store t st)
    as [-> | (e & mid & title & name & n & tot & name' & _ & ->)];
    apply IH; [exact Hk | apply keyed_after_sale, Hk].
Qed.

Lemma reachable_keyed st : reachable st -> keyed st.
Proof.
  induction 1 as [ | st st' _ IH Hinit | st e obj resp st' _ IH Hreq ].
  - constructor.
  - eapply init_db_keyed; eauto.
  - eapply handle_request_keyed; eauto.
Qed.

Lemma reachable_in_service st : reachable st -> in_service st.
Proof. intros Hr. exists st, [], []. split; [exact Hr | reflexivity]. Qed.

Lemma in_service_keyed st : in_service st -> keyed st.
Proof.
  intros (st0 & schedule & reqs & Hr & ->).
  apply interleave_keyed, reachable_keyed, Hr.
Qed.

End Invariants.

(** *** Claims about the catalog *)

Section CatalogClaims.
Context `{Runtime}.

Lemma nonneg_with_movie r st :
  nonneg (with_movie r st) <-> nonneg st /\ 0 <= tickets_available r.
Proof.
  unfold nonneg, with_movie. cbn [movies]. rewrite Forall_app. split.
  - intros [Hst Hr]. inversion Hr; subst. auto.
  - intros [Hst Hr]. split; [exact Hst | repeat constructor; exact Hr].
Qed.

Lemma nonneg_filter f st :
  nonneg st -> nonneg (with_movies (filter f (movies st)) st).
Proof.
  unfold nonneg, with_movies. cbn [movies]. rewrite !Forall_forall.
  intros Hst r Hr. apply filter_In in Hr. apply Hst. tauto.
Qed.

(** The count both admin handlers store is the converted
    [tickets_available] of the request. *)
Lemma stored_count payload f p :
  movie_fields payload = Ok f -> bind_movie_fields f = Ok p ->
  int_at payload "tickets_available" = Ok (p_tickets_available p).
Proof.
  unfold movie_fields. intros Hf Hp.
  inv_bind Hf. inv_bind Hf. inv_bind Hf. inv_bind Hf. inv_bind Hf. inv_bind Hf.
  inversion Hf; subst; clear Hf.
  unfold bind_movie_fields in Hp.
  inv_bind Hp. inv_bind Hp. inv_bind Hp. inv_bind Hp. inv_bind Hp.
  inversion Hp; subst; clear Hp. cbn [p_tickets_available].
  match goal with
  | Hb : bind_int ?z = Ok ?z' |- _ = Ok ?z' =>
      apply bind_int_ok in Hb; destruct Hb as [-> _]
  end.
  assumption.
Qed.

Lemma nonneg_update i r' st :
  nonneg st -> 0 <= tickets_available r' ->
  nonneg (with_movies (map (fun r => if id r =? i then r' else r) (movies st)) st).
Proof.
  unfold nonneg, with_movies. cbn [movies]. rewrite !Forall_forall.
  intros Hst Hr' r Hr. apply in_map_iff in Hr. destruct Hr as (r0 & <- & Hr0).
  destruct (id r0 =? i); auto.
Qed.

Lemma update_hits i r' rows :
  In i (map id rows) ->
  In r' (map (fun r => if id r =? i then r' else r) rows).
Proof.
  intros Hin. apply in_map_iff in Hin. destruct Hin as (r & Hid & Hr).
  apply in_map_iff. exists r. split; [ | exact Hr ].
  rewrite Hid, Z.eqb_refl. reflexivity.
Qed.

(** C2, as the code has it. From a store of non-negative counts,
    [delete_movie] leaves a store of non-negative counts whatever the
    request. So does the transaction of [sell_tickets] when it runs on
    the database its SELECT read, and, when other connections have
    written in between, as long as the count of the movie still covers
    the request when the transaction runs. [add_movie] and [update_movie]
    keep the counts non-negative provided the [tickets_available] of the
    request does not convert to a negative integer. They do not check
    it: when it converts to a negative integer and the handler answers
    ok, the store holds a negative count. *)
Theorem counts_stay_nonnegative_unless_set payload st :
  keyed st -> nonneg st ->
  nonneg (snd (delete_movie payload st)) /\
  (forall e sale st',
     sell_check payload st = Ok (inr sale) ->
     sell_write e sale st = Ok st' ->
     nonneg st') /\
  (forall e mid t name n tot st1 st',
     sell_check payload st = Ok (inr (mid, t, name, n, tot)) ->
     keyed st1 -> nonneg st1 ->
     (forall a, available mid st1 = Some a -> n <= a) ->
     sell_write e (mid, t, name, n, tot) st1 = Ok st' ->
     nonneg st') /\
  ((forall n, int_at payload "tickets_available" = Ok n -> 0 <= n) ->
   nonneg (snd (add_movie payload st)) /\
   nonneg (snd (update_movie payload st))) /\
  (forall n,
     int_at payload "tickets_available" = Ok n -> n < 0 ->
     (status (fst (add_movie payload st)) = "ok" ->
      ~ nonneg (snd (add_movie payload st))) /\
     (status (fst (update_movie payload st)) = "ok" ->
      ~ nonneg (snd (update_movie payload st)))).
Proof.
  intros Hk Hn. split; [ | split; [ | split; [ | split ] ] ].
  - destruct (delete_movie_cases payload st)
      as [(ex & ->) | (i & _ & _ & [[_ ->] | [_ ->]])]; try exact Hn.
    apply nonneg_filter, Hn.
  - intros e [[[[mid t] name] n] tot] st' Hcheck Hw.
    apply sell_check_passed in Hcheck.
    destruct Hcheck as (_ & _ & _ & _ & _ & a & price & Hsel & Hle & _).
    apply sell_write_done in Hw. destruct Hw as (_ & _ & name' & _ & ->).
    apply (nonneg_after_sale n mid name' n _ _ st a price t Hk Hn Hsel Hle).
  - intros e mid t name n tot st1 st' _ Hk1 Hn1 Hcover Hw.
    apply sell_write_done in Hw. destruct Hw as (_ & _ & name' & _ & ->).
    apply nonneg_after_write; assumption.
  - intros Hcount. split.
    + destruct (add_movie_cases payload st)
        as [(f & p & text & Hf & Hp & _ & ->) | (ex & ->)]; [ | exact Hn ].
      apply nonneg_with_movie. split; [exact Hn | ].
      apply Hcount. apply (stored_count payload f p Hf Hp).
    + destruct (update_movie_cases payload st)
        as [(ex & ->) | (f & p & i & Hf & Hp & _ & _ & [[_ ->] | (text & _ & _ & ->)])];
        try exact Hn.
      apply nonneg_update; [exact Hn | ].
      apply Hcount. apply (stored_count payload f p Hf Hp).
  - intros n Hcount Hneg. split.
    + destruct (add_movie_cases payload st)
        as [(f & p & text & Hf & Hp & _ & ->) | (ex & ->)]; [ | discriminate ].
      intros _ Hbad. apply nonneg_with_movie in Hbad. destruct Hbad as [_ Hbad].
      pose proof (stored_count payload f p Hf Hp) as Hc.
      rewrite Hcount in Hc. inversion Hc; subst. cbn in Hbad. lia.
    + destruct (update_movie_cases payload st)
        as [(ex & ->) | (f & p & i & Hf & Hp & _ & _ & [[_ ->] | (text & Hin & _ & ->)])];
        try discriminate.
      intros _ Hbad. unfold nonneg, with_movies in Hbad. cbn [snd movies] in Hbad.
      rewrite Forall_forall in Hbad.
      specialize (Hbad _ (update_hits i (movie_of_params i text p) _ Hin)).
      pose proof (stored_count payload f p Hf Hp) as Hc.
      rewrite Hcount in Hc. inversion Hc; subst. cbn in Hbad. lia.
Qed.

Lemma movie_fields_raise payload ex :
  int_at payload "cinema_room" = Raise ex \/
  int_at payload "tickets_available" = Raise ex \/
  float_at payload "ticket_price" = Raise ex ->
  exists ex', movie_fields payload = Raise ex'.
Proof.
  unfold movie_fields. intros Hraise.
  destruct (subscript payload "title"); cbn [bind]; [ | eauto ].
  destruct (int_at payload "cinema_room") eqn:Hroom; cbn [bind]; [ | eauto ].
  destruct (get payload "release_date" (PStr "")); cbn [bind]; [ | eauto ].
  destruct (get payload "end_date" (PStr "")); cbn [bind]; [ | eauto ].
  destruct (int_at payload "tickets_available") eqn:Havail; cbn [bind]; [ | eauto ].
  destruct (float_at payload "ticket_price") eqn:Hprice; cbn [bind]; [ | eauto ].
  destruct Hraise as [Hr | [Hr | Hr]]; discriminate.
Qed.

(** C3, as the code has it. [add_movie] either answers ok with the
    message "Movie added", which carries no id, and stores the movie
    under a fresh id, larger than every id in the table and than every id
    assigned before, or answers with an error and leaves the store as it
    was. It fails in this way whenever [int] raises on [cinema_room] or
    on [tickets_available], or [float] raises on [ticket_price]. A
    request that carries a form is answered ok exactly when the integers
    of the form fit 64 bits, and the movie is then stored with the
    title, the room, the dates and the count of the form and with its
    price, whatever the sign of the price; only a NaN is stored as NULL
    and a negative zero as 0.0. *)
Theorem add_movie_assigns_fresh_id payload st :
  ((exists r,
      add_movie payload st = (Done "Movie added", with_movie r st) /\
      movies_seq st < id r /\
      Forall (fun r' => id r' < id r) (movies st)) \/
   (exists ex, add_movie payload st = (Failed (Str ex), st))) /\
  (forall ex,
     int_at payload "cinema_room" = Raise ex \/
     int_at payload "tickets_available" = Raise ex \/
     float_at payload "ticket_price" = Raise ex ->
     exists ex', add_movie payload st = (Failed (Str ex'), st)) /\
  (forall m,
     carries payload m ->
     (storable m ->
      add_movie payload st
      = (Done "Movie added",
         with_movie (stored (next_rowid id (movies st) (movies_seq st)) m) st)) /\
     (~ storable m ->
      add_movie payload st = (Failed (Str OverflowError), st)) /\
     (f_ticket_price m <> S754_nan -> f_ticket_price m <> S754_zero true ->
      read_back (f_ticket_price m) = Some (f_ticket_price m))).
Proof.
  split; [ | split ].
  - destruct (add_movie_cases payload st)
      as [(f & p & text & _ & _ & _ & ->) | (ex & ->)]; [left | right; eauto].
    eexists. split; [reflexivity | ]. apply next_rowid_fresh.
  - intros ex Hraise. destruct (movie_fields_raise payload ex Hraise) as [ex' Hf].
    exists ex'. unfold add_movie. rewrite Hf. reflexivity.
  - intros m Hc. split; [ | split ].
    + apply add_movie_form, Hc.
    + apply add_movie_overflow, Hc.
    + intros Hnan Hzero. destruct (f_ticket_price m) as [[ | ] | | | ];
        try reflexivity; congruence.
Qed.

Lemma listed_ids_records rows :
  listed_ids (Movies (map movie_record rows)) = map id rows.
Proof.
  unfold listed_ids. induction rows as [ | r rows IH ]; simpl; [reflexivity | ].
  f_equal. exact IH.
Qed.

Lemma movie_record_displays r : displays r (movie_record r).
Proof.
  unfold displays, movie_record, of_text, of_real. cbn [keys map fst].
  repeat split; reflexivity.
Qed.

Lemma records_display rows : Forall2 displays rows (map movie_record rows).
Proof.
  induction rows as [ | r rows IH ]; simpl; constructor;
    [apply movie_record_displays | exact IH].
Qed.

(** C4. In every store the server can be in, also when sales overlap,
    [list_movies] answers ok and leaves the store as it was; it lists
    every row of [movies], one record per row and in the order of the
    rows, each record holding under the seven keys the id, the title,
    the room, the dates, the count and the price of its row; the records
    are in ascending order of id; on an empty table it lists nothing. *)
Theorem list_movies_lists_all_by_id st :
  in_service st ->
  snd (list_movies st) = st /\
  status (fst (list_movies st)) = "ok" /\
  (exists records,
     fst (list_movies st) = Movies records /\
     Forall2 displays (movies st) records) /\
  listed_ids (fst (list_movies st)) = map id (movies st) /\
  StronglySorted Z.lt (listed_ids (fst (list_movies st))) /\
  (movies st = [] -> fst (list_movies st) = Movies []).
Proof.
  intros Hr. apply in_service_keyed in Hr. unfold list_movies. cbn [fst snd].
  rewrite listed_ids_records.
  split; [reflexivity | ]. split; [reflexivity | ].
  split; [ | split; [reflexivity | split; [exact Hr | ] ] ].
  - exists (map movie_record (movies st)).
    split; [reflexivity | apply records_display].
  - intros ->. reflexivity.
Qed.

Lemma in_filter_other i r rows :
  In r (filter (fun r => negb (id r =? i)) rows) <-> In r rows /\ id r <> i.
Proof.
  rewrite filter_In. split; intros [Hin Hid]; split; auto.
  - intros Heq. apply Z.eqb_eq in Heq. rewrite Heq in Hid. discriminate.
  - apply Z.eqb_neq in Hid. rewrite Hid. reflexivity.
Qed.

(** C8, as the code has it. On an id the table does not have,
    [update_movie], [delete_movie] and [sell_tickets] answer with an
    error and leave the store as it was. The message is the not-found
    message when the request gets as far as the lookup: for
    [update_movie] when its fields convert and can be bound, for the
    three of them when the id fits 64 bits, and for [sell_tickets] when
    the count is positive. A sale whose count is zero or negative is
    answered "Requested tickets must be > 0" instead, and a request that
    stops on an exception is answered with the text of the exception.
    On an id the table has, [update_movie] gives the row of that id the
    title, the room, the dates, the count and the price of the request,
    the price as the column keeps it, and leaves every other row as it
    was; whatever the request, it replaces that row as a whole or
    answers with an error and changes nothing; [delete_movie] removes
    the rows of that id and no other. *)
Theorem id_lookup_outcomes payload st i :
  (int_at payload "id" = Ok i -> ~ present i st ->
   snd (update_movie payload st) = st /\
   (update_movie payload st = (Failed (Text "Movie id not found"), st) \/
    exists ex, update_movie payload st = (Failed (Str ex), st)) /\
   (forall f p,
      movie_fields payload = Ok f -> bind_movie_fields f = Ok p ->
      in_int64 i = true ->
      update_movie payload st = (Failed (Text "Movie id not found"), st)) /\
   (forall m,
      carries payload m -> storable m -> in_int64 i = true ->
      update_movie payload st = (Failed (Text "Movie id not found"), st))) /\
  (int_at payload "id" = Ok i -> ~ present i st ->
   snd (delete_movie payload st) = st /\
   (in_int64 i = true ->
    delete_movie payload st = (Failed (Text "Movie id not found"), st)) /\
   (in_int64 i = false ->
    delete_movie payload st = (Failed (Str OverflowError), st))) /\
  (forall e,
     int_at payload "movie_id" = Ok i -> ~ present i st ->
     snd (sell_tickets e payload st) = st /\
     status (fst (sell_tickets e payload st)) = "error" /\
     (forall name n,
        subscript payload "customer_name" = Ok name ->
        int_at payload "number_of_tickets" = Ok n ->
        (0 < n -> in_int64 i = true ->
         sell_tickets e payload st = (Failed (Text "Movie not found"), st)) /\
        (n <= 0 ->
         sell_tickets e payload st
         = (Failed (Text "Requested tickets must be > 0"), st)))) /\
  (forall m,
     int_at payload "id" = Ok i -> present i st -> in_int64 i = true ->
     carries payload m -> storable m ->
     update_movie payload st
     = (Done "Movie updated",
        with_movies (map (fun r => if id r =? i
                                   then {| id := i;
                                           title := f_title m;
                                           cinema_room := f_cinema_room m;
                                           release_date := Some (f_release_date m);
                                           end_date := Some (f_end_date m);
                                           tickets_available := f_tickets_available m;
                                           ticket_price := read_back (f_ticket_price m) |}
                                   else r) (movies st)) st) /\
     (forall r, id r <> i ->
                (In r (movies (snd (update_movie payload st))) <-> In r (movies st)))) /\
  (int_at payload "id" = Ok i -> present i st ->
   (exists msg, update_movie payload st = (Failed msg, st)) \/
   (exists r',
      id r' = i /\
      update_movie payload st
      = (Done "Movie updated",
         with_movies (map (fun r => if id r =? i then r' else r) (movies st))
           st))) /\
  (int_at payload "id" = Ok i -> present i st -> in_int64 i = true ->
   delete_movie payload st
   = (Done "Movie deleted",
      with_movies (filter (fun r => negb (id r =? i)) (movies st)) st) /\
   (forall r, In r (movies (snd (delete_movie payload st)))
              <-> In r (movies st) /\ id r <> i)).
Proof.
  assert (Hupdate : int_at payload "id" = Ok i -> ~ present i st ->
            forall f p,
              movie_fields payload = Ok f -> bind_movie_fields f = Ok p ->
              in_int64 i = true ->
              update_movie payload st = (Failed (Text "Movie id not found"), st)).
  { intros Hid Hout f p Hf Hp Hi.
    unfold update_movie. rewrite Hf, Hid. cbn [bind].
    rewrite Hp. cbn [bind]. rewrite (bind_int_in i Hi). cbn [bind].
    unfold update_movie_rows.
    replace (rowcount i (movies st)) with O
      by (symmetry; apply rowcount_absent; exact Hout).
    reflexivity. }
  split; [ | split; [ | split; [ | split; [ | split ] ] ] ].
  - intros Hid Hout.
    split; [ | split; [ | split ] ].
    + destruct (update_movie_cases payload st)
        as [(ex & Hu) | (f & p & i' & Hf & Hp & Hid' & Hi & [[_ Hu] | (text & Hin & _ & Hu)])];
        try (rewrite Hu; reflexivity).
      rewrite Hid in Hid'. inversion Hid'; subst. contradiction.
    + destruct (update_movie_cases payload st)
        as [(ex & Hu) | (f & p & i' & Hf & Hp & Hid' & Hi & [[_ Hu] | (text & Hin & _ & Hu)])];
        [right; eauto | left; exact Hu | ].
      rewrite Hid in Hid'. inversion Hid'; subst. contradiction.
    + apply Hupdate; assumption.
    + intros m Hc Hm Hi.
      apply (Hupdate Hid Hout _ _ (movie_fields_carried payload m Hc)
               (bind_form_fields m Hm) Hi).
  - intros Hid Hout.
    assert (Hrows : rowcount i (movies st) = O)
      by (apply rowcount_absent; exact Hout).
    unfold delete_movie. rewrite Hid. cbn [bind]. unfold bind_int.
    destruct (in_int64 i); cbn [bind].
    + unfold delete_movie_rows. rewrite Hrows. cbn [Nat.eqb snd].
      rewrite (filter_absent i _ Hout). fold (with_movies (movies st) st).
      rewrite with_movies_same.
      split; [reflexivity | split; [reflexivity | discriminate] ].
    + split; [reflexivity | split; [discriminate | reflexivity] ].
  - intros e Hid Hout.
    destruct (sell_tickets_cases e payload st)
      as [[Hst [msg Hmsg]] | (st' & mid & t & name & n & tot & Hs & _)].
    + split; [exact Hst | ]. split; [rewrite Hmsg; reflexivity | ].
      intros name n Hname Hn. split.
      * intros Hpos Hi. unfold sell_tickets, sell_finish.
        rewrite (sell_tickets_fields e _ st _ _ _ Hid Hname Hn).
        replace (n <=? 0) with false by (symmetry; apply Z.leb_gt; exact Hpos).
        rewrite (bind_int_in i Hi). cbn [bind]. unfold select_movie.
        replace (find (fun r => id r =? i) (movies st)) with (@None movie)
          by (symmetry; apply find_none_absent; exact Hout).
        reflexivity.
      * intros Hle.
        apply (sell_tickets_invalid e payload st i name n Hid Hname Hn Hle).
    + exfalso. apply sell_transaction_commit in Hs.
      destruct Hs as (Hm & _ & _ & _ & a & price & name' & Hsel & _).
      rewrite Hid in Hm. inversion Hm; subst mid.
      destruct (select_movie_in _ _ _ _ _ Hsel) as (r & Hr & Hrid & _).
      apply Hout. unfold present. rewrite <- Hrid. apply in_map, Hr.
  - intros m Hid Hin Hi Hc Hm.
    rewrite (update_movie_form payload i m st Hc Hid Hm Hi Hin).
    split; [reflexivity | ].
    intros r Hr. cbn [snd with_movies movies]. rewrite in_map_iff. split.
    + intros (x & Hx & Hinx). destruct (id x =? i) eqn:Hxi.
      * subst r. cbn [id stored] in Hr. congruence.
      * subst x. exact Hinx.
    + intros Hinr. exists r. split; [ | exact Hinr ].
      apply Z.eqb_neq in Hr. rewrite Hr. reflexivity.
  - intros Hid Hin.
    destruct (update_movie_cases payload st)
      as [(ex & Hu) | (f & p & i' & _ & _ & Hid' & _ & [[Hout _] | (text & _ & _ & Hu)])].
    + left. eauto.
    + rewrite Hid in Hid'. inversion Hid'; subst. contradiction.
    + rewrite Hid in Hid'. inversion Hid'; subst i'.
      right. exists (movie_of_params i text p). split; [reflexivity | exact Hu].
  - intros Hid Hin Hi.
    assert (Hd : delete_movie payload st
      = (Done "Movie deleted",
         with_movies (filter (fun r => negb (id r =? i)) (movies st)) st)).
    { unfold delete_movie. rewrite Hid. cbn [bind].
      rewrite (bind_int_in i Hi). cbn [bind]. unfold delete_movie_rows.
      destruct (rowcount i (movies st)) as [ | c ] eqn:Hc.
      - apply rowcount_absent in Hc. contradiction.
      - reflexivity. }
    rewrite Hd. split; [reflexivity | ].
    intros r. cbn [snd with_movies movies]. apply in_filter_other.
Qed.

End CatalogClaims.

(** *** Round trips and the connection handler *)

Section RoundTrip.
Context `{Runtime}.

Lemma next_rowid_absent st :
  ~ In (next_rowid id (movies st) (movies_seq st)) (map id (movies st)).
Proof.
  destruct (next_rowid_fresh id (movies st) (movies_seq st)) as [_ Hall].
  rewrite Forall_forall in Hall. intros Hin.
  apply in_map_iff in Hin. destruct Hin as (r & Hid & Hr).
  specialize (Hall r Hr). lia.
Qed.

Lemma movie_record_stored i m : movie_record (stored i m) = shown i m.
Proof. reflexivity. Qed.

Lemma listing_add m st :
  storable m ->
  listing (snd (add_movie (add_payload m) st))
  = Movies (map movie_record (movies st)
            ++ [shown (next_rowid id (movies st) (movies_seq st)) m])%list.
Proof.
  intros Hm. rewrite (add_movie_form _ m st (add_payload_carries m) Hm).
  unfold listing, list_movies.
  cbn [fst snd with_movie movies]. rewrite map_app. reflexivity.
Qed.

Lemma update_payload_form i m st :
  storable m -> in_int64 i = true -> present i st ->
  update_movie (update_payload i m) st
  = (Done "Movie updated",
     with_movies (map (fun r => if id r =? i then stored i m else r) (movies st)) st).
Proof.
  intros Hm Hi Hin.
  destruct (update_payload_carries i m) as [Hc Hid].
  apply (update_movie_form _ i m st Hc Hid Hm Hi Hin).
Qed.

Lemma listing_update i m st :
  storable m -> in_int64 i = true -> present i st ->
  listing (snd (update_movie (update_payload i m) st))
  = Movies (map (fun r => if id r =? i then shown i m else movie_record r)
              (movies st)).
Proof.
  intros Hm Hi Hin. rewrite (update_payload_form i m st Hm Hi Hin).
  unfold listing, list_movies. cbn [fst snd with_movies movies].
  rewrite map_map. f_equal. apply map_ext. intros r.
  destruct (id r =? i); reflexivity.
Qed.

Lemma listing_delete i st :
  in_int64 i = true -> present i st ->
  delete_movie (delete_payload i) st
  = (Done "Movie deleted",
     with_movies (filter (fun r => negb (id r =? i)) (movies st)) st) /\
  listing (snd (delete_movie (delete_payload i) st))
  = Movies (map movie_record (filter (fun r => negb (id r =? i)) (movies st))) /\
  ~ In i (listed_ids (listing (snd (delete_movie (delete_payload i) st)))).
Proof.
  intros Hi Hin.
  assert (Hd : delete_movie (delete_payload i) st
    = (Done "Movie deleted",
       with_movies (filter (fun r => negb (id r =? i)) (movies st)) st)).
  { unfold delete_movie.
    change (int_at (delete_payload i) "id") with (Ok i). cbn [bind].
    rewrite (bind_int_in i Hi). cbn [bind]. unfold delete_movie_rows.
    destruct (rowcount i (movies st)) as [ | c ] eqn:Hc.
    - apply rowcount_absent in Hc. contradiction.
    - reflexivity. }
  rewrite Hd. split; [reflexivity | ].
  unfold listing, list_movies. cbn [fst snd with_movies movies].
  split; [reflexivity | ].
  rewrite listed_ids_records. intros Hbad.
  apply in_map_iff in Hbad. destruct Hbad as (r & Hid & Hr).
  apply in_filter_other in Hr. tauto.
Qed.

(** The record a listing shows is the record that was sent unless the
    price is a NaN or the negative zero. *)
Lemma shown_sent i m :
  shown i m = sent i m <->
  f_ticket_price m <> S754_nan /\ f_ticket_price m <> S754_zero true.
Proof.
  unfold shown, sent. destruct (f_ticket_price m) as [[ | ] | | | ]; cbn [read_back];
    split; intros Heq; try reflexivity; try (split; discriminate);
      try discriminate; destruct Heq as [H1 H2]; congruence.
Qed.

(** C9, as the code has it. Round trip through the catalog, with the
    forms the client sends; the integers of a form have to fit 64 bits
    for the database to take it, and [add_movie] refuses it otherwise.
    (1) After [add_movie] the listing is
    the earlier listing followed by one record with the fields of the
    form, under the new id. (2) After [update_movie] on an id of the
    table the listing shows the fields of the new form for that id and
    every other record as before. (3) After [delete_movie] on an id of
    the table the listing is the earlier one without the records of that
    id, and no record has the id. (4) [list_movies] leaves the store as
    it was, so that a second call answers as the first. (5) Adding a
    movie, updating it and deleting it shows, in turn, the new record,
    the updated record instead, and the listing the round trip started
    from. (6) The fields shown are exactly those of the form, but for
    the price, which is shown as the REAL column gives it back: [None]
    for a NaN, 0.0 for the negative zero, and the price of the form in
    every other case. *)
Theorem catalog_round_trip st :
  (forall m,
     (storable m ->
      listing (snd (add_movie (add_payload m) st))
      = Movies (map movie_record (movies st)
                ++ [shown (next_rowid id (movies st) (movies_seq st)) m])%list) /\
     (~ storable m ->
      add_movie (add_payload m) st = (Failed (Str OverflowError), st))) /\
  (forall i m,
     storable m -> in_int64 i = true -> present i st ->
     listing (snd (update_movie (update_payload i m) st))
     = Movies (map (fun r => if id r =? i then shown i m else movie_record r)
                 (movies st))) /\
  (forall i,
     in_int64 i = true -> present i st ->
     listing (snd (delete_movie (delete_payload i) st))
     = Movies (map movie_record
                 (filter (fun r => negb (id r =? i)) (movies st))) /\
     ~ In i (listed_ids (listing (snd (delete_movie (delete_payload i) st))))) /\
  (snd (list_movies st) = st /\
   list_movies (snd (list_movies st)) = list_movies st) /\
  (forall m m',
     storable m -> storable m' ->
     let i := next_rowid id (movies st) (movies_seq st) in
     in_int64 i = true ->
     let st1 := snd (add_movie (add_payload m) st) in
     let st2 := snd (update_movie (update_payload i m') st1) in
     let st3 := snd (delete_movie (delete_payload i) st2) in
     listing st1 = Movies (map movie_record (movies st) ++ [shown i m])%list /\
     listing st2 = Movies (map movie_record (movies st) ++ [shown i m'])%list /\
     listing st3 = listing st) /\
  (forall i m,
     (shown i m = sent i m <->
      f_ticket_price m <> S754_nan /\ f_ticket_price m <> S754_zero true) /\
     (f_ticket_price m = S754_nan ->
      subscript (shown i m) "ticket_price" = Ok PNone) /\
     (f_ticket_price m = S754_zero true ->
      subscript (shown i m) "ticket_price" = Ok (PFloat (S754_zero false)))).
Proof.
  split; [ | split; [ | split; [ | split; [ | split ] ] ] ].
  - intros m. split; [apply listing_add | ].
    apply add_movie_overflow, add_payload_carries.
  - intros i m Hm Hi Hin. apply listing_update; assumption.
  - intros i Hi Hin. destruct (listing_delete i st Hi Hin) as (_ & Hl & Hno). auto.
  - split; reflexivity.
  - intros m m' Hm Hm' i Hi st1 st2 st3.
    pose proof (next_rowid_absent st) as Hfresh. fold i in Hfresh.
    assert (H1 : st1 = with_movie (stored i m) st).
    { unfold st1. rewrite (add_movie_form _ m st (add_payload_carries m) Hm).
      reflexivity. }
    assert (Hin1 : present i st1).
    { rewrite H1. unfold present, with_movie. cbn [movies].
      rewrite map_app. apply in_or_app. right. left. reflexivity. }
    assert (H2 : movies st2 = (movies st ++ [stored i m'])%list).
    { unfold st2. rewrite (update_payload_form i m' st1 Hm' Hi Hin1).
      rewrite H1. cbn [snd with_movies with_movie movies].
      rewrite map_app, (map_absent (fun _ => stored i m') i _ Hfresh).
      cbn [map id stored]. rewrite Z.eqb_refl. reflexivity. }
    assert (Hin2 : present i st2).
    { unfold present. rewrite H2, map_app. apply in_or_app. right. left. reflexivity. }
    repeat split.
    + unfold st1. apply listing_add. exact Hm.
    + unfold listing, list_movies. cbn [fst]. rewrite H2, map_app. reflexivity.
    + unfold st3. destruct (listing_delete i st2 Hi Hin2) as (_ & -> & _).
      rewrite H2, filter_app, (filter_absent i _ Hfresh).
      cbn [filter id stored]. rewrite Z.eqb_refl. cbn [negb].
      rewrite app_nil_r. reflexivity.
  - intros i m. split; [apply shown_sent | ].
    split; intros Hp; unfold shown; rewrite Hp; reflexivity.
Qed.

Lemma first_line_terminated line :
  first_line line = None -> first_line (line ++ newline) = Some line.
Proof.
  induction line as [ | c line IH ]; simpl; intros Hnone.
  - reflexivity.
  - destruct (Ascii.eqb c "010"); [discriminate | ].
    destruct (first_line line); [discriminate | ].
    rewrite IH by reflexivity. reflexivity.
Qed.

Lemma recv_json_line line :
  first_line line = None ->
  recv_json [(line ++ newline)%string] "" = loads_or_none line.
Proof.
  intros Hnone. cbn [recv_json].
  replace (String.eqb (line ++ newline) "") with false
    by (destruct line; reflexivity).
  cbn [append]. rewrite (first_line_terminated line Hnone). reflexivity.
Qed.

Lemma falsy_documents_falsy v : In v falsy_documents -> truthy v = false.
Proof.
  unfold falsy_documents. simpl.
  intros [<- | [<- | [<- | [<- | [<- | [<- | []]]]]]]; reflexivity.
Qed.

(** C10. When the request a connection receives decodes to a value
    Python takes for false, the connection handler answers "Invalid or
    empty request", does not call the dispatcher and leaves the store as
    it was. This is so for a line whose JSON document is the empty
    object, 0, false, null, the empty string or the empty array; the
    dispatcher itself would classify the empty object as an unknown
    action. *)
Theorem falsy_request_is_invalid e st :
  (forall chunks,
     truthy (recv_json chunks "") = false ->
     client_thread e chunks st = ([Send invalid_request], st)) /\
  (forall line v,
     first_line line = None -> json_loads line = Some v ->
     In v falsy_documents ->
     client_thread e [(line ++ newline)%string] st = ([Send invalid_request], st)) /\
  handle_request e (PDict []) st = Ok (Failed (Text "Unknown action"), st).
Proof.
  assert (Hgen : forall chunks,
     truthy (recv_json chunks "") = false ->
     client_thread e chunks st = ([Send invalid_request], st)).
  { intros chunks Hfalse. unfold client_thread. rewrite Hfalse. reflexivity. }
  split; [exact Hgen | split; [ | reflexivity ] ].
  intros line v Hline Hv Hin. apply Hgen.
  rewrite (recv_json_line line Hline). unfold loads_or_none. rewrite Hv.
  apply falsy_documents_falsy, Hin.
Qed.

End RoundTrip.

(** *** The claims at concrete inputs *)

Section Closed.
Import Demo.
#[local] Existing Instance Tiny.runtime.

Lemma db_reachable : reachable Demo.db.
Proof.
  apply (reach_init empty_store Demo.db reach_empty). reflexivity.
Qed.

Lemma db_keyed : keyed Demo.db.
Proof. apply reachable_keyed, db_reachable. Qed.

Lemma db_nonneg : nonneg Demo.db.
Proof. unfold nonneg. cbv. repeat constructor; discriminate. Qed.

Lemma rush_is_normal :
  Forall (fun req => fault (fst (fst req)) = None) rush.
Proof. unfold rush. repeat constructor. Qed.

Lemma forms_storable :
  storable premiere /\ storable rerun /\ storable owing /\ storable free_entry.
Proof. repeat split. Qed.

(** What the three requests of [rush] get against the 100 tickets of
    movie 1: the first and the third are served, the second is not. *)
Example rush_outcome :
  map fst (sell_all (map (wire 1) rush) Demo.db)
  = [ Sold "Tickets sold"
        (sale_record 1 "The Matrix" (PStr "Ada") 60
           (float_mul (float_lit 60) (float_lit 120)))
        "server_receipts/receipt_20250601100000_1.txt";
      Failed (Text "Not enough tickets (available 40)");
      Sold "Tickets sold"
        (sale_record 1 "The Matrix" (PStr "Cy") 40
           (float_mul (float_lit 40) (float_lit 120)))
        "server_receipts/receipt_20250601100000_1.txt" ].
Proof. vm_compute. reflexivity. Qed.

Lemma sales_in_turn_never_oversell_witness :
  (keyed Demo.db /\ nonneg Demo.db /\
   select_movie 1 Demo.db = Some (100, Some (float_lit 120), "The Matrix") /\
   in_int64 1 = true /\ in_int64 100 = true /\
   Forall (fun req => fault (fst (fst req)) = None) rush) /\
  Forall (fun out => nonneg (snd out)) (sell_all (map (wire 1) rush) Demo.db) /\
  total_sold 1 (sell_all (map (wire 1) rush) Demo.db) <= 100 /\
  map fst (sell_all (map (wire 1) rush) Demo.db)
  = serial 1 "The Matrix" (float_lit 120) 100 rush.
Proof.
  destruct (@sales_in_turn_never_oversell Tiny.runtime)
    as (Hinv & _ & Hsum & Hserial & _).
  split; [ | split; [ | split ] ].
  - repeat split; try reflexivity.
    + exact db_keyed.
    + exact db_nonneg.
    + exact rush_is_normal.
  - apply Hinv; [exact db_keyed | exact db_nonneg].
  - apply Hsum; [reflexivity | lia].
  - apply Hserial; try reflexivity. exact rush_is_normal.
Defined.


Lemma sell_rejects_nonpositive_witness :
  (int_at (sell_payload 1 "Ada" 0) "number_of_tickets" = Ok 0 /\ 0 <= 0) /\
  status (fst (sell_tickets quiet (sell_payload 1 "Ada" 0) Demo.db)) = "error" /\
  snd (sell_tickets quiet (sell_payload 1 "Ada" 0) Demo.db) = Demo.db /\
  sell_tickets quiet (sell_payload 1 "Ada" 0) Demo.db
  = (Failed (Text "Requested tickets must be > 0"), Demo.db).
Proof.
  assert (Hn : int_at (sell_payload 1 "Ada" 0) "number_of_tickets" = Ok 0)
    by reflexivity.
  assert (Hle : 0 <= 0) by lia.
  destruct (@sell_rejects_nonpositive Tiny.runtime quiet _ Demo.db 0 Hn Hle)
    as (Hstatus & Hstore & Hmsg).
  split; [split; assumption | ].
  split; [exact Hstatus | ]. split; [exact Hstore | ].
  apply (Hmsg 1 (PStr "Ada")); reflexivity.
Defined.

Lemma overdrawn_reachable : reachable overdrawn.
Proof.
  apply (reach_request Demo.db quiet (add_payload owing) (Done "Movie added")
           overdrawn db_reachable).
  reflexivity.
Qed.

Ltac no_occurrence H before :=
  repeat (destruct before as [ | ? before ]; cbn in H;
          [discriminate H | injection H as _ H]);
  destruct before; discriminate H.

Lemma sell_reports_availability_witness :
  (int_at (sell_payload 1 "Ada" 999999) "movie_id" = Ok 1 /\
   int_at (sell_payload 1 "Ada" 999999) "number_of_tickets" = Ok 999999 /\
   in_int64 1 = true /\
   select_movie 1 Demo.db = Some (100, Some (float_lit 120), "The Matrix") /\
   100 < 999999 /\
   subscript (sell_payload 1 "Ada" 999999) "customer_name" = Ok (PStr "Ada") /\
   0 < 999999) /\
  (sell_tickets quiet (sell_payload 1 "Ada" 999999) Demo.db
   = (Failed (Text "Not enough tickets (available 100)"), Demo.db) /\
   contains "100" "Not enough tickets (available 100)") /\
  (select_movie 6 overdrawn = Some (-5, Some (float_lit (-5)), "Owing") /\
   int_at (sell_payload 6 "Ada" 0) "number_of_tickets" = Ok 0 /\
   -5 < 0 /\ 0 <= 0) /\
  sell_tickets quiet (sell_payload 6 "Ada" 0) overdrawn
  = (Failed (Text "Requested tickets must be > 0"), overdrawn).
Proof.
  assert (Hsome : 0 < 999999) by lia.
  assert (Hnone : 0 <= 0) by lia.
  split; [ | split; [ | split ] ].
  - repeat split; try reflexivity.
  - exact (proj1 (proj1 (@sell_reports_availability Tiny.runtime quiet
                           (sell_payload 1 "Ada" 999999) Demo.db 1 999999 100
                           (Some (float_lit 120)) "The Matrix"
                           eq_refl eq_refl eq_refl eq_refl eq_refl)
                    (PStr "Ada") eq_refl)
             Hsome).
  - repeat split; try reflexivity; discriminate.
  - exact (proj2 (proj2 (proj1 (@sell_reports_availability Tiny.runtime quiet
                                  (sell_payload 6 "Ada" 0) overdrawn 6 0 (-5)
                                  (Some (float_lit (-5))) "Owing"
                                  eq_refl eq_refl eq_refl eq_refl eq_refl)
                           (PStr "Ada") eq_refl)
                    Hnone)).
Defined.

(** C7 as stated fails: movie 6 of a database the server can reach has
    -5 tickets left; a request for 0 tickets of it asks for more than
    are left, and the answer is the validation message, which does not
    carry the count. *)
Lemma nothing_asked_of_an_overdrawn_movie :
  reachable overdrawn /\
  select_movie 6 overdrawn = Some (-5, Some (float_lit (-5)), "Owing") /\
  int_at (sell_payload 6 "Ada" 0) "number_of_tickets" = Ok 0 /\
  -5 < 0 /\
  sell_tickets quiet (sell_payload 6 "Ada" 0) overdrawn
  = (Failed (Text "Requested tickets must be > 0"), overdrawn) /\
  str_of_int (-5) = "-5" /\
  ~ contains "-5" "Requested tickets must be > 0".
Proof.
  split; [exact overdrawn_reachable | ].
  split; [reflexivity | ]. split; [reflexivity | ]. split; [reflexivity | ].
  split; [reflexivity | ]. split; [reflexivity | ].
  intros (before & after & Heq). no_occurrence Heq before.
Qed.

(** C2 as stated fails: on the empty store, whose counts are trivially
    non-negative, [add_movie] with a count of -5 answers ok and stores
    the negative count. *)
Lemma add_movie_stores_negative_count :
  nonneg empty_store /\
  status (fst (add_movie (add_payload owing) empty_store)) = "ok" /\
  map tickets_available (movies (snd (add_movie (add_payload owing) empty_store)))
  = [-5] /\
  ~ nonneg (snd (add_movie (add_payload owing) empty_store)).
Proof.
  split; [constructor | ]. split; [reflexivity | ]. split; [reflexivity | ].
  intros Hbad. inversion Hbad as [ | r rows Hr Hrows Heq ]; subst.
  cbv in Hr. apply Hr. reflexivity.
Qed.

Lemma after_ada_keyed : keyed after_ada.
Proof. apply sell_tickets_keyed, db_keyed. Qed.

Lemma after_ada_nonneg : nonneg after_ada.
Proof. apply sell_tickets_nonneg; [exact db_keyed | exact db_nonneg]. Qed.

Lemma counts_stay_nonnegative_unless_set_witness :
  (keyed Demo.db /\ nonneg Demo.db /\
   (forall n, int_at (add_payload premiere) "tickets_available" = Ok n -> 0 <= n) /\
   (forall n, int_at (update_payload 2 rerun) "tickets_available" = Ok n -> 0 <= n)) /\
  (fst (delete_movie (delete_payload 3) Demo.db) = Done "Movie deleted" /\
   nonneg (snd (delete_movie (delete_payload 3) Demo.db))) /\
  (sell_check (sell_payload 1 "Ada" 60) Demo.db
   = Ok (inr (1, "The Matrix", PStr "Ada", 60,
              float_mul (float_lit 60) (float_lit 120))) /\
   sell_write quiet (1, "The Matrix", PStr "Ada", 60,
                     float_mul (float_lit 60) (float_lit 120)) Demo.db
   = Ok after_ada /\
   available 1 after_ada = Some 40 /\
   nonneg after_ada) /\
  (fst (add_movie (add_payload premiere) Demo.db) = Done "Movie added" /\
   nonneg (snd (add_movie (add_payload premiere) Demo.db))) /\
  (fst (update_movie (update_payload 2 rerun) Demo.db) = Done "Movie updated" /\
   nonneg (snd (update_movie (update_payload 2 rerun) Demo.db))) /\
  (sell_check (sell_payload 1 "Bob" 40) Demo.db
   = Ok (inr (1, "The Matrix", PStr "Bob", 40,
              float_mul (float_lit 40) (float_lit 120))) /\
   exists st',
     sell_write quiet (1, "The Matrix", PStr "Bob", 40,
                       float_mul (float_lit 40) (float_lit 120)) after_ada
     = Ok st' /\
     available 1 st' = Some 0 /\ nonneg st').
Proof.
  assert (Hadd : forall n,
            int_at (add_payload premiere) "tickets_available" = Ok n -> 0 <= n).
  { intros n Hn. inversion Hn. lia. }
  assert (Hupd : forall n,
            int_at (update_payload 2 rerun) "tickets_available" = Ok n -> 0 <= n).
  { intros n Hn. inversion Hn. lia. }
  split; [ | split; [ | split; [ | split; [ | split ] ] ] ].
  - split; [exact db_keyed | split; [exact db_nonneg | split; assumption] ].
  - split; [reflexivity | ].
    exact (proj1 (@counts_stay_nonnegative_unless_set Tiny.runtime
                    (delete_payload 3) Demo.db db_keyed db_nonneg)).
  - split; [reflexivity | ]. split; [reflexivity | ]. split; [reflexivity | ].
    exact (proj1 (proj2 (@counts_stay_nonnegative_unless_set Tiny.runtime
                           (sell_payload 1 "Ada" 60) Demo.db db_keyed db_nonneg))
             quiet
             (1, "The Matrix", PStr "Ada", 60,
              float_mul (float_lit 60) (float_lit 120))
             after_ada eq_refl eq_refl).
  - split; [reflexivity | ].
    exact (proj1 (proj1 (proj2 (proj2 (proj2
             (@counts_stay_nonnegative_unless_set Tiny.runtime
                (add_payload premiere) Demo.db db_keyed db_nonneg))))
             Hadd)).
  - split; [reflexivity | ].
    exact (proj2 (proj1 (proj2 (proj2 (proj2
             (@counts_stay_nonnegative_unless_set Tiny.runtime
                (update_payload 2 rerun) Demo.db db_keyed db_nonneg))))
             Hupd)).
  - split; [reflexivity | ].
    eexists. split; [reflexivity | ]. split; [reflexivity | ].
    apply (proj1 (proj2 (proj2
             (@counts_stay_nonnegative_unless_set Tiny.runtime
                (sell_payload 1 "Bob" 40) Demo.db db_keyed db_nonneg)))
             quiet 1 "The Matrix" (PStr "Bob") 40
             (float_mul (float_lit 40) (float_lit 120)) after_ada).
    + reflexivity.
    + exact after_ada_keyed.
    + exact after_ada_nonneg.
    + intros a Ha. change (available 1 after_ada) with (Some 40) in Ha.
      inversion Ha. lia.
    + reflexivity.
Defined.

(** C3 as stated fails: a request with a negative price is answered ok,
    without an id, and the movie is stored; a request whose room is 3.5
    is answered ok and stored under room 3. *)
Lemma add_movie_accepts_negative_price :
  add_movie (add_payload owing) empty_store
  = (Done "Movie added", with_movie (stored 1 owing) empty_store) /\
  map ticket_price (movies (snd (add_movie (add_payload owing) empty_store)))
  = [Some (float_lit (-5))] /\
  snd (add_movie (add_payload owing) empty_store) <> empty_store /\
  fst (add_movie between_rooms empty_store) = Done "Movie added" /\
  map cinema_room (movies (snd (add_movie between_rooms empty_store))) = [3].
Proof.
  split; [reflexivity | ]. split; [reflexivity | ].
  split; [discriminate | ]. split; reflexivity.
Qed.

Lemma add_movie_assigns_fresh_id_witness :
  (carries (add_payload owing) owing /\ storable owing) /\
  add_movie (add_payload owing) Demo.db
  = (Done "Movie added", with_movie (stored 6 owing) Demo.db) /\
  (carries (add_payload free_entry) free_entry /\ storable free_entry) /\
  add_movie (add_payload free_entry) Demo.db
  = (Done "Movie added", with_movie (stored 6 free_entry) Demo.db) /\
  ticket_price (stored 6 free_entry) = Some (S754_zero false) /\
  int_at no_room "cinema_room" = Raise ValueError /\
  exists ex, add_movie no_room Demo.db = (Failed (Str ex), Demo.db).
Proof.
  split; [repeat split | ].
  split.
  { apply (proj1 (proj2 (proj2 (@add_movie_assigns_fresh_id Tiny.runtime
                                  (add_payload owing) Demo.db))
                    owing (add_payload_carries owing))).
    repeat split. }
  split; [repeat split | ].
  split.
  { apply (proj1 (proj2 (proj2 (@add_movie_assigns_fresh_id Tiny.runtime
                                  (add_payload free_entry) Demo.db))
                    free_entry (add_payload_carries free_entry))).
    repeat split. }
  split; [reflexivity | ]. split; [reflexivity | ].
  apply (proj1 (proj2 (@add_movie_assigns_fresh_id Tiny.runtime no_room Demo.db))
           ValueError).
  left. reflexivity.
Defined.

Lemma db_in_service : in_service Demo.db.
Proof. apply reachable_in_service, db_reachable. Qed.

Lemma oversold_in_service :
  in_service (snd (interleave [0; 1; 0; 1]%nat two_buyers Demo.db)).
Proof.
  exists Demo.db, [0; 1; 0; 1]%nat,
    [ (quiet, sell_payload 1 "Ada" 60); (quiet, sell_payload 1 "Bob" 60) ].
  split; [exact db_reachable | reflexivity].
Qed.

Lemma list_movies_lists_all_by_id_witness :
  (in_service Demo.db /\
   in_service (snd (interleave [0; 1; 0; 1]%nat two_buyers Demo.db))) /\
  listed_ids (fst (list_movies Demo.db)) = [1; 2; 3; 4; 5] /\
  StronglySorted Z.lt (listed_ids (fst (list_movies Demo.db))) /\
  (exists records,
     fst (list_movies Demo.db) = Movies records /\
     Forall2 displays (movies Demo.db) records) /\
  StronglySorted Z.lt
    (listed_ids (fst (list_movies
                        (snd (interleave [0; 1; 0; 1]%nat two_buyers Demo.db))))).
Proof.
  destruct (@list_movies_lists_all_by_id Tiny.runtime Demo.db db_in_service)
    as (_ & _ & Hrecords & Hids & Hsorted & _).
  destruct (@list_movies_lists_all_by_id Tiny.runtime _ oversold_in_service)
    as (_ & _ & _ & _ & Hoversold & _).
  split; [split; [exact db_in_service | exact oversold_in_service] | ].
  split; [exact Hids | ]. split; [exact Hsorted | ].
  split; [exact Hrecords | exact Hoversold].
Defined.

(** C8 as stated fails: the table has no movie 9, and a sale of no
    tickets of movie 9 is answered with the validation message, not
    with the not-found message. *)
Lemma no_tickets_of_a_missing_movie :
  ~ present 9 Demo.db /\
  sell_tickets quiet (sell_payload 9 "Ada" 0) Demo.db
  = (Failed (Text "Requested tickets must be > 0"), Demo.db) /\
  fst (sell_tickets quiet (sell_payload 9 "Ada" 0) Demo.db)
  <> Failed (Text "Movie not found").
Proof.
  split; [cbv; intuition discriminate | ].
  split; [reflexivity | discriminate].
Qed.

Lemma id_lookup_outcomes_witness :
  (int_at (delete_payload 9) "id" = Ok 9 /\ ~ present 9 Demo.db /\
   in_int64 9 = true) /\
  delete_movie (delete_payload 9) Demo.db
  = (Failed (Text "Movie id not found"), Demo.db) /\
  update_movie (update_payload 9 rerun) Demo.db
  = (Failed (Text "Movie id not found"), Demo.db) /\
  sell_tickets quiet (sell_payload 9 "Ada" 2) Demo.db
  = (Failed (Text "Movie not found"), Demo.db) /\
  sell_tickets quiet (sell_payload 9 "Ada" 0) Demo.db
  = (Failed (Text "Requested tickets must be > 0"), Demo.db) /\
  (int_at (update_payload 2 rerun) "id" = Ok 2 /\ present 2 Demo.db /\
   in_int64 2 = true /\ carries (update_payload 2 rerun) rerun /\
   storable rerun) /\
  (fst (update_movie (update_payload 2 rerun) Demo.db) = Done "Movie updated" /\
   map title (movies (snd (update_movie (update_payload 2 rerun) Demo.db)))
   = [ "The Matrix"; "Rerun"; "Mabiba"; "Phoenix"; "The Pump" ] /\
   select_movie 2 (snd (update_movie (update_payload 2 rerun) Demo.db))
   = Some (40, Some (float_lit 90), "Rerun")) /\
  (int_at (delete_payload 3) "id" = Ok 3 /\ present 3 Demo.db /\
   in_int64 3 = true) /\
  map id (movies (snd (delete_movie (delete_payload 3) Demo.db))) = [1; 2; 4; 5].
Proof.
  assert (Hout : ~ present 9 Demo.db).
  { cbv. intuition discriminate. }
  assert (Hin3 : present 3 Demo.db).
  { cbv. auto. }
  assert (Hin2 : present 2 Demo.db).
  { cbv. auto. }
  split; [repeat split; assumption | ].
  split.
  { apply (proj1 (proj2 (proj1 (proj2 (@id_lookup_outcomes Tiny.runtime
                                         (delete_payload 9) Demo.db 9))
                           eq_refl Hout))).
    reflexivity. }
  split.
  { apply (proj2 (proj2 (proj2 (proj1 (@id_lookup_outcomes Tiny.runtime
                                         (update_payload 9 rerun) Demo.db 9)
                                  eq_refl Hout)))
             rerun (proj1 (update_payload_carries 9 rerun))).
    - repeat split.
    - reflexivity. }
  split.
  { apply (proj1 (proj2 (proj2 (proj1 (proj2 (proj2
                      (@id_lookup_outcomes Tiny.runtime
                         (sell_payload 9 "Ada" 2) Demo.db 9)))
                    quiet eq_refl Hout))
             (PStr "Ada") 2 eq_refl eq_refl)); [lia | reflexivity]. }
  split.
  { apply (proj2 (proj2 (proj2 (proj1 (proj2 (proj2
                      (@id_lookup_outcomes Tiny.runtime
                         (sell_payload 9 "Ada" 0) Demo.db 9)))
                    quiet eq_refl Hout))
             (PStr "Ada") 0 eq_refl eq_refl)). lia. }
  split.
  { split; [reflexivity | ]. split; [exact Hin2 | ]. split; [reflexivity | ].
    split; [exact (proj1 (update_payload_carries 2 rerun)) | repeat split]. }
  split.
  { destruct (proj1 (proj2 (proj2 (proj2
                (@id_lookup_outcomes Tiny.runtime (update_payload 2 rerun) Demo.db 2))))
                rerun eq_refl Hin2 eq_refl
                (proj1 (update_payload_carries 2 rerun))
                (proj1 (proj2 forms_storable))) as [Hupd _].
    rewrite Hupd. split; [reflexivity | ]. split; reflexivity. }
  split; [repeat split; assumption | ].
  destruct (proj2 (proj2 (proj2 (proj2 (proj2
              (@id_lookup_outcomes Tiny.runtime (delete_payload 3) Demo.db 3)))))
              eq_refl Hin3 eq_refl) as [Hdel _].
  rewrite Hdel. reflexivity.
Defined.

(** C9 as stated fails: a movie added with the price -0.0 is listed
    with the price 0.0, so that the listing holds no record with exactly
    the fields that were sent. *)
Lemma listing_shows_zero_for_negative_zero :
  storable free_entry /\
  add_movie (add_payload free_entry) Demo.db
  = (Done "Movie added", with_movie (stored 6 free_entry) Demo.db) /\
  listing (snd (add_movie (add_payload free_entry) Demo.db))
  = Movies (map movie_record (movies Demo.db) ++ [shown 6 free_entry])%list /\
  subscript (sent 6 free_entry) "ticket_price" = Ok (PFloat (S754_zero true)) /\
  subscript (shown 6 free_entry) "ticket_price" = Ok (PFloat (S754_zero false)) /\
  ~ In (sent 6 free_entry)
       (map movie_record (movies Demo.db) ++ [shown 6 free_entry])%list.
Proof.
  split; [repeat split | ]. split; [reflexivity | ]. split; [reflexivity | ].
  split; [reflexivity | ]. split; [reflexivity | ].
  cbv. intuition discriminate.
Qed.

Lemma catalog_round_trip_witness :
  (storable premiere /\ storable rerun /\ in_int64 6 = true) /\
  listing (snd (add_movie (add_payload premiere) Demo.db))
  = Movies (map movie_record (movies Demo.db) ++ [shown 6 premiere])%list /\
  listing (snd (update_movie (update_payload 6 rerun)
                  (snd (add_movie (add_payload premiere) Demo.db))))
  = Movies (map movie_record (movies Demo.db) ++ [shown 6 rerun])%list /\
  listing (snd (delete_movie (delete_payload 6)
                  (snd (update_movie (update_payload 6 rerun)
                          (snd (add_movie (add_payload premiere) Demo.db))))))
  = listing Demo.db /\
  shown 6 premiere = sent 6 premiere.
Proof.
  destruct forms_storable as (Hp & Hr & _).
  split; [repeat split | ].
  destruct (proj1 (proj2 (proj2 (proj2 (proj2 (@catalog_round_trip Tiny.runtime Demo.db)))))
           premiere rerun Hp Hr eq_refl) as (H1 & H2 & H3).
  split; [exact H1 | ]. split; [exact H2 | ]. split; [exact H3 | ].
  apply (proj1 (proj2 (proj2 (proj2 (proj2 (proj2
           (@catalog_round_trip Tiny.runtime Demo.db))))) 6 premiere)).
  split; discriminate.
Defined.

Lemma falsy_request_is_invalid_witness :
  (first_line "{}" = None /\ json_loads "{}" = Some (PDict []) /\
   In (PDict []) falsy_documents) /\
  client_thread quiet [("{}" ++ newline)%string] Demo.db
  = ([Send invalid_request], Demo.db).
Proof.
  split; [repeat split; left; reflexivity | ].
  apply (proj1 (proj2 (@falsy_request_is_invalid Tiny.runtime quiet Demo.db))
           "{}" (PDict [])); try reflexivity.
  left. reflexivity.
Defined.

End Closed.

(** ** Further properties of the server and of the client *)

(** *** Framing of a request *)

Section Framing.
Context `{Runtime}.

Lemma append_nil_r (s : string) : (s ++ "")%string = s.
Proof. induction s as [ | c s IH ]; simpl; [reflexivity | rewrite IH; reflexivity]. Qed.

Lemma append_assoc (a b c : string) :
  ((a ++ b) ++ c)%string = (a ++ b ++ c)%string.
Proof. induction a as [ | x a IH ]; simpl; [reflexivity | rewrite IH; reflexivity]. Qed.

Lemma append_empty (a b : string) :
  String.eqb (a ++ b) "" = String.eqb a "" && String.eqb b "".
Proof. destruct a; simpl; [reflexivity | reflexivity]. Qed.

Lemma first_line_app a b :
  first_line (a ++ b)
  = match first_line a with
    | Some line => Some line
    | None => option_map (append a) (first_line b)
    end.
Proof.
  induction a as [ | c a IH ]; simpl.
  - destruct (first_line b); reflexivity.
  - destruct (Ascii.eqb c "010"); [reflexivity | ].
    rewrite IH. destruct (first_line a); [reflexivity | ].
    destruct (first_line b); reflexivity.
Qed.

Lemma first_line_newline line rest :
  first_line line = None ->
  first_line (line ++ newline ++ rest) = Some line.
Proof.
  intros Hnone. rewrite first_line_app, Hnone. simpl. rewrite append_nil_r. reflexivity.
Qed.

Lemma recv_json_framed chunks : forall buffer,
  first_line buffer = None ->
  recv_json chunks buffer = framed (buffer ++ received chunks).
Proof.
  induction chunks as [ | chunk later IH ]; intros buffer Hbuf; simpl.
  - rewrite append_nil_r. unfold framed. rewrite Hbuf. reflexivity.
  - destruct (String.eqb chunk "") eqn:Hchunk.
    + rewrite append_nil_r. unfold framed. rewrite Hbuf. reflexivity.
    + destruct (first_line (buffer ++ chunk)) as [line | ] eqn:Hline.
      * unfold framed. rewrite <- append_assoc, first_line_app, Hline. reflexivity.
      * rewrite (IH _ Hline), append_assoc. reflexivity.
Qed.

(** X1. [recv_json] returns the decoding of the first line of what the
    peer sent, however the bytes are cut into chunks: a line followed by
    a newline is decoded alone and every byte after the newline is
    dropped; without a newline the whole of what was sent is decoded,
    and nothing at all gives [None]. *)
Theorem recv_json_reads_one_line :
  (forall chunks, recv_json chunks "" = framed (received chunks)) /\
  (forall chunks line rest,
     first_line line = None ->
     received chunks = (line ++ newline ++ rest)%string ->
     recv_json chunks "" = loads_or_none line) /\
  (forall chunks,
     first_line (received chunks) = None ->
     recv_json chunks ""
     = if String.eqb (received chunks) "" then PNone
       else loads_or_none (received chunks)) /\
  (forall chunks chunks',
     received chunks = received chunks' ->
     recv_json chunks "" = recv_json chunks' "").
Proof.
  assert (Hframed : forall chunks, recv_json chunks "" = framed (received chunks)).
  { intros chunks. apply (recv_json_framed chunks ""). reflexivity. }
  split; [exact Hframed | split; [ | split ] ].
  - intros chunks line rest Hline Hdata.
    rewrite Hframed, Hdata. unfold framed.
    rewrite (first_line_newline line rest Hline). reflexivity.
  - intros chunks Hnone. rewrite Hframed. unfold framed. rewrite Hnone. reflexivity.
  - intros chunks chunks' Hsame. rewrite !Hframed, Hsame. reflexivity.
Qed.

End Framing.

(** *** What a connection can do to the store *)

Section Steps.
Context `{Runtime}.

Lemma eq_str_true v text : eq_str v text = true -> v = PStr text.
Proof.
  destruct v; simpl; try discriminate. intros Heq.
  apply String.eqb_eq in Heq. subst. reflexivity.
Qed.

Lemma handle_request_handled e obj st out :
  handle_request e obj st = Ok out ->
  (exists a, action_of obj = Some a /\ handled e obj st a out) \/
  out = (Failed (Text "Unknown action"), st).
Proof.
  unfold handle_request, action_of. intros Hh.
  destruct (get obj "action" PNone) as [action | ex]; [ | discriminate ].
  cbn [bind] in Hh.
  destruct (eq_str action "list_movies") eqn:H1.
  { apply eq_str_true in H1. subst action. inversion Hh. left. eexists. split;
      [reflexivity | constructor]. }
  destruct (eq_str action "add_movie") eqn:H2.
  { apply eq_str_true in H2. subst action. inversion Hh. left. eexists. split;
      [reflexivity | constructor]. }
  destruct (eq_str action "update_movie") eqn:H3.
  { apply eq_str_true in H3. subst action. inversion Hh. left. eexists. split;
      [reflexivity | constructor]. }
  destruct (eq_str action "delete_movie") eqn:H4.
  { apply eq_str_true in H4. subst action. inversion Hh. left. eexists. split;
      [reflexivity | constructor]. }
  destruct (eq_str action "sell") eqn:H5.
  { apply eq_str_true in H5. subst action. inversion Hh. left. eexists. split;
      [reflexivity | constructor]. }
  inversion Hh. right. reflexivity.
Qed.

(** A property of pairs of stores that every writing handler keeps is
    kept by every connection. *)
Lemma client_thread_step (P : store -> store -> Prop) e chunks st :
  P st st ->
  (forall payload, P st (snd (add_movie payload st))) ->
  (forall payload, P st (snd (update_movie payload st))) ->
  (forall payload, P st (snd (delete_movie payload st))) ->
  (forall payload, P st (snd (sell_tickets e payload st))) ->
  P st (snd (client_thread e chunks st)).
Proof.
  intros Hsame Hadd Hupdate Hdelete Hsell. unfold client_thread.
  destruct (negb (truthy (recv_json chunks ""))); [exact Hsame | ].
  destruct (handle_request e (recv_json chunks "") st) as [[resp st'] | ex] eqn:Hh;
    [ | exact Hsame ].
  cbn [snd].
  destruct (handle_request_handled _ _ _ _ Hh) as [(a & _ & Hby) | Hout].
  - remember (resp, st') as out eqn:Hout.
    replace st' with (snd out) by (subst out; reflexivity).
    clear Hout Hh. destruct Hby; auto.
  - inversion Hout; subst. exact Hsame.
Qed.

End Steps.

(** *** Connections, the ledger and the ids *)

Section Connections.
Context `{Runtime}.

(** X2. A connection writes exactly one response, after the call of
    the dispatcher if there is one. It leaves the store as it was unless
    the request is a dictionary whose action is [add_movie],
    [update_movie], [delete_movie] or [sell]. A request that is not a
    dictionary but that Python takes for true (a non-empty array or
    string, a non-zero number, [true]) makes the dispatcher raise, and is
    answered with the text of the exception. *)
Theorem connection_answers_once e chunks st :
  (exists resp,
     fst (client_thread e chunks st) = [Send resp] \/
     fst (client_thread e chunks st)
     = [Dispatch (recv_json chunks ""); Send resp]) /\
  (snd (client_thread e chunks st) <> st ->
   exists a, action_of (recv_json chunks "") = Some a /\ In a writing_actions) /\
  (truthy (recv_json chunks "") = true ->
   (forall d, recv_json chunks "" <> PDict d) ->
   client_thread e chunks st
   = ([Dispatch (recv_json chunks ""); Send (Failed (Str AttributeError))], st)).
Proof.
  unfold client_thread.
  destruct (truthy (recv_json chunks "")) eqn:Htruthy; cbn [negb].
  - destruct (handle_request e (recv_json chunks "") st) as [[resp st'] | ex] eqn:Hh;
      cbn [fst snd].
    + split; [eexists; right; reflexivity | split ].
      * intros Hchanged.
        destruct (handle_request_handled _ _ _ _ Hh) as [(a & Ha & Hby) | Hout].
        -- exists a. split; [exact Ha | ].
           remember (resp, st') as out eqn:Hout.
           assert (Hst : snd out <> st) by (subst out; exact Hchanged).
           clear Hout Hh Hchanged. unfold writing_actions.
           destruct Hby; simpl; auto. exfalso. apply Hst. reflexivity.
        -- inversion Hout; subst. contradiction.
      * intros _ Hnodict. exfalso. revert Hh. unfold handle_request.
        destruct (recv_json chunks "") as [ | b | z | f | s | l | d ];
          try discriminate.
        exfalso. apply (Hnodict d). reflexivity.
    + split; [eexists; right; reflexivity | split ].
      * intros Hchanged. contradiction.
      * intros _ Hnodict. revert Hh. unfold handle_request.
        destruct (recv_json chunks "") as [ | b | z | f | s | l | d ];
          cbn [get bind]; intros Hh; inversion Hh; try reflexivity.
        exfalso. apply (Hnodict d). reflexivity.
  - cbn [fst snd]. split; [eexists; left; reflexivity | split ].
    + intros Hchanged. contradiction.
    + discriminate.
Qed.

Lemma add_movie_frame payload st :
  sales (snd (add_movie payload st)) = sales st /\
  movies_seq st <= movies_seq (snd (add_movie payload st)) /\
  (forall i, In i (map id (movies (snd (add_movie payload st)))) ->
             In i (map id (movies st)) \/ movies_seq st < i).
Proof.
  destruct (add_movie_cases payload st)
    as [(f & p & text & _ & _ & _ & ->) | (ex & ->)]; cbn [snd];
    [ | repeat split; auto; lia ].
  destruct (next_rowid_fresh id (movies st) (movies_seq st)) as [Hseq _].
  unfold with_movie. cbn [sales movies movies_seq id movie_of_params].
  split; [reflexivity | split; [lia | ] ].
  intros i Hi. rewrite map_app in Hi. apply in_app_or in Hi.
  destruct Hi as [Hi | [<- | []]]; [left; exact Hi | right; exact Hseq].
Qed.

Lemma update_movie_frame payload st :
  sales (snd (update_movie payload st)) = sales st /\
  movies_seq (snd (update_movie payload st)) = movies_seq st /\
  map id (movies (snd (update_movie payload st))) = map id (movies st).
Proof.
  destruct (update_movie_cases payload st)
    as [(ex & ->) | (f & p & i & _ & _ & _ & _ & [[_ ->] | (text & _ & _ & ->)])];
    cbn [snd]; auto.
  unfold with_movies. cbn [sales movies movies_seq].
  split; [reflexivity | split; [reflexivity | ] ].
  rewrite map_map. apply map_ext. intros r.
  destruct (id r =? i) eqn:Hi; [ | reflexivity ].
  apply Z.eqb_eq in Hi. symmetry. exact Hi.
Qed.

Lemma delete_movie_frame payload st :
  sales (snd (delete_movie payload st)) = sales st /\
  movies_seq (snd (delete_movie payload st)) = movies_seq st /\
  (forall r, In r (movies (snd (delete_movie payload st))) -> In r (movies st)).
Proof.
  destruct (delete_movie_cases payload st)
    as [(ex & ->) | (i & _ & _ & [[_ ->] | [_ ->]])]; cbn [snd]; auto.
  unfold with_movies. cbn [sales movies movies_seq].
  split; [reflexivity | split; [reflexivity | ] ].
  intros r Hr. apply filter_In in Hr. tauto.
Qed.

Lemma sell_tickets_frame e payload st :
  (sales (snd (sell_tickets e payload st)) = sales st \/
   exists s, sales (snd (sell_tickets e payload st)) = (sales st ++ [s])%list) /\
  movies_seq (snd (sell_tickets e payload st)) = movies_seq st /\
  map id (movies (snd (sell_tickets e payload st))) = map id (movies st).
Proof.
  destruct (sell_tickets_cases e payload st)
    as [[-> _] | (st' & mid & t & name & n & tot & Hs & -> & _)]; [auto | ].
  apply sell_transaction_commit in Hs.
  destruct Hs as (_ & _ & _ & _ & a & price & name' & _ & _ & _ & _ & _ & _ & _ & ->).
  split; [right; eexists; reflexivity | split; [reflexivity | ] ].
  apply ids_after_sale.
Qed.

Lemma client_thread_sales e chunks st :
  exists new,
    sales (snd (client_thread e chunks st)) = (sales st ++ new)%list /\
    (List.length new <= 1)%nat.
Proof.
  apply (client_thread_step
           (fun st st' => exists new,
              sales st' = (sales st ++ new)%list /\ (List.length new <= 1)%nat)).
  - exists []. rewrite app_nil_r. auto.
  - intros payload. exists []. rewrite app_nil_r.
    split; [apply add_movie_frame | auto].
  - intros payload. exists []. rewrite app_nil_r.
    split; [apply update_movie_frame | auto].
  - intros payload. exists []. rewrite app_nil_r.
    split; [apply delete_movie_frame | auto].
  - intros payload. destruct (sell_tickets_frame e payload st) as [[Hs | [s Hs]] _].
    + exists []. rewrite app_nil_r. auto.
    + exists [s]. auto.
Qed.

(** X3. The ledger is append-only: whatever connections the server
    handles, the sales it held are still there, unchanged and in the same
    order, followed by at most one new sale per connection; a connection
    that adds a sale carried a [sell] request. *)
Theorem ledger_only_grows :
  (forall conns st,
     exists new,
       sales (serve conns st) = (sales st ++ new)%list /\
       (List.length new <= List.length conns)%nat) /\
  (forall e chunks st,
     sales (snd (client_thread e chunks st)) <> sales st ->
     action_of (recv_json chunks "") = Some "sell").
Proof.
  split.
  - induction conns as [ | [e chunks] later IH ]; intros st; cbn [serve].
    + exists []. rewrite app_nil_r. auto.
    + destruct (client_thread_sales e chunks st) as (new1 & H1 & Hlen1).
      destruct (IH (snd (client_thread e chunks st))) as (new2 & H2 & Hlen2).
      exists (new1 ++ new2)%list. rewrite H2, H1, app_assoc, length_app.
      split; [reflexivity | simpl; lia].
  - intros e chunks st. unfold client_thread.
    destruct (negb (truthy (recv_json chunks ""))); cbn [snd]; [contradiction | ].
    destruct (handle_request e (recv_json chunks "") st) as [[resp st'] | ex] eqn:Hh;
      cbn [snd]; [ | contradiction ].
    intros Hchanged.
    destruct (handle_request_handled _ _ _ _ Hh) as [(a & Ha & Hby) | Hout].
    + remember (resp, st') as out eqn:Hout.
      assert (Hst : sales (snd out) <> sales st) by (subst out; exact Hchanged).
      clear Hout Hh Hchanged. rewrite Ha.
      destruct Hby; try reflexivity; exfalso; apply Hst.
      * reflexivity.
      * apply add_movie_frame.
      * apply update_movie_frame.
      * apply delete_movie_frame.
    + inversion Hout; subst. contradiction.
Qed.

End Connections.

(** *** Ids, and tickets against the ledger *)

Section Accounting.
Context `{Runtime}.

Lemma counted_ids st st' :
  counted st ->
  movies_seq st' = movies_seq st ->
  (forall i, In i (map id (movies st')) -> In i (map id (movies st))) ->
  counted st'.
Proof.
  unfold counted. intros [Hseq Hall] Hsame Hsub. rewrite Hsame.
  split; [exact Hseq | ]. rewrite Forall_forall in *. intros r Hr.
  specialize (Hsub (id r) (in_map id _ _ Hr)).
  apply in_map_iff in Hsub. destruct Hsub as (r0 & Hid & Hr0).
  rewrite <- Hid. apply Hall, Hr0.
Qed.

Lemma insert_movie_counted p st st' :
  insert_movie p st = Ok st' -> counted st -> counted st'.
Proof.
  unfold insert_movie. destruct (text_column (p_title p)) as [text | ];
    [ | discriminate ].
  intros Heq [Hseq Hall]. inversion Heq; subst; clear Heq.
  destruct (next_rowid_fresh id (movies st) (movies_seq st)) as [Hnew _].
  unfold counted. cbn [movies movies_seq].
  split; [lia | ]. apply Forall_app. split.
  - eapply Forall_impl; [ | exact Hall ]. cbn beta. intros; lia.
  - repeat constructor; cbn [id movie_of_params]; lia.
Qed.

Lemma insert_all_counted ps : forall st st',
  fold_left (fun acc p => (s <- acc;; insert_movie p s)%py) ps (Ok st) = Ok st' ->
  counted st -> counted st'.
Proof.
  induction ps as [ | p ps IH ]; simpl; intros st st' Hf Hc.
  - inversion Hf; subst. exact Hc.
  - destruct (insert_movie p st) as [s | ex] eqn:Hi.
    + eapply IH; [exact Hf | ]. eapply insert_movie_counted; eauto.
    + exfalso. clear - Hf. induction ps as [ | q ps IHq ]; simpl in Hf;
        [discriminate | auto].
Qed.

Lemma add_movie_counted payload st :
  counted st -> counted (snd (add_movie payload st)).
Proof.
  intros Hc. destruct (add_movie_cases payload st)
    as [(f & p & text & _ & _ & Ht & Heq) | (ex & ->)]; [ | exact Hc ].
  rewrite Heq. cbn [snd].
  apply (insert_movie_counted p st); [ | exact Hc ].
  unfold insert_movie. rewrite Ht. reflexivity.
Qed.

Lemma handler_counted e obj st a out :
  handled e obj st a out -> counted st -> counted (snd out).
Proof.
  intros Hby Hc. destruct Hby.
  - exact Hc.
  - apply add_movie_counted, Hc.
  - destruct (update_movie_frame obj st) as (_ & Hseq & Hids).
    apply (counted_ids st); [exact Hc | exact Hseq | ]. rewrite Hids. auto.
  - destruct (delete_movie_frame obj st) as (_ & Hseq & Hsub).
    apply (counted_ids st); [exact Hc | exact Hseq | ].
    intros i Hi. apply in_map_iff in Hi. destruct Hi as (r & <- & Hr).
    apply in_map, Hsub, Hr.
  - destruct (sell_tickets_frame e obj st) as (_ & Hseq & Hids).
    apply (counted_ids st); [exact Hc | exact Hseq | ]. rewrite Hids. auto.
Qed.

Lemma reachable_counted st : reachable st -> counted st.
Proof.
  induction 1 as [ | st st' _ IH Hinit | st e obj resp st' _ IH Hreq ].
  - split; [simpl; lia | constructor].
  - revert Hinit. unfold init_db. destruct (Nat.eqb _ 0).
    + intros Hf. eapply insert_all_counted; eauto.
    + intros Heq. inversion Heq; subst. exact IH.
  - destruct (handle_request_handled _ _ _ _ Hreq) as [(a & _ & Hby) | Hout].
    + apply (handler_counted _ _ _ _ _ Hby IH).
    + inversion Hout; subst. exact IH.
Qed.

Lemma later_refl st : later st st.
Proof. split; [lia | auto]. Qed.

Lemma later_trans st1 st2 st3 : later st1 st2 -> later st2 st3 -> later st1 st3.
Proof.
  intros [Hs12 Hi12] [Hs23 Hi23]. split; [lia | ].
  intros i Hi. destruct (Hi23 i Hi) as [Hin | Hnew].
  - apply Hi12, Hin.
  - right. lia.
Qed.

Lemma client_thread_later e chunks st :
  later st (snd (client_thread e chunks st)).
Proof.
  apply (client_thread_step later).
  - apply later_refl.
  - intros payload. destruct (add_movie_frame payload st) as (_ & Hseq & Hids).
    split; assumption.
  - intros payload. destruct (update_movie_frame payload st) as (_ & Hseq & Hids).
    split; [lia | ]. rewrite Hids. auto.
  - intros payload. destruct (delete_movie_frame payload st) as (_ & Hseq & Hsub).
    split; [lia | ]. intros i Hi. left.
    apply in_map_iff in Hi. destruct Hi as (r & <- & Hr). apply in_map, Hsub, Hr.
  - intros payload. destruct (sell_tickets_frame e payload st) as (_ & Hseq & Hids).
    split; [lia | ]. rewrite Hids. auto.
Qed.

Lemma serve_later conns : forall st, later st (serve conns st).
Proof.
  induction conns as [ | [e chunks] rest IH ]; intros st; cbn [serve].
  - apply later_refl.
  - eapply later_trans; [apply client_thread_later | apply IH].
Qed.

(** X4. Movie ids are never reused. In every store the server can be
    in, the ids of the table are positive and at most the AUTOINCREMENT
    counter; whatever connections follow, the counter does not go back
    and an id that is not in the table but is at most the counter (an id
    that was deleted, or never stored) is not in the table afterwards. *)
Theorem movie_ids_are_never_reused :
  (forall st,
     reachable st ->
     0 <= movies_seq st /\
     Forall (fun r => 0 < id r <= movies_seq st) (movies st)) /\
  (forall conns st, movies_seq st <= movies_seq (serve conns st)) /\
  (forall conns st i,
     i <= movies_seq st -> ~ present i st -> ~ present i (serve conns st)).
Proof.
  split; [ | split ].
  - intros st Hr. apply reachable_counted, Hr.
  - intros conns st. apply serve_later.
  - intros conns st i Hi Hout Hin. destruct (serve_later conns st) as [_ Hids].
    destruct (Hids i Hin) as [Hold | Hnew]; [contradiction | lia].
Qed.

Lemma ledger_total_app m rows s :
  ledger_total m (rows ++ [s])
  = ledger_total m rows + (if movie_id s =? m then number_of_tickets s else 0).
Proof.
  unfold ledger_total. induction rows as [ | r rows IH ]; simpl; [lia | ].
  rewrite IH. lia.
Qed.

Lemma sell_tickets_conserves m e payload st a :
  available m st = Some a ->
  exists a',
    available m (snd (sell_tickets e payload st)) = Some a' /\
    a' + ledger_total m (sales (snd (sell_tickets e payload st)))
    = a + ledger_total m (sales st).
Proof.
  intros Ha. destruct (sell_tickets_cases e payload st)
    as [[-> _] | (st' & mid & t & name & n & tot & Hs & -> & _)].
  - exists a. auto.
  - apply sell_transaction_commit in Hs.
    destruct Hs as (_ & _ & _ & _ & a0 & price & name' & _ & _ & _ & _ & _ & _ & _ & ->).
    rewrite available_after_sale, Ha.
    eexists. split; [reflexivity | ].
    change (sales (decrement_tickets n mid
                     (insert_sale mid name' n (bind_float tot) (sale_clock e) st)))
      with (sales st ++ [ {| sale_id := next_rowid sale_id (sales st) (sales_seq st);
                             movie_id := mid;
                             customer_name := text_column name';
                             number_of_tickets := n;
                             total := bind_float tot;
                             sale_time := sale_clock e |} ])%list.
    rewrite ledger_total_app. cbn [movie_id number_of_tickets].
    rewrite (Z.eqb_sym mid m). destruct (m =? mid); lia.
Qed.

(** X5. Tickets are conserved by sales: over any sequence of
    [sell_tickets] calls, what the count of a movie goes down by is
    exactly what the ledger gains for that movie, whether or not the
    receipt of a sale could be written. *)
Theorem sold_tickets_are_in_the_ledger m reqs : forall st a,
  available m st = Some a ->
  exists a',
    available m (sell_through reqs st) = Some a' /\
    a' + ledger_total m (sales (sell_through reqs st))
    = a + ledger_total m (sales st).
Proof.
  induction reqs as [ | [e payload] rest IH ]; intros st a Ha; cbn [sell_through].
  - exists a. auto.
  - destruct (sell_tickets_conserves m e payload st a Ha) as (a1 & Ha1 & Hsum1).
    destruct (IH _ _ Ha1) as (a2 & Ha2 & Hsum2).
    exists a2. split; [exact Ha2 | lia].
Qed.

(** X6. An accepted sale is recorded as answered: when [sell_tickets]
    answers ok, the ledger gains one row, under a sale id above every
    earlier one, with the movie id, the count and the time of the sale
    and with the total the response reports, which is the count times
    the price the movie had when the sale was made. *)
Theorem accepted_sale_is_recorded e payload st :
  status (fst (sell_tickets e payload st)) = "ok" ->
  exists m n a price t name count row,
    int_at payload "movie_id" = Ok m /\
    subscript payload "customer_name" = Ok name /\
    int_at payload "number_of_tickets" = Ok n /\
    select_movie m st = Some (a, Some price, t) /\
    float_of_int n = Ok count /\
    fst (sell_tickets e payload st)
    = Sold "Tickets sold"
        (sale_record m t name n (float_mul count price)) (receipt_name e m) /\
    sales (snd (sell_tickets e payload st)) = (sales st ++ [row])%list /\
    sales_seq (snd (sell_tickets e payload st)) = sale_id row /\
    sales_seq st < sale_id row /\
    Forall (fun s => sale_id s < sale_id row) (sales st) /\
    movie_id row = m /\ number_of_tickets row = n /\
    total row = bind_float (float_mul count price) /\
    sale_time row = sale_clock e.
Proof.
  intros Hok. destruct (sell_tickets_cases e payload st)
    as [[_ [msg Hmsg]] | (st' & mid & t & name & n & tot & Hs & Hst & Hresp)].
  - rewrite Hmsg in Hok. discriminate.
  - destruct Hresp as [[_ Hsold] | [_ Hfail]];
      [ | rewrite Hfail in Hok; discriminate ].
    apply sell_transaction_commit in Hs.
    destruct Hs as (Hm & Hname & Hn & _ & a & price & name' & Hsel & _ & Htimes
                    & _ & _ & _ & _ & Hst').
    unfold times in Htimes. destruct price as [price | ]; [ | discriminate ].
    destruct (float_of_int n) as [count | ex] eqn:Hcount; [ | discriminate ].
    cbn [bind] in Htimes. inversion Htimes; subst tot; clear Htimes.
    destruct (next_rowid_fresh sale_id (sales st) (sales_seq st)) as [Hseq Hall].
    exists mid, n, a, price, t, name, count.
    eexists. rewrite Hst, Hsold, Hst'.
    split; [exact Hm | ]. split; [exact Hname | ]. split; [exact Hn | ].
    split; [exact Hsel | ]. split; [exact Hcount | ]. split; [reflexivity | ].
    split; [reflexivity | ]. split; [reflexivity | ].
    cbn [sale_id]. split; [exact Hseq | ]. split; [exact Hall | ].
    repeat split.
Qed.

End Accounting.

(** *** Edge cases of the handlers *)

Section Edges.
Context `{Runtime}.

Lemma find_app_fresh i r rows :
  ~ In i (map id rows) -> id r = i ->
  find (fun r => id r =? i) (rows ++ [r]) = Some r.
Proof.
  intros Hout Hid. induction rows as [ | x rows IH ]; simpl.
  - rewrite Hid, Z.eqb_refl. reflexivity.
  - destruct (id x =? i) eqn:Hx.
    + apply Z.eqb_eq in Hx. exfalso. apply Hout. left. exact Hx.
    + apply IH. intros Hin. apply Hout. right. exact Hin.
Qed.

Lemma next_rowid_not_in st :
  ~ In (next_rowid id (movies st) (movies_seq st)) (map id (movies st)).
Proof.
  destruct (next_rowid_fresh id (movies st) (movies_seq st)) as [_ Hall].
  rewrite Forall_forall in Hall. intros Hin.
  apply in_map_iff in Hin. destruct Hin as (r & Hid & Hr).
  specialize (Hall r Hr). lia.
Qed.

(** X7. A movie whose price is not a number can be added but not sold.
    [add_movie] accepts a NaN price and stores NULL; [sell_tickets] on a
    movie whose price is NULL, for a count the tickets left cover, raises
    on the product of the count and the price, answers with an error and
    changes nothing. *)
Theorem unpriced_movie_cannot_be_sold :
  (forall m st,
     in_int64 (f_cinema_room m) = true ->
     in_int64 (f_tickets_available m) = true ->
     is_nan (f_ticket_price m) = true ->
     fst (add_movie (add_payload m) st) = Done "Movie added" /\
     select_movie (next_rowid id (movies st) (movies_seq st))
       (snd (add_movie (add_payload m) st))
     = Some (f_tickets_available m, None, f_title m)) /\
  (forall e payload st m name n a t,
     int_at payload "movie_id" = Ok m ->
     subscript payload "customer_name" = Ok name ->
     int_at payload "number_of_tickets" = Ok n ->
     in_int64 m = true ->
     select_movie m st = Some (a, None, t) ->
     0 < n -> n <= a ->
     sell_tickets e payload st = (Failed (Str TypeError), st)).
Proof.
  split.
  - intros m st Hroom Havail Hnan.
    assert (Hadd : add_movie (add_payload m) st
      = (Done "Movie added",
         with_movie
           {| id := next_rowid id (movies st) (movies_seq st);
              title := f_title m;
              cinema_room := f_cinema_room m;
              release_date := Some (f_release_date m);
              end_date := Some (f_end_date m);
              tickets_available := f_tickets_available m;
              ticket_price := None |} st)).
    { unfold add_movie. rewrite movie_fields_add_payload. cbn [bind].
      unfold bind_movie_fields. cbn [bind_param bind].
      rewrite (bind_int_in _ Hroom). cbn [bind].
      rewrite (bind_int_in _ Havail). cbn [bind].
      unfold bind_float. rewrite Hnan. reflexivity. }
    rewrite Hadd. split; [reflexivity | ].
    unfold select_movie, with_movie. cbn [snd movies].
    rewrite find_app_fresh; [reflexivity | apply next_rowid_not_in | reflexivity].
  - intros e payload st m name n a t Hm Hname Hn Hm64 Hsel Hpos Hle.
    unfold sell_tickets, sell_finish.
    rewrite (sell_tickets_fields e _ st _ _ _ Hm Hname Hn).
    replace (n <=? 0) with false by (symmetry; apply Z.leb_gt; exact Hpos).
    rewrite (bind_int_in m Hm64). cbn [bind]. rewrite Hsel.
    rewrite Z.gtb_ltb.
    replace (a <? n) with false by (symmetry; apply Z.ltb_ge; exact Hle).
    reflexivity.
Qed.

Lemma int_no_key_error v k : int v <> Raise (KeyError k).
Proof.
  destruct v as [ | [ | ] | z | f | s | l | d ]; simpl; try discriminate.
  - destruct f; simpl; discriminate.
  - destruct (int_of_str s); discriminate.
Qed.

Lemma to_float_no_key_error v k : to_float v <> Raise (KeyError k).
Proof.
  destruct v as [ | b | z | f | s | l | d ]; cbn [to_float]; try discriminate.
  - unfold float_of_int. destruct (binary_normalize _ _ _ _ _); discriminate.
  - unfold float_of_int. destruct (binary_normalize _ _ _ _ _); discriminate.
  - destruct (float_of_str s); discriminate.
Qed.

Lemma bind_param_no_key_error v k : bind_param v <> Raise (KeyError k).
Proof.
  destruct v; simpl; try discriminate. destruct (in_int64 z); discriminate.
Qed.

Lemma bind_int_no_key_error z k : bind_int z <> Raise (KeyError k).
Proof. unfold bind_int. destruct (in_int64 z); discriminate. Qed.

Lemma int_at_key_error d key k :
  int_at (PDict d) key = Raise (KeyError k) -> k = key /\ assoc key d = None.
Proof.
  unfold int_at, subscript. destruct (assoc key d) as [v | ]; cbn [bind].
  - intros Hraise. exfalso. exact (int_no_key_error v k Hraise).
  - intros Hraise. inversion Hraise. auto.
Qed.

Lemma float_at_key_error d key k :
  float_at (PDict d) key = Raise (KeyError k) -> k = key /\ assoc key d = None.
Proof.
  unfold float_at, subscript. destruct (assoc key d) as [v | ]; cbn [bind].
  - intros Hraise. exfalso. exact (to_float_no_key_error v k Hraise).
  - intros Hraise. inversion Hraise. auto.
Qed.

Lemma movie_fields_key_error d k :
  movie_fields (PDict d) = Raise (KeyError k) ->
  In k required_fields /\ assoc k d = None.
Proof.
  unfold movie_fields, required_fields.
  destruct (subscript (PDict d) "title") as [t | ex] eqn:Ht; cbn [bind].
  2:{ intros Hraise. inversion Hraise; subst ex. revert Ht. unfold subscript.
      destruct (assoc "title" d) eqn:Hd; intros Ht; inversion Ht; subst.
      split; [simpl; auto | exact Hd]. }
  destruct (int_at (PDict d) "cinema_room") as [room | ex] eqn:Hroom; cbn [bind].
  2:{ intros Hraise. inversion Hraise; subst ex.
      destruct (int_at_key_error _ _ _ Hroom) as [-> Hd]. split; [simpl; auto | exact Hd]. }
  cbn [get]. destruct (assoc "release_date" d); cbn [bind];
    destruct (assoc "end_date" d); cbn [bind];
    (destruct (int_at (PDict d) "tickets_available") as [avail | ex] eqn:Havail;
     cbn [bind];
     [ destruct (float_at (PDict d) "ticket_price") as [price | ex] eqn:Hprice;
       cbn [bind];
       [ discriminate
       | intros Hraise; inversion Hraise; subst ex;
         destruct (float_at_key_error _ _ _ Hprice) as [-> Hd];
         split; [simpl; auto | exact Hd] ]
     | intros Hraise; inversion Hraise; subst ex;
       destruct (int_at_key_error _ _ _ Havail) as [-> Hd];
       split; [simpl; auto | exact Hd] ]).
Qed.

Lemma bind_movie_fields_no_key_error f k :
  bind_movie_fields f <> Raise (KeyError k).
Proof.
  destruct f as [[[[[t room] rd] ed] avail] price]. unfold bind_movie_fields.
  pose proof (bind_param_no_key_error t k) as Ht.
  destruct (bind_param t); cbn [bind]; [ | congruence ].
  pose proof (bind_int_no_key_error room k) as Hroom.
  destruct (bind_int room); cbn [bind]; [ | congruence ].
  pose proof (bind_param_no_key_error rd k) as Hrd.
  destruct (bind_param rd); cbn [bind]; [ | congruence ].
  pose proof (bind_param_no_key_error ed k) as Hed.
  destruct (bind_param ed); cbn [bind]; [ | congruence ].
  pose proof (bind_int_no_key_error avail k) as Havail.
  destruct (bind_int avail); cbn [bind]; [ discriminate | congruence ].
Qed.

Lemma movie_fields_missing d k :
  In k required_fields -> assoc k d = None ->
  exists ex, movie_fields (PDict d) = Raise ex.
Proof.
  unfold required_fields, movie_fields, int_at, float_at, subscript.
  intros Hin Hd.
  destruct (assoc "title" d) as [t | ] eqn:H1; cbn [bind]; [ | eauto ].
  destruct (assoc "cinema_room" d) as [v2 | ] eqn:H2; cbn [bind]; [ | eauto ].
  destruct (int v2); cbn [bind]; [ | eauto ].
  cbn [get]. destruct (assoc "release_date" d); cbn [bind];
    destruct (assoc "end_date" d); cbn [bind];
    (destruct (assoc "tickets_available" d) as [v3 | ] eqn:H3; cbn [bind]; [ | eauto ];
     destruct (int v3); cbn [bind]; [ | eauto ];
     destruct (assoc "ticket_price" d) as [v4 | ] eqn:H4; cbn [bind]; [ | eauto ];
     exfalso; simpl in Hin;
     destruct Hin as [<- | [<- | [<- | [<- | []]]]]; congruence).
Qed.

(** X8. A missing field is reported by its name. When [add_movie] on a
    dictionary answers with a [KeyError], the key is one of [title],
    [cinema_room], [tickets_available], [ticket_price] and the request
    lacks it; a request that lacks any of these is answered with an error
    and stores nothing, and a request without [title] gets the
    [KeyError] of [title]. The two dates are optional: a movie added
    without them is stored with empty dates. *)
Theorem missing_field_is_reported d st :
  (forall k,
     fst (add_movie (PDict d) st) = Failed (Str (KeyError k)) ->
     In k required_fields /\ assoc k d = None) /\
  (forall k,
     In k required_fields -> assoc k d = None ->
     exists ex, add_movie (PDict d) st = (Failed (Str ex), st)) /\
  (assoc "title" d = None ->
   add_movie (PDict d) st = (Failed (Str (KeyError "title")), st)) /\
  (fst (add_movie (PDict d) st) = Done "Movie added" ->
   exists r,
     movies (snd (add_movie (PDict d) st)) = (movies st ++ [r])%list /\
     (assoc "release_date" d = None -> release_date r = Some "") /\
     (assoc "end_date" d = None -> end_date r = Some "")).
Proof.
  split; [ | split; [ | split ] ].
  - intros k. unfold add_movie.
    destruct (movie_fields (PDict d)) as [f | ex] eqn:Hf; cbn [bind].
    + destruct (bind_movie_fields f) as [p | ex] eqn:Hp; cbn [bind].
      * unfold insert_movie. destruct (text_column (p_title p)); discriminate.
      * cbn [fst]. intros Hraise. inversion Hraise; subst ex.
        exfalso. exact (bind_movie_fields_no_key_error f k Hp).
    + cbn [fst]. intros Hraise. inversion Hraise; subst ex.
      apply movie_fields_key_error, Hf.
  - intros k Hin Hd. destruct (movie_fields_missing d k Hin Hd) as [ex Hf].
    exists ex. unfold add_movie. rewrite Hf. reflexivity.
  - intros Hd. unfold add_movie, movie_fields, subscript. rewrite Hd. reflexivity.
  - intros Hok. destruct (add_movie_cases (PDict d) st)
      as [(f & p & text & Hf & Hp & _ & Hadd) | (ex & Hadd)];
      rewrite Hadd in *; [ | discriminate ].
    eexists. split; [reflexivity | ]. cbn [release_date end_date movie_of_params].
    revert Hf. unfold movie_fields. intros Hf.
    inv_bind Hf. inv_bind Hf. cbn [get] in Hf.
    destruct f as [[[[[t room] rd] ed] avail] price]. unfold bind_movie_fields in Hp.
    inv_bind Hp. inv_bind Hp. inv_bind Hp. inv_bind Hp. inv_bind Hp.
    inversion Hp; subst p; clear Hp. cbn [p_release_date p_end_date].
    split; intros Hd; rewrite Hd in Hf; cbn [bind] in Hf.
    + destruct (assoc "end_date" d); cbn [bind] in Hf;
        inv_bind Hf; inv_bind Hf; inversion Hf; subst;
        match goal with
        | Hb : bind_param (PStr "") = Ok ?x |- text_column ?x = _ =>
            inversion Hb; reflexivity
        end.
    + destruct (assoc "release_date" d); cbn [bind] in Hf;
        inv_bind Hf; inv_bind Hf; inversion Hf; subst;
        match goal with
        | Hb : bind_param (PStr "") = Ok ?x |- text_column ?x = _ =>
            inversion Hb; reflexivity
        end.
Qed.

End Edges.

(** *** Requests sent twice, and the first start *)

Section Repeats.
Context `{Runtime}.

Lemma rowcount_map_keep (f : movie -> movie) i rows :
  (forall r, id (f r) = id r) -> rowcount i (map f rows) = rowcount i rows.
Proof.
  intros Hf. unfold rowcount. induction rows as [ | r rows IH ]; simpl;
    [reflexivity | ].
  rewrite Hf. destruct (id r =? i); simpl; rewrite IH; reflexivity.
Qed.

Lemma map_replace_twice i (r' : movie) rows :
  id r' = i ->
  map (fun r => if id r =? i then r' else r)
      (map (fun r => if id r =? i then r' else r) rows)
  = map (fun r => if id r =? i then r' else r) rows.
Proof.
  intros Hid. rewrite map_map. apply map_ext. intros r.
  destruct (id r =? i) eqn:Hr.
  - rewrite Hid, Z.eqb_refl. reflexivity.
  - rewrite Hr. reflexivity.
Qed.

Lemma filter_gone i rows :
  ~ In i (map id (filter (fun r => negb (id r =? i)) rows)).
Proof.
  intros Hin. apply in_map_iff in Hin. destruct Hin as (r & Hid & Hr).
  apply filter_In in Hr. destruct Hr as [_ Hr].
  rewrite Hid, Z.eqb_refl in Hr. discriminate.
Qed.

(** X9. Requests sent twice. [update_movie] is idempotent: the same
    request a second time leaves the store the first one left.
    [delete_movie] is not answered twice alike: after a delete that
    succeeded the same request is answered "Movie id not found" and
    changes nothing. [add_movie] never overwrites: the same request a
    second time stores a second movie. *)
Theorem requests_sent_twice payload st :
  snd (update_movie payload (snd (update_movie payload st)))
  = snd (update_movie payload st) /\
  (fst (delete_movie payload st) = Done "Movie deleted" ->
   delete_movie payload (snd (delete_movie payload st))
   = (Failed (Text "Movie id not found"), snd (delete_movie payload st))) /\
  (fst (add_movie payload st) = Done "Movie added" ->
   fst (add_movie payload (snd (add_movie payload st))) = Done "Movie added" /\
   List.length (movies (snd (add_movie payload (snd (add_movie payload st)))))
   = S (S (List.length (movies st)))).
Proof.
  split; [ | split ].
  - destruct (update_movie_cases payload st)
      as [(ex & Hu) | (f & p & i & Hf & Hp & Hid & Hi & [[_ Hu] | (text & Hin & Ht & Hu)])];
      rewrite Hu; cbn [snd]; try (rewrite Hu; reflexivity).
    unfold update_movie. rewrite Hf, Hid. cbn [bind]. rewrite Hp. cbn [bind].
    rewrite (bind_int_in i Hi). cbn [bind]. unfold update_movie_rows.
    cbn [with_movies movies].
    rewrite rowcount_map_keep
      by (intros r; destruct (id r =? i) eqn:Hr;
          [apply Z.eqb_eq in Hr; symmetry; exact Hr | reflexivity]).
    destruct (rowcount i (movies st)) as [ | c ] eqn:Hc.
    + apply rowcount_absent in Hc. contradiction.
    + rewrite Ht. cbn [Nat.eqb snd movies_seq sales sales_seq].
      rewrite map_replace_twice by reflexivity. reflexivity.
  - intros Hok. destruct (delete_movie_cases payload st)
      as [(ex & Hd) | (i & Hid & Hi & [[_ Hd] | [Hin Hd]])];
      rewrite Hd in *; try discriminate. cbn [snd].
    unfold delete_movie. rewrite Hid. cbn [bind].
    rewrite (bind_int_in i Hi). cbn [bind]. unfold delete_movie_rows.
    cbn [with_movies movies movies_seq sales sales_seq].
    replace (rowcount i (filter (fun r => negb (id r =? i)) (movies st))) with O
      by (symmetry; apply rowcount_absent, filter_gone).
    rewrite (filter_absent i _ (filter_gone i (movies st))). reflexivity.
  - intros Hok. destruct (add_movie_cases payload st)
      as [(f & p & text & Hf & Hp & Ht & Hadd) | (ex & Hadd)];
      rewrite Hadd in *; [ | discriminate ]. cbn [snd].
    unfold add_movie. rewrite Hf. cbn [bind]. rewrite Hp. cbn [bind].
    unfold insert_movie. rewrite Ht. cbn [fst snd movies with_movie].
    split; [reflexivity | ]. rewrite !length_app. simpl. lia.
Qed.

Lemma insert_sample name room price st :
  insert_movie (sample_row name room price) st
  = Ok (with_movie
          (movie_of_params (next_rowid id (movies st) (movies_seq st)) name
             (sample_row name room price)) st).
Proof. reflexivity. Qed.

(** X10. [init_db] seeds only an empty table. On a store that has
    movies it changes nothing. On a store without movies it inserts the
    five samples, each with 100 tickets, under the five ids that follow
    the AUTOINCREMENT counter (so ids of deleted movies are not given
    again), and leaves the sales as they were. Running it a second time
    changes nothing. *)
Theorem init_db_seeds_an_empty_table st :
  (movies st <> [] -> init_db st = Ok st) /\
  (movies st = [] ->
   exists st',
     init_db st = Ok st' /\
     map title (movies st')
     = ["The Matrix"; "The One"; "Mabiba"; "Phoenix"; "The Pump"] /\
     map id (movies st')
     = map (fun k => Z.max (movies_seq st) 0 + k) [1; 2; 3; 4; 5] /\
     map tickets_available (movies st') = [100; 100; 100; 100; 100] /\
     movies_seq st' = Z.max (movies_seq st) 0 + 5 /\
     sales st' = sales st /\ sales_seq st' = sales_seq st) /\
  (forall st', init_db st = Ok st' -> init_db st' = Ok st').
Proof.
  assert (Hfull : forall s, movies s <> [] -> init_db s = Ok s).
  { intros s Hs. unfold init_db. destruct (movies s); [contradiction | reflexivity]. }
  assert (Hempty : movies st = [] ->
   exists st',
     init_db st = Ok st' /\
     map title (movies st')
     = ["The Matrix"; "The One"; "Mabiba"; "Phoenix"; "The Pump"] /\
     map id (movies st')
     = map (fun k => Z.max (movies_seq st) 0 + k) [1; 2; 3; 4; 5] /\
     map tickets_available (movies st') = [100; 100; 100; 100; 100] /\
     movies_seq st' = Z.max (movies_seq st) 0 + 5 /\
     sales st' = sales st /\ sales_seq st' = sales_seq st).
  { intros Hnone. destruct st as [rows seq ledger lseq]. cbn [movies] in Hnone.
    subst rows. unfold init_db, sample.
    cbn [movies List.length Nat.eqb fold_left bind].
    rewrite !insert_sample. cbn [bind].
    eexists. split; [reflexivity | ].
    unfold with_movie, next_rowid, max_rowid.
    cbn [movies movies_seq sales sales_seq app map fold_right id title
         tickets_available movie_of_params sample_row p_tickets_available].
    remember (Z.max seq 0) as s eqn:Hs.
    assert (Hpos : 0 <= s) by lia. clear Hs.
    repeat match goal with
           | |- context [Z.max ?a ?b] =>
               first [ rewrite (Z.max_l a b) by lia
                     | rewrite (Z.max_r a b) by lia ]
           end.
    split; [reflexivity | ]. split; [ | split; [reflexivity | ] ].
    - repeat (apply f_equal2; [lia | ]). reflexivity.
    - split; [lia | split; reflexivity]. }
  split; [apply Hfull | split; [exact Hempty | ] ].
  intros st' Hinit. destruct (movies st) as [ | r rows ] eqn:Hrows.
  - destruct (Hempty eq_refl) as (st1 & Hinit1 & Htitles & _).
    rewrite Hinit in Hinit1. inversion Hinit1; subst st1.
    apply Hfull. intros Hnone. rewrite Hnone in Htitles. discriminate.
  - assert (Hsame : init_db st = Ok st)
      by (apply Hfull; rewrite Hrows; discriminate).
    rewrite Hinit in Hsame. inversion Hsame; subst st'. exact Hinit.
Qed.

End Repeats.

(** *** The client's selector *)

Section Selection.
Context `{Runtime} `{Gui.Display}.
Import Gui.

Lemma before_colon_app s rest :
  before_colon s = s ->
  before_colon (s ++ String ":"%char rest) = s.
Proof.
  induction s as [ | c s IH ]; simpl; [reflexivity | ].
  destruct (Ascii.eqb c ":"%char); [discriminate | ].
  intros Heq. inversion Heq as [Hs]. rewrite Hs. rewrite (IH Hs). reflexivity.
Qed.

Lemma digits_have_no_colon u :
  before_colon (NilEmpty.string_of_uint u) = NilEmpty.string_of_uint u.
Proof.
  induction u as [ | u IH | u IH | u IH | u IH | u IH | u IH | u IH | u IH
                   | u IH | u IH ]; simpl; rewrite ?IH; reflexivity.
Qed.

Lemma str_of_int_has_no_colon z : before_colon (str_of_int z) = str_of_int z.
Proof.
  unfold str_of_int, NilZero.string_of_int, NilZero.string_of_uint.
  destruct (Z.to_int z) as [u | u].
  - destruct u; try reflexivity; apply digits_have_no_colon.
  - change (before_colon (String "-"%char ?s)) with (String "-"%char (before_colon s)).
    destruct u; try reflexivity;
      cbn [before_colon]; simpl Ascii.eqb; cbv iota;
      f_equal; apply digits_have_no_colon.
Qed.

Lemma str_of_int_not_empty z rest :
  String.eqb (str_of_int z ++ rest) "" = false.
Proof.
  unfold str_of_int, NilZero.string_of_int, NilZero.string_of_uint.
  destruct (Z.to_int z) as [u | u]; [ | reflexivity ].
  destruct u; reflexivity.
Qed.

Lemma combo_item_record r :
  combo_item (movie_record r)
  = Ok (str_of_int (id r) ++ ": " ++ title r ++ " (avail "
        ++ str_of_int (tickets_available r) ++ ")")%string.
Proof. reflexivity. Qed.

Lemma sell_tickets_finds e m name count st :
  In m (map id (movies st)) -> in_int64 m = true ->
  fst (sell_tickets e (sell_payload m name count) st)
  <> Failed (Text "Movie not found").
Proof.
  intros Hin Hm64.
  destruct (int_at_sell_payload m name count) as (F1 & F2 & F3).
  unfold sell_tickets, sell_finish. rewrite (sell_tickets_fields e _ st _ _ _ F1 F2 F3).
  destruct (count <=? 0); [cbn [fst]; discriminate | ].
  rewrite (bind_int_in m Hm64). cbn [bind].
  unfold select_movie.
  destruct (find (fun r => id r =? m) (movies st)) as [r | ] eqn:Hfind.
  - destruct (count >? tickets_available r); [cbn [fst]; discriminate | ].
    match goal with
    | |- fst (match ?c with _ => _ end) <> _ =>
        destruct c as [[resp | [st' [[[[mid t] nm] k] tot]]] | ex] eqn:Hc
    end.
    + exfalso. revert Hc.
      destruct (times count (ticket_price r)); cbn [bind]; [ | discriminate ].
      destruct (bind_param (PStr name)); cbn [bind]; [ | discriminate ].
      destruct (bind_int count); cbn [bind]; [ | discriminate ].
      destruct (run_step e AtInsertSale); cbn [bind]; [ | discriminate ].
      destruct (run_step e AtDecrement); cbn [bind]; [ | discriminate ].
      destruct (run_step e AtCommit); cbn [bind]; discriminate.
    + destruct (run_step e AtReceipt); cbn [fst]; discriminate.
    + cbn [fst]. discriminate.
  - apply find_none_absent in Hfind. contradiction.
Qed.

(** X11. The selector recovers the movie. The entry [refresh_movies]
    shows for a record of the listing starts with the id, and the text
    before its first colon is the decimal id whatever the title is, also
    a title with colons. When [int] reads the decimal text of the id
    back, the id the client takes from the selected entry is the id of
    the record and [buy_tickets] sends the sale request for that id; the
    server, if the movie is still in its table, does not answer "Movie
    not found". *)
Theorem selection_recovers_the_movie r :
  combo_item (movie_record r)
  = Ok (str_of_int (id r) ++ ": " ++ title r ++ " (avail "
        ++ str_of_int (tickets_available r) ++ ")")%string /\
  (forall item,
     combo_item (movie_record r) = Ok item ->
     before_colon item = str_of_int (id r)) /\
  (int_of_str (str_of_int (id r)) = Some (id r) ->
   forall item,
     combo_item (movie_record r) = Ok item ->
     selected_id item = Ok (id r) /\
     (forall customer_name ticket_count count,
        int_of_str ticket_count = Some count ->
        buy_tickets item customer_name ticket_count
        = Some (sell_payload (id r) (strip customer_name) count))) /\
  (forall e st name count,
     In r (movies st) -> in_int64 (id r) = true ->
     fst (sell_tickets e (sell_payload (id r) name count) st)
     <> Failed (Text "Movie not found")).
Proof.
  assert (Hcolon : forall item,
     combo_item (movie_record r) = Ok item ->
     before_colon item = str_of_int (id r)).
  { intros item Hitem. rewrite combo_item_record in Hitem.
    inversion Hitem; subst item; clear Hitem.
    apply before_colon_app, str_of_int_has_no_colon. }
  split; [apply combo_item_record | split; [exact Hcolon | split ] ].
  - intros Hread item Hitem.
    assert (Hid : selected_id item = Ok (id r)).
    { unfold selected_id. rewrite (Hcolon item Hitem). cbn [int].
      rewrite Hread. reflexivity. }
    split; [exact Hid | ].
    intros customer_name ticket_count count Hcount.
    unfold buy_tickets. rewrite Hid. cbn [bind int]. rewrite Hcount.
    rewrite combo_item_record in Hitem. inversion Hitem; subst item.
    rewrite str_of_int_not_empty. reflexivity.
  - intros e st name count Hin Hm64.
    apply sell_tickets_finds; [apply in_map, Hin | exact Hm64].
Qed.

End Selection.

(** *** Receipt files *)

Section Receipts.

Lemma append_cancel_l (a x y : string) :
  (a ++ x)%string = (a ++ y)%string -> x = y.
Proof.
  induction a as [ | c a IH ]; simpl; intros Heq; [exact Heq | ].
  inversion Heq. auto.
Qed.

Lemma length_append (a b : string) :
  String.length (a ++ b) = (String.length a + String.length b)%nat.
Proof. induction a as [ | c a IH ]; simpl; [reflexivity | rewrite IH; reflexivity]. Qed.

Lemma append_cancel_r (c : string) : forall a b : string,
  (a ++ c)%string = (b ++ c)%string -> a = b.
Proof.
  induction a as [ | x a IH ]; intros [ | y b ] Heq; simpl in Heq.
  - reflexivity.
  - apply (f_equal String.length) in Heq. simpl in Heq.
    rewrite length_append in Heq. lia.
  - apply (f_equal String.length) in Heq. simpl in Heq.
    rewrite length_append in Heq. lia.
  - inversion Heq. f_equal. auto.
Qed.

Lemma to_int_readable z :
  NilZero.int_of_string (NilZero.string_of_int (Z.to_int z)) = Some (Z.to_int z).
Proof.
  apply NilZero.isi; destruct z as [ | p | p ]; simpl; try discriminate;
    intros Heq; inversion Heq as [Hnil];
    exact (DecimalPos.Unsigned.to_uint_nonnil p Hnil).
Qed.

Lemma str_of_int_inj a b : str_of_int a = str_of_int b -> a = b.
Proof.
  unfold str_of_int. intros Heq.
  apply (f_equal NilZero.int_of_string) in Heq.
  rewrite !to_int_readable in Heq. inversion Heq as [Hint].
  apply DecimalZ.to_int_inj, Hint.
Qed.

(** X12. Receipt files are told apart by the second and the movie
    only: two sales whose receipts are stamped with the same second get
    the same receipt path exactly when they are sales of the same movie,
    whoever the customers are and whatever the counts. *)
Theorem receipts_of_one_second e e' m m' :
  receipt_clock e = receipt_clock e' ->
  (receipt_name e m = receipt_name e' m' <-> m = m').
Proof.
  intros Hclock. unfold receipt_name. rewrite Hclock. split.
  - intros Heq.
    apply append_cancel_l, append_cancel_l, append_cancel_l, append_cancel_l in Heq.
    apply append_cancel_r in Heq. apply str_of_int_inj, Heq.
  - intros ->. reflexivity.
Qed.

End Receipts.

(** *** Two sales at once *)

Section Racing.
Context `{Runtime}.

(** The check of one of the client's requests that the tickets left
    cover. *)
Lemma sell_check_covered m name k st a price t :
  select_movie m st = Some (a, Some price, t) ->
  in_int64 m = true -> in_int64 a = true -> 0 < k -> k <= a ->
  sell_check (sell_payload m name k) st
  = Ok (inr (m, t, PStr name, k, float_mul (float_lit k) price)).
Proof.
  intros Hsel Hm Ha Hk Hka. unfold sell_check.
  destruct (int_at_sell_payload m name k) as (F1 & F2 & F3).
  rewrite F1, F2, F3. cbn [bind].
  replace (k <=? 0) with false by (symmetry; apply Z.leb_gt; exact Hk).
  rewrite (bind_int_in m Hm). cbn [bind]. rewrite Hsel.
  rewrite Z.gtb_ltb.
  replace (a <? k) with false by (symmetry; apply Z.ltb_ge; exact Hka).
  destruct (in_int64_between a k Ha Hk Hka) as [Hk64 _].
  unfold times. rewrite (float_of_int_int64 k Hk64). reflexivity.
Qed.

(** The check of one that they do not cover. *)
Lemma sell_check_short m name k st a price t :
  select_movie m st = Some (a, price, t) ->
  in_int64 m = true -> 0 < k -> a < k ->
  sell_check (sell_payload m name k) st
  = Ok (inl (Failed (Text ("Not enough tickets (available "
                           ++ str_of_int a ++ ")")))).
Proof.
  intros Hsel Hm Hk Hka. unfold sell_check.
  destruct (int_at_sell_payload m name k) as (F1 & F2 & F3).
  rewrite F1, F2, F3. cbn [bind].
  replace (k <=? 0) with false by (symmetry; apply Z.leb_gt; exact Hk).
  rewrite (bind_int_in m Hm). cbn [bind]. rewrite Hsel.
  rewrite Z.gtb_ltb.
  replace (a <? k) with true by (symmetry; apply Z.ltb_lt; exact Hka).
  reflexivity.
Qed.

Lemma advance_covered e m name k st a price t :
  select_movie m st = Some (a, Some price, t) ->
  in_int64 m = true -> in_int64 a = true -> 0 < k -> k <= a ->
  advance (Arrived e (sell_payload m name k)) st
  = (Checked e (m, t, PStr name, k, float_mul (float_lit k) price), st).
Proof.
  intros Hsel Hm Ha Hk Hka. cbn [advance].
  rewrite (sell_check_covered m name k st a price t Hsel Hm Ha Hk Hka).
  reflexivity.
Qed.

Lemma advance_short e m name k st a price t :
  select_movie m st = Some (a, price, t) ->
  in_int64 m = true -> 0 < k -> a < k ->
  advance (Arrived e (sell_payload m name k)) st
  = (Answered (Failed (Text ("Not enough tickets (available "
                             ++ str_of_int a ++ ")"))), st).
Proof.
  intros Hsel Hm Hk Hka. cbn [advance].
  rewrite (sell_check_short m name k st a price t Hsel Hm Hk Hka).
  reflexivity.
Qed.

(** The transaction and the answer of a sale in normal operation, on
    whatever database it finds. *)
Lemma advance_checked e m t name k tot st :
  in_int64 m = true -> in_int64 k = true -> fault e = None ->
  advance (Checked e (m, t, PStr name, k, tot)) st
  = (Answered (Sold "Tickets sold" (sale_record m t (PStr name) k tot)
                 (receipt_name e m)),
     decrement_tickets k m
       (insert_sale m (SText name) k (bind_float tot) (sale_clock e) st)).
Proof.
  intros Hm Hk Hq. cbn [advance sell_write].
  rewrite (bind_int_in m Hm). cbn [bind bind_param].
  rewrite (bind_int_in k Hk). cbn [bind].
  rewrite !run_step_quiet by assumption. cbn [bind sell_finish].
  rewrite run_step_quiet by assumption. reflexivity.
Qed.

Lemma sales_after_sale n m name k tot time st :
  sales (decrement_tickets n m (insert_sale m name k tot time st))
  = (sales st ++ [ {| sale_id := next_rowid sale_id (sales st) (sales_seq st);
                      movie_id := m;
                      customer_name := text_column name;
                      number_of_tickets := k;
                      total := tot;
                      sale_time := time |} ])%list.
Proof. reflexivity. Qed.

Lemma negative_count_not_nonneg m st a :
  available m st = Some a -> a < 0 -> ~ nonneg st.
Proof.
  unfold available. intros Ha Hneg Hn.
  destruct (select_movie m st) as [[[a' p] t] | ] eqn:Hsel; [ | discriminate ].
  inversion Ha; subst a'.
  destruct (select_movie_in _ _ _ _ _ Hsel) as (r & Hr & _ & Hcount).
  unfold nonneg in Hn. rewrite Forall_forall in Hn.
  specialize (Hn r Hr). lia.
Qed.

(** The bound of the ids by the counter is kept however the steps of
    the connections are scheduled. *)
Lemma interleave_counted schedule : forall conns st,
  counted st -> counted (snd (interleave schedule conns st)).
Proof.
  induction schedule as [ | k rest IH ]; intros conns st Hc; cbn [interleave];
    [exact Hc | ].
  destruct (nth_error conns k) as [t | ]; [ | apply IH; exact Hc ].
  destruct (advance_store t st)
    as [-> | (e & mid & title & name & n & tot & name' & _ & ->)];
    apply IH; [exact Hc | ].
  apply (counted_ids st); [exact Hc | reflexivity | ].
  intros i Hi. rewrite ids_after_sale in Hi. exact Hi.
Qed.

(** C1, where the code departs from it. Two connections ask for [n1]
    and [n2] tickets of a movie that has [a] left, each count being at
    most [a]. When both run their SELECT before either runs its
    transaction, both sales are accepted, the ledger has both, and the
    count of the movie ends at [a - n1 - n2], which is below zero as
    soon as [n1 + n2] is more than [a]. When the second connection
    starts after the first has finished, the second sale is refused for
    want of tickets and the count ends at [a - n1]. *)
Theorem concurrent_sales_oversell m t price a e1 e2 name1 name2 n1 n2 st :
  select_movie m st = Some (a, Some price, t) ->
  in_int64 m = true -> in_int64 a = true ->
  fault e1 = None -> fault e2 = None ->
  0 < n1 <= a -> 0 < n2 <= a ->
  let conns := [ Arrived e1 (sell_payload m name1 n1);
                 Arrived e2 (sell_payload m name2 n2) ] in
  let both := interleave [0; 1; 0; 1]%nat conns st in
  let queued := interleave [0; 0; 1; 1]%nat conns st in
  (fst both
   = [ Answered (Sold "Tickets sold"
                   (sale_record m t (PStr name1) n1 (float_mul (float_lit n1) price))
                   (receipt_name e1 m));
       Answered (Sold "Tickets sold"
                   (sale_record m t (PStr name2) n2 (float_mul (float_lit n2) price))
                   (receipt_name e2 m)) ] /\
   available m (snd both) = Some (a - n1 - n2) /\
   ledger_total m (sales (snd both)) = ledger_total m (sales st) + n1 + n2 /\
   (a < n1 + n2 -> ~ nonneg (snd both))) /\
  (a < n1 + n2 ->
   fst queued
   = [ Answered (Sold "Tickets sold"
                   (sale_record m t (PStr name1) n1 (float_mul (float_lit n1) price))
                   (receipt_name e1 m));
       Answered (Failed (Text ("Not enough tickets (available "
                               ++ str_of_int (a - n1) ++ ")"))) ] /\
   available m (snd queued) = Some (a - n1) /\
   ledger_total m (sales (snd queued)) = ledger_total m (sales st) + n1).
Proof.
  intros Hsel Hm Ha Hq1 Hq2 [Hpos1 Hle1] [Hpos2 Hle2] conns both queued.
  destruct (in_int64_between a n1 Ha Hpos1 Hle1) as [H1 Hrest].
  destruct (in_int64_between a n2 Ha Hpos2 Hle2) as [H2 _].
  assert (Hav : available m st = Some a).
  { unfold available. rewrite Hsel. reflexivity. }
  split.
  - assert (Hboth : both
      = ([ Answered (Sold "Tickets sold"
                       (sale_record m t (PStr name1) n1 (float_mul (float_lit n1) price))
                       (receipt_name e1 m));
           Answered (Sold "Tickets sold"
                       (sale_record m t (PStr name2) n2 (float_mul (float_lit n2) price))
                       (receipt_name e2 m)) ],
         decrement_tickets n2 m
           (insert_sale m (SText name2) n2
              (bind_float (float_mul (float_lit n2) price)) (sale_clock e2)
              (decrement_tickets n1 m
                 (insert_sale m (SText name1) n1
                    (bind_float (float_mul (float_lit n1) price)) (sale_clock e1)
                    st))))).
    { unfold both, conns. cbn [interleave nth_error].
      rewrite (advance_covered e1 m name1 n1 st a price t Hsel Hm Ha Hpos1 Hle1).
      cbn [fst snd set_nth nth_error].
      rewrite (advance_covered e2 m name2 n2 st a price t Hsel Hm Ha Hpos2 Hle2).
      cbn [fst snd set_nth nth_error].
      rewrite (advance_checked e1 m t name1 n1 _ st Hm H1 Hq1).
      cbn [fst snd set_nth nth_error].
      rewrite (advance_checked e2 m t name2 n2 _ _ Hm H2 Hq2).
      reflexivity. }
    rewrite Hboth. cbn [fst snd].
    assert (Hleft : available m
              (decrement_tickets n2 m
                 (insert_sale m (SText name2) n2
                    (bind_float (float_mul (float_lit n2) price)) (sale_clock e2)
                    (decrement_tickets n1 m
                       (insert_sale m (SText name1) n1
                          (bind_float (float_mul (float_lit n1) price))
                          (sale_clock e1) st))))
            = Some (a - n1 - n2)).
    { rewrite !available_after_sale, Hav, Z.eqb_refl. reflexivity. }
    split; [reflexivity | ]. split; [exact Hleft | ]. split.
    + rewrite !sales_after_sale, !ledger_total_app.
      cbn [movie_id number_of_tickets]. rewrite Z.eqb_refl. lia.
    + intros Hover. apply (negative_count_not_nonneg m _ _ Hleft). lia.
  - intros Hover.
    assert (Hsel1 : select_movie m
              (decrement_tickets n1 m
                 (insert_sale m (SText name1) n1
                    (bind_float (float_mul (float_lit n1) price)) (sale_clock e1) st))
            = Some (a - n1, Some price, t)).
    { rewrite select_after_sale, Hsel, Z.eqb_refl. reflexivity. }
    assert (Hturn : queued
      = ([ Answered (Sold "Tickets sold"
                       (sale_record m t (PStr name1) n1 (float_mul (float_lit n1) price))
                       (receipt_name e1 m));
           Answered (Failed (Text ("Not enough tickets (available "
                                   ++ str_of_int (a - n1) ++ ")"))) ],
         decrement_tickets n1 m
           (insert_sale m (SText name1) n1
              (bind_float (float_mul (float_lit n1) price)) (sale_clock e1) st))).
    { unfold queued, conns. cbn [interleave nth_error].
      rewrite (advance_covered e1 m name1 n1 st a price t Hsel Hm Ha Hpos1 Hle1).
      cbn [fst snd set_nth nth_error].
      rewrite (advance_checked e1 m t name1 n1 _ st Hm H1 Hq1).
      cbn [fst snd set_nth nth_error].
      rewrite (advance_short e2 m name2 n2 _ (a - n1) (Some price) t Hsel1 Hm Hpos2)
        by lia.
      reflexivity. }
    rewrite Hturn. cbn [fst snd].
    split; [reflexivity | ]. split.
    + rewrite available_after_sale, Hav, Z.eqb_refl. reflexivity.
    + rewrite sales_after_sale, ledger_total_app.
      cbn [movie_id number_of_tickets]. rewrite Z.eqb_refl. lia.
Qed.

End Racing.

(** *** The further properties at concrete inputs *)

Section ClosedMore.
Import Demo Scenes.
#[local] Existing Instance Scenes.runtime.
#[local] Existing Instance Scenes.display.

Lemma db_reachable_on_the_wire : reachable Demo.db.
Proof.
  apply (reach_init empty_store Demo.db reach_empty). reflexivity.
Qed.

Lemma concurrent_sales_oversell_witness :
  (reachable Demo.db /\ nonneg Demo.db /\
   select_movie 1 Demo.db = Some (100, Some (float_lit 120), "The Matrix") /\
   in_int64 1 = true /\ in_int64 100 = true /\ fault quiet = None /\
   0 < 60 <= 100 /\ 100 < 60 + 60) /\
  (map status (answers (fst (interleave [0; 1; 0; 1]%nat two_buyers Demo.db)))
   = [ "ok"; "ok" ] /\
   available 1 (snd (interleave [0; 1; 0; 1]%nat two_buyers Demo.db))
   = Some (-20) /\
   ledger_total 1 (sales (snd (interleave [0; 1; 0; 1]%nat two_buyers Demo.db)))
   = 120 /\
   ~ nonneg (snd (interleave [0; 1; 0; 1]%nat two_buyers Demo.db))) /\
  (fst (interleave [0; 0; 1; 1]%nat two_buyers Demo.db)
   = [ Answered (Sold "Tickets sold"
                   (sale_record 1 "The Matrix" (PStr "Ada") 60
                      (float_mul (float_lit 60) (float_lit 120)))
                   "server_receipts/receipt_20250601100000_1.txt");
       Answered (Failed (Text "Not enough tickets (available 40)")) ] /\
   available 1 (snd (interleave [0; 0; 1; 1]%nat two_buyers Demo.db))
   = Some 40).
Proof.
  assert (H60 : 0 < 60 <= 100) by lia.
  assert (Hover : 100 < 60 + 60) by lia.
  destruct (@concurrent_sales_oversell Scenes.runtime
              1 "The Matrix" (float_lit 120) 100 quiet quiet "Ada" "Bob" 60 60
              Demo.db eq_refl eq_refl eq_refl eq_refl eq_refl H60 H60)
    as [(Hanswers & Hleft & Hledger & Hbelow) Hturn].
  destruct (Hturn Hover) as (Hrefused & Hkept & _).
  split; [ | split ].
  - split; [exact db_reachable_on_the_wire | ].
    split; [unfold nonneg; cbv; repeat constructor; discriminate | ].
    split; [reflexivity | ]. split; [reflexivity | ]. split; [reflexivity | ].
    split; [reflexivity | ]. split; [exact H60 | exact Hover].
  - split; [ | split; [exact Hleft | split; [exact Hledger | exact (Hbelow Hover)] ] ].
    unfold two_buyers. rewrite Hanswers. reflexivity.
  - split; [exact Hrefused | exact Hkept].
Defined.

Lemma recv_json_reads_one_line_witness :
  (first_line "{}" = None /\
   received cut_sale = ("{}" ++ newline ++ "more")%string) /\
  recv_json cut_sale "" = PDict [].
Proof.
  split; [split; reflexivity | ].
  apply (proj1 (proj2 (@recv_json_reads_one_line Scenes.runtime))
           cut_sale "{}" "more"); reflexivity.
Defined.

Lemma connection_answers_once_witness :
  (truthy (recv_json [("[1]" ++ newline)%string] "") = true /\
   (forall d, recv_json [("[1]" ++ newline)%string] "" <> PDict d)) /\
  client_thread quiet [("[1]" ++ newline)%string] Demo.db
  = ([Dispatch (PList [PInt 1]); Send (Failed (Str AttributeError))], Demo.db).
Proof.
  assert (Hnodict : forall d, recv_json [("[1]" ++ newline)%string] "" <> PDict d).
  { intros d. discriminate. }
  split; [split; [reflexivity | exact Hnodict] | ].
  apply (proj2 (proj2 (@connection_answers_once Scenes.runtime quiet
                         [("[1]" ++ newline)%string] Demo.db))
           eq_refl Hnodict).
Defined.

Lemma ledger_only_grows_witness :
  sales (snd (client_thread quiet [(sell_line ++ newline)%string] Demo.db))
  <> sales Demo.db /\
  action_of (recv_json [(sell_line ++ newline)%string] "") = Some "sell".
Proof.
  assert (Hgrew : sales (snd (client_thread quiet
                                [(sell_line ++ newline)%string] Demo.db))
                  <> sales Demo.db).
  { vm_compute. discriminate. }
  split; [exact Hgrew | ].
  apply (proj2 (@ledger_only_grows Scenes.runtime) quiet
           [(sell_line ++ newline)%string] Demo.db Hgrew).
Defined.

Lemma movie_ids_are_never_reused_witness :
  (5 <= movies_seq db_without_5 /\ ~ present 5 db_without_5) /\
  ~ present 5 (serve [(quiet, [(add_line ++ newline)%string])] db_without_5) /\
  map id (movies (serve [(quiet, [(add_line ++ newline)%string])] db_without_5))
  = [1; 2; 3; 4; 6].
Proof.
  assert (Hseq : 5 <= movies_seq db_without_5) by (vm_compute; discriminate).
  assert (Hout : ~ present 5 db_without_5).
  { vm_compute. intuition discriminate. }
  split; [split; assumption | ].
  split; [ | vm_compute; reflexivity ].
  apply (proj2 (proj2 (@movie_ids_are_never_reused Scenes.runtime))
           [(quiet, [(add_line ++ newline)%string])] db_without_5 5 Hseq Hout).
Defined.

Lemma sold_tickets_are_in_the_ledger_witness :
  available 1 Demo.db = Some 100 /\
  exists a',
    available 1 (sell_through (map (wire 1) rush) Demo.db) = Some a' /\
    a' + ledger_total 1 (sales (sell_through (map (wire 1) rush) Demo.db))
    = 100 + ledger_total 1 (sales Demo.db).
Proof.
  split; [reflexivity | ].
  apply (@sold_tickets_are_in_the_ledger Scenes.runtime 1 (map (wire 1) rush)
           Demo.db 100). reflexivity.
Defined.

Lemma accepted_sale_is_recorded_witness :
  status (fst (sell_tickets quiet (sell_payload 1 "Ada" 2) Demo.db)) = "ok" /\
  exists row,
    sales (snd (sell_tickets quiet (sell_payload 1 "Ada" 2) Demo.db)) = [row] /\
    movie_id row = 1 /\ number_of_tickets row = 2 /\
    total row = Some (float_mul (float_lit 2) (float_lit 120)).
Proof.
  assert (Hok : status (fst (sell_tickets quiet (sell_payload 1 "Ada" 2) Demo.db))
                = "ok") by reflexivity.
  split; [exact Hok | ].
  destruct (@accepted_sale_is_recorded Scenes.runtime quiet
              (sell_payload 1 "Ada" 2) Demo.db Hok)
    as (m & n & a & price & t & name & count & row & Hm & _ & Hn & Hsel & Hcount
        & _ & Hsales & _ & _ & _ & Hmid & Hnum & Htotal & _).
  injection Hm as Hm. injection Hn as Hn. subst m n.
  change (select_movie 1 Demo.db)
    with (Some (100, Some (float_lit 120), "The Matrix")) in Hsel.
  injection Hsel as Ha Hprice Ht.
  change (float_of_int 2) with (Ok (float_lit 2)) in Hcount.
  injection Hcount as Hcount. subst a price t count.
  exists row. split; [exact Hsales | ]. split; [exact Hmid | ].
  split; [exact Hnum | ]. rewrite Htotal. reflexivity.
Defined.

Lemma unpriced_movie_cannot_be_sold_witness :
  (in_int64 (f_cinema_room unpriced) = true /\
   in_int64 (f_tickets_available unpriced) = true /\
   is_nan (f_ticket_price unpriced) = true /\
   select_movie 6 (snd (add_movie (add_payload unpriced) Demo.db))
   = Some (10, None, "Unpriced") /\ 0 < 3 /\ 3 <= 10) /\
  fst (add_movie (add_payload unpriced) Demo.db) = Done "Movie added" /\
  sell_tickets quiet (sell_payload 6 "Ada" 3)
    (snd (add_movie (add_payload unpriced) Demo.db))
  = (Failed (Str TypeError), snd (add_movie (add_payload unpriced) Demo.db)).
Proof.
  destruct (@unpriced_movie_cannot_be_sold Scenes.runtime) as [Hadd Hsell].
  destruct (Hadd unpriced Demo.db eq_refl eq_refl eq_refl) as [Hok Hsel].
  split.
  { split; [reflexivity | ]. split; [reflexivity | ]. split; [reflexivity | ].
    split; [exact Hsel | ]. split; [reflexivity | discriminate]. }
  split; [exact Hok | ].
  apply (Hsell quiet (sell_payload 6 "Ada" 3) _ 6 (PStr "Ada") 3 10 "Unpriced");
    try reflexivity. discriminate.
Defined.

Lemma missing_field_is_reported_witness :
  assoc "title" [("action", PStr "add_movie"); ("cinema_room", PInt 1)] = None /\
  add_movie (PDict [("action", PStr "add_movie"); ("cinema_room", PInt 1)]) Demo.db
  = (Failed (Str (KeyError "title")), Demo.db).
Proof.
  split; [reflexivity | ].
  apply (proj1 (proj2 (proj2 (@missing_field_is_reported Scenes.runtime
           [("action", PStr "add_movie"); ("cinema_room", PInt 1)] Demo.db)))).
  reflexivity.
Defined.

Lemma requests_sent_twice_witness :
  fst (delete_movie (delete_payload 3) Demo.db) = Done "Movie deleted" /\
  delete_movie (delete_payload 3) (snd (delete_movie (delete_payload 3) Demo.db))
  = (Failed (Text "Movie id not found"),
     snd (delete_movie (delete_payload 3) Demo.db)).
Proof.
  split; [reflexivity | ].
  apply (proj1 (proj2 (@requests_sent_twice Scenes.runtime
                         (delete_payload 3) Demo.db))).
  reflexivity.
Defined.

Lemma init_db_seeds_an_empty_table_witness :
  (movies Demo.db <> [] /\ movies db_without_5 <> []) /\
  init_db Demo.db = Ok Demo.db /\
  init_db db_without_5 = Ok db_without_5.
Proof.
  assert (H1 : movies Demo.db <> []) by (vm_compute; discriminate).
  assert (H2 : movies db_without_5 <> []) by (vm_compute; discriminate).
  split; [split; assumption | ].
  split.
  - apply (proj1 (@init_db_seeds_an_empty_table Scenes.runtime Demo.db) H1).
  - apply (proj1 (@init_db_seeds_an_empty_table Scenes.runtime db_without_5) H2).
Defined.

Lemma selection_recovers_the_movie_witness :
  int_of_str (str_of_int (id sequel)) = Some (id sequel) /\
  Gui.combo_item (movie_record sequel) = Ok "7: Alien: Covenant (avail 30)" /\
  Gui.selected_id "7: Alien: Covenant (avail 30)" = Ok 7 /\
  Gui.buy_tickets "7: Alien: Covenant (avail 30)" "Ada" "2"
  = Some (sell_payload 7 "Ada" 2).
Proof.
  assert (Hread : int_of_str (str_of_int (id sequel)) = Some (id sequel))
    by reflexivity.
  assert (Hitem : Gui.combo_item (movie_record sequel)
                  = Ok "7: Alien: Covenant (avail 30)") by reflexivity.
  destruct (proj1 (proj2 (proj2 (@selection_recovers_the_movie
                                   Scenes.runtime Scenes.display sequel)))
              Hread _ Hitem) as [Hid Hbuy].
  split; [exact Hread | ]. split; [exact Hitem | ]. split; [exact Hid | ].
  apply (Hbuy "Ada" "2" 2). reflexivity.
Defined.

Lemma receipts_of_one_second_witness :
  receipt_clock quiet = receipt_clock crash /\
  receipt_name quiet 1 = receipt_name crash 1 /\
  receipt_name quiet 1 <> receipt_name crash 2.
Proof.
  assert (Hclock : receipt_clock quiet = receipt_clock crash) by reflexivity.
  split; [exact Hclock | ]. split.
  - apply (proj2 (receipts_of_one_second quiet crash 1 1 Hclock)). reflexivity.
  - intros Hsame.
    apply (proj1 (receipts_of_one_second quiet crash 1 2 Hclock)) in Hsame.
    discriminate.
Defined.

End ClosedMore.
